(** * ceject: a shallow embedding of [ceject.c] and its verified properties

    The program is a single C file that shells out to [lsblk], [findmnt] and
    [udisksctl].  Everything it knows about the machine comes back through
    [exec_cmd], which returns a pointer to one [static] buffer, and the
    callers tokenize that buffer in place with [strtok].  The embedding keeps
    the buffer as an array of bytes and the [strtok] saved pointer as an
    offset into it, because what the program does depends on both. *)

From Stdlib Require Import Ascii String ZArith Lia.
From stdpp Require Import base tactics option list strings.

Open Scope nat_scope.
Open Scope list_scope.

(** ** Constants of the source *)

Definition MAX_DRIVES : nat := 32.
Definition MAX_PATH : nat := 256.
Definition MAX_LINE : nat := 1024.
Definition MAX_PARTITIONS : nat := 16.
(** [static char buffer[MAX_LINE * 10]] of [exec_cmd]. *)
Definition BUFSZ : nat := MAX_LINE * 10.
(** [mountpoints[8][MAX_PATH]] and the literal [8] of [get_drive_info]. *)
Definition MAX_MOUNTS : nat := 8.

(** ** Characters and C strings *)

Definition NUL : ascii := "000"%char.
Definition NL : ascii := "010"%char.
Definition SLASH : ascii := "/"%char.
Definition DQUOTE : ascii := "034"%char.

(** A string literal of the source, as its bytes (without the terminator). *)
Definition cs (s : string) : list ascii := list_ascii_of_string s.

Definition is_nul (c : ascii) : bool := Ascii.eqb c NUL.
Definition is_nl (c : ascii) : bool := Ascii.eqb c NL.
Definition not_nul (c : ascii) : bool := negb (is_nul c).
(** A byte that ends neither the string nor the line. *)
Definition in_line (c : ascii) : bool := negb (is_nl c) && negb (is_nul c).

(** Length of the longest prefix whose bytes all satisfy [p]. *)
Fixpoint span (p : ascii → bool) (l : list ascii) : nat :=
  match l with
  | c :: l' => if p c then S (span p l') else 0
  | [] => 0
  end.

(** The bytes of a local [char] array read as a C string: up to the first
    NUL. *)
Definition cstr (l : list ascii) : list ascii := take (span not_nul l) l.

(** ** The static buffer *)

(** A byte read at an offset.  Outside the array the model answers NUL; the
    invariant [buffer_ok] below keeps every scan inside the array. *)
Definition peek (b : list ascii) (i : nat) : ascii := default NUL (b !! i).

(** [strlen(b + i)]. *)
Definition strlen_at (b : list ascii) (i : nat) : nat := span not_nul (drop i b).

(** The C string that starts at [b + i]. *)
Definition cstr_at (b : list ascii) (i : nat) : list ascii :=
  take (strlen_at b i) (drop i b).

(** [strspn(b + i, "\n")]. *)
Definition strspn_nl (b : list ascii) (i : nat) : nat := span is_nl (drop i b).

(** [strcspn(b + i, "\n")]. *)
Definition strcspn_nl (b : list ascii) (i : nat) : nat := span in_line (drop i b).

(** Store the bytes [xs] at [b + i]. *)
Definition blit (i : nat) (xs : list ascii) (b : list ascii) : list ascii :=
  take i b ++ xs ++ drop (i + length xs) b.

(** The two objects with static storage duration the program works on: the
    buffer of [exec_cmd] and the saved pointer of [strtok], which in this
    program only ever points into that buffer and is kept as an offset. *)
Record mem := Mem { buffer : list ascii; olds : nat }.

(** Static storage is zero-initialised. *)
Definition mem_init : mem := Mem (replicate BUFSZ NUL) 0.

(** ** [strtok(str, "\n")]

    glibc's [strtok_r]: a NULL [str] resumes at the saved pointer; leading
    delimiters are skipped; the token is cut by storing NUL over the
    delimiter that ends it.  The token is returned as an offset. *)
Definition strtok (str : option nat) (m : mem) : option nat * mem :=
  let b := buffer m in
  let s := default (olds m) str in
  if is_nul (peek b s) then (None, Mem b s) else
  let s1 := s + strspn_nl b s in
  if is_nul (peek b s1) then (None, Mem b s1) else
  let e := s1 + strcspn_nl b s1 in
  if is_nul (peek b e) then (Some s1, Mem b e)
  else (Some s1, Mem (<[e := NUL]> b) (S e)).

(** [char* newline = strchr(p, '\n'); if (newline) *newline = '\0';] *)
Definition strip_newline (b : list ascii) (i : nat) : list ascii :=
  let k := i + strcspn_nl b i in
  if is_nl (peek b k) then <[k := NUL]> b else b.

(** ** The host: the commands the program runs

    [popen_out w cmd] is what [popen(cmd, "r")] yields in the world [w]: the
    bytes of the command's standard output, or [None] when [popen] fails.
    The queries of this program only read the system, so they leave the world
    as it is.  [system_run w cmd] is [system(cmd)]: its status and the world
    after the command. *)
Class Host (W : Type) := {
  popen_out : W → list ascii → option (list ascii);
  system_run : W → list ascii → Z * W
}.

(** ** [exec_cmd] *)

(** [fgets(line, size, fp)] on a stream that is not at its end: at most
    [size - 1] bytes, stopping after a newline. *)
Fixpoint fgets_aux (k : nat) (fp : list ascii) : list ascii * list ascii :=
  match k, fp with
  | S k', c :: fp' =>
      if is_nl c then ([c], fp')
      else let '(l, r) := fgets_aux k' fp' in (c :: l, r)
  | _, _ => ([], fp)
  end.

Definition fgets (size : nat) (fp : list ascii) : option (list ascii * list ascii) :=
  match fp with
  | [] => None
  | _ => Some (fgets_aux (size - 1) fp)
  end.

(** [strncat(dest, src, n)]: at most [n] bytes of the C string [src] and a
    terminator, stored at the end of the C string in [dest]. *)
Definition strncat (dest src : list ascii) (n : nat) : list ascii :=
  blit (strlen_at dest 0) (take n (cstr src) ++ [NUL]) dest.

(** The [while (fgets(...) != NULL)] loop.  Every successful [fgets] takes at
    least one byte off the stream, so the length of the stream is fuel
    enough. *)
Fixpoint read_all (fuel : nat) (fp : list ascii) (b : list ascii) : list ascii :=
  match fuel with
  | 0 => b
  | S fuel' =>
      match fgets MAX_LINE fp with
      | None => b
      | Some (line, fp') =>
          read_all fuel' fp' (strncat b line (BUFSZ - strlen_at b 0 - 1))
      end
  end.

(** ** Results of the functions that can go wrong

    [Fault] is undefined behaviour of the C program (a store past the end of
    an array); [Timeout] is the model running out of fuel in a loop that has
    no bound of its own in the source. *)
Inductive result (A : Type) : Type :=
  | Ok (a : A)
  | Fault
  | Timeout.
Arguments Ok {A} a.
Arguments Fault {A}.
Arguments Timeout {A}.

(** ** [DriveInfo] *)

Record DriveInfo := mkDrive {
  path : list ascii;                (* char path[MAX_PATH] *)
  size : list ascii;                (* char size[64] *)
  model : list ascii;               (* char model[128] *)
  vendor : list ascii;              (* char vendor[128] *)
  transport : list ascii;           (* char transport[32] *)
  mount_count : nat;                (* int mount_count *)
  mountpoints : list (list ascii)   (* char mountpoints[8][MAX_PATH] *)
}.

Definition set_path (v : list ascii) (d : DriveInfo) : DriveInfo :=
  mkDrive v (size d) (model d) (vendor d) (transport d) (mount_count d) (mountpoints d).
Definition set_size (v : list ascii) (d : DriveInfo) : DriveInfo :=
  mkDrive (path d) v (model d) (vendor d) (transport d) (mount_count d) (mountpoints d).
Definition set_model (v : list ascii) (d : DriveInfo) : DriveInfo :=
  mkDrive (path d) (size d) v (vendor d) (transport d) (mount_count d) (mountpoints d).
Definition set_vendor (v : list ascii) (d : DriveInfo) : DriveInfo :=
  mkDrive (path d) (size d) (model d) v (transport d) (mount_count d) (mountpoints d).
Definition set_transport (v : list ascii) (d : DriveInfo) : DriveInfo :=
  mkDrive (path d) (size d) (model d) (vendor d) v (mount_count d) (mountpoints d).
Definition set_mount_count (n : nat) (d : DriveInfo) : DriveInfo :=
  mkDrive (path d) (size d) (model d) (vendor d) (transport d) n (mountpoints d).

(** [strncpy(info->mountpoints[info->mount_count], line, MAX_PATH - 1)], the
    terminator at [MAX_PATH - 1], and [info->mount_count++]. *)
Definition add_mountpoint (line : list ascii) (d : DriveInfo) : DriveInfo :=
  mkDrive (path d) (size d) (model d) (vendor d) (transport d)
          (S (mount_count d))
          (<[mount_count d := take (MAX_PATH - 1) line]> (mountpoints d)).

(** The mount points a record shows: the first [mount_count] slots. *)
Definition mount_list (d : DriveInfo) : list (list ascii) :=
  take (mount_count d) (mountpoints d).

(** ** The command lines *)

(** [snprintf(dst, size, ...)] keeps at most [size - 1] bytes. *)
Definition snprintf (size : nat) (formatted : list ascii) : list ascii :=
  take (size - 1) formatted.

Definition quoted (s : list ascii) : list ascii := [DQUOTE] ++ s ++ [DQUOTE].

Definition cmd_root : list ascii :=
  snprintf MAX_LINE
    (cs "lsblk -no PKNAME " ++ quoted (cs "$(findmnt -n -o SOURCE /)") ++ cs " 2>/dev/null").

Definition cmd_list (root_drive : list ascii) : list ascii :=
  snprintf MAX_LINE
    (cs "lsblk -ndo NAME,TYPE | awk -v rd=" ++ quoted root_drive
     ++ cs " '$2==" ++ quoted (cs "disk") ++ cs " && $1!=rd {print "
     ++ quoted (cs "/dev/") ++ cs "$1}'").

Definition cmd_detail (drive : list ascii) : list ascii :=
  snprintf MAX_LINE
    (cs "lsblk -no SIZE,MODEL,VENDOR,TRAN " ++ quoted drive ++ cs " 2>/dev/null | head -1").

Definition cmd_mount (dev : list ascii) : list ascii :=
  snprintf MAX_LINE (cs "lsblk -no MOUNTPOINT " ++ quoted dev ++ cs " 2>/dev/null").

Definition cmd_parts (drive_path : list ascii) : list ascii :=
  snprintf MAX_LINE (cs "lsblk -lno NAME " ++ quoted drive_path ++ cs " | tail -n +2").

Definition cmd_unmount (part_path : list ascii) : list ascii :=
  snprintf MAX_LINE (cs "udisksctl unmount -b " ++ quoted part_path ++ cs " &>/dev/null").

Definition cmd_poweroff (drive_path : list ascii) : list ascii :=
  snprintf MAX_LINE (cs "udisksctl power-off -b " ++ quoted drive_path ++ cs " &>/dev/null").

Definition cmd_clear : list ascii := cs "clear".

(** ** [sscanf(result, "%63s %127s %127s %31s", ...)] *)

(** [isspace] in the C locale. *)
Definition isspace (c : ascii) : bool :=
  let n := nat_of_ascii c in (n =? 32) || ((9 <=? n) && (n <=? 13)).

Definition not_space (c : ascii) : bool := negb (isspace c).

(** One [%Ns] directive: skip white space, fail at the end of the input,
    otherwise take the bytes up to the next white space, at most [width]. *)
Definition scan_s (width : nat) (s : list ascii) : option (list ascii * list ascii) :=
  let s1 := drop (span isspace s) s in
  match s1 with
  | [] => None
  | _ => let n := width `min` span not_space s1 in Some (take n s1, drop n s1)
  end.

(** The four directives in order; the conversion stops at the first one that
    finds no input, and the fields after it are not stored to. *)
Definition sscanf_info (s : list ascii) (info : DriveInfo) : DriveInfo :=
  match scan_s 63 s with
  | None => info
  | Some (t1, r1) =>
      let i1 := set_size t1 info in
      match scan_s 127 r1 with
      | None => i1
      | Some (t2, r2) =>
          let i2 := set_model t2 i1 in
          match scan_s 127 r2 with
          | None => i2
          | Some (t3, r3) =>
              let i3 := set_vendor t3 i2 in
              match scan_s 31 r3 with
              | None => i3
              | Some (t4, _) => set_transport t4 i3
              end
          end
      end
  end.

(** ** What the program does to the outside *)

(** The icon printed for the connection type. *)
Inductive icon : Type := IconUsb | IconSata | IconNvme.

(** Every [printf] of the source is one message, kept with its arguments
    and without the colours. *)
Inductive message : Type :=
  | MsgTitle
  | MsgTagline
  | MsgNoDrives
  | MsgPressEnterExit
  | MsgAvailable
  | MsgRule
  | MsgDrive (index : nat) (conn_icon : icon) (friendly_name : list ascii)
  | MsgDevice (p : list ascii)
  | MsgSize (s : list ascii)
  | MsgType (conn_type : list ascii)
  | MsgStatus (mounted : bool) (locations : option nat)
  | MsgMountPoint (mp : list ascii)
  | MsgBlank
  | MsgSelected (drive_path : list ascii)
  | MsgUnmountingAll
  | MsgUnmounting (part_path mountpoint : list ascii)
  | MsgSuccess
  | MsgFailed
  | MsgSomeFailed
  | MsgMayBeInUse
  | MsgPressEnterContinue
  | MsgPoweringOff
  | MsgEjected (drive_path : list ascii)
  | MsgSafeRemove
  | MsgPowerOffFailed
  | MsgOptions
  | MsgSelectRange (drive_count : nat)
  | MsgRefreshHint
  | MsgQuitHint
  | MsgPrompt
  | MsgGoodbye
  | MsgInvalid.

(** The trace is a ghost record of the calls that reach the terminal or the
    system, in program order, and of the queries [unmount_drive] makes. *)
Inductive event : Type :=
  | EvClear (status : Z)                              (* system("clear") *)
  | EvQuery (cmd : list ascii)                        (* exec_cmd(cmd) in unmount_drive *)
  | EvUnmount (part_path : list ascii) (status : Z)   (* system("udisksctl unmount ...") *)
  | EvPowerOff (drive_path : list ascii) (status : Z) (* system("udisksctl power-off ...") *)
  | EvPrint (m : message)
  | EvGetchar
  | EvSleep (seconds : nat).

(** The process: the world it runs in, its static storage, what is left of
    its standard input, and the trace so far. *)
Record proc (W : Type) := Proc {
  world : W;
  heap : mem;
  stdin : list ascii;
  trace : list event
}.
Arguments Proc {W}.
Arguments world {W}.
Arguments heap {W}.
Arguments stdin {W}.
Arguments trace {W}.

Definition emit {W} (e : event) (p : proc W) : proc W :=
  Proc (world p) (heap p) (stdin p) (trace p ++ [e]).
Definition print {W} (m : message) (p : proc W) : proc W := emit (EvPrint m) p.
Definition with_heap {W} (m : mem) (p : proc W) : proc W :=
  Proc (world p) m (stdin p) (trace p).
Definition with_world {W} (w : W) (p : proc W) : proc W :=
  Proc w (heap p) (stdin p) (trace p).
(** [getchar()]: one byte off standard input, if there is one. *)
Definition getchar {W} (p : proc W) : proc W :=
  Proc (world p) (heap p) (tail (stdin p)) (trace p ++ [EvGetchar]).

(** How a part of [main] ends: it goes on with a value, the process exits
    with a status, or the run is a [Fault] or a [Timeout] as above. *)
Inductive outcome (W A : Type) : Type :=
  | Goes (a : A)
  | Exits (code : Z) (p : proc W)
  | Faults
  | Stalls.
Arguments Goes {W A} a.
Arguments Exits {W A} code p.
Arguments Faults {W A}.
Arguments Stalls {W A}.

(** ** Pieces of [show_drives] and [main] that are pure *)

(** The friendly name: [snprintf(friendly_name, 256, "%s%s%s", ...)] or
    [strcpy(friendly_name, "Unknown Drive")]. *)
Definition friendly_name (vendor model : list ascii) : list ascii :=
  if (0 <? length vendor) || (0 <? length model) then
    snprintf 256
      ((if 0 <? length vendor then vendor else [])
       ++ (if 0 <? length vendor then cs " " else [])
       ++ (if 0 <? length model then model else cs "Unknown Drive"))
  else cs "Unknown Drive".

(** The connection type and the icon shown for a transport. *)
Definition conn_type (transport : list ascii) : list ascii :=
  if decide (transport = cs "sata") then cs "SATA"
  else if decide (transport = cs "nvme") then cs "NVMe"
  else cs "USB".

Definition conn_icon (transport : list ascii) : icon :=
  if decide (transport = cs "sata") then IconSata
  else if decide (transport = cs "nvme") then IconNvme
  else IconUsb.

(** [tolower] in the C locale. *)
Definition tolower (c : ascii) : ascii :=
  let n := nat_of_ascii c in
  if (65 <=? n) && (n <=? 90) then ascii_of_nat (n + 32) else c.

Definition is_digit (c : ascii) : bool :=
  let n := nat_of_ascii c in (48 <=? n) && (n <=? 57).

(** The value of the longest prefix of decimal digits. *)
Fixpoint digits_value (acc : Z) (s : list ascii) : Z :=
  match s with
  | c :: s' =>
      if is_digit c
      then digits_value (10 * acc + (Z.of_nat (nat_of_ascii c) - 48)) s'
      else acc
  | [] => acc
  end.

(** [strtol(s, NULL, 10)] with a 64-bit [long]: white space, an optional
    sign, digits; whatever follows is ignored; out of range saturates. *)
Definition strtol10 (s : list ascii) : Z :=
  let s1 := drop (span isspace s) s in
  let v :=
    match s1 with
    | c :: r =>
        if Ascii.eqb c "-" then (- digits_value 0 r)%Z
        else if Ascii.eqb c "+" then digits_value 0 r
        else digits_value 0 s1
    | [] => 0%Z
    end in
  Z.max (- 2 ^ 63) (Z.min (2 ^ 63 - 1) v).

(** Conversion of a [long] to [int]: the low 32 bits, as a signed number. *)
Definition to_int (z : Z) : Z := ((z + 2 ^ 31) mod 2 ^ 32 - 2 ^ 31)%Z.

(** [atoi(s)], which glibc defines as [(int) strtol(s, NULL, 10)]. *)
Definition atoi (s : list ascii) : Z := to_int (strtol10 s).

(** What [main] makes of the bytes [fgets] stored in [input]: the C string up
    to its first newline, in lower case. *)
Definition normalize (input : list ascii) : list ascii :=
  let s := cstr input in
  map tolower (take (span in_line s) s).

Section Program.
Context {W : Type} `{Host W}.

Definition exec_cmd (w : W) (cmd : list ascii) (m : mem) : mem :=
  let b0 := <[0 := NUL]> (buffer m) in
  match popen_out w cmd with
  | None => Mem b0 (olds m)
  | Some fp => Mem (read_all (length fp) fp b0) (olds m)
  end.

(** ** [get_root_drive] *)
Definition get_root_drive (w : W) (size : nat) (m : mem) : list ascii * mem :=
  let m1 := exec_cmd w cmd_root m in
  let b := strip_newline (buffer m1) 0 in
  (take (size - 1) (cstr_at b 0), Mem b (olds m1)).

(** ** [get_drive_info]

    [drive] is a pointer into the static buffer (the token [get_drives] got
    from [strtok]), so it is an offset here and every use reads the bytes
    that are in the buffer at that moment. *)

(** The [while (line != NULL && info->mount_count < 8)] loop. *)
Fixpoint mount_loop (fuel : nat) (line : option nat) (info : DriveInfo) (m : mem)
  : result (DriveInfo * mem) :=
  match line with
  | None => Ok (info, m)
  | Some l =>
      if decide (mount_count info < MAX_MOUNTS) then
        match fuel with
        | 0 => Timeout
        | S fuel' =>
            let info' :=
              if Ascii.eqb (peek (buffer m) l) SLASH
              then add_mountpoint (cstr_at (buffer m) l) info
              else info in
            let '(line', m') := strtok None m in
            mount_loop fuel' line' info' m'
        end
      else Ok (info, m)
  end.

Definition get_drive_info (w : W) (drive : nat) (info : DriveInfo) (m : mem)
  : result (DriveInfo * mem) :=
  (* strcpy(info->path, drive): path has room for MAX_PATH - 1 bytes *)
  let p := cstr_at (buffer m) drive in
  if decide (length p < MAX_PATH) then
    let info := set_mount_count 0 (set_path p info) in
    let m1 := exec_cmd w (cmd_detail (cstr_at (buffer m) drive)) m in
    let info := sscanf_info (cstr_at (buffer m1) 0) info in
    let m2 := exec_cmd w (cmd_mount (cstr_at (buffer m1) drive)) m1 in
    let '(line, m3) := strtok (Some 0) m2 in
    mount_loop BUFSZ line info m3
  else Fault.

(** ** [get_drives]

    The loop [while (line != NULL && count < max_drives)] adds one to [count]
    on every turn; [k] is [max_drives - count], the turns that are left. *)
Fixpoint drives_loop (w : W) (k : nat) (line : option nat) (count : nat)
    (drives : list DriveInfo) (m : mem) : result (nat * list DriveInfo * mem) :=
  match line with
  | None => Ok (count, drives, m)
  | Some l =>
      match k with
      | 0 => Ok (count, drives, m)
      | S k' =>
          match drives !! count with
          | None => Fault
          | Some slot =>
              match get_drive_info w l slot m with
              | Ok (info, m1) =>
                  let '(line', m2) := strtok None m1 in
                  drives_loop w k' line' (S count) (<[count := info]> drives) m2
              | Fault => Fault
              | Timeout => Timeout
              end
          end
      end
  end.

Definition get_drives (w : W) (drives : list DriveInfo) (max_drives : nat) (m : mem)
  : result (nat * list DriveInfo * mem) :=
  let '(root_drive, m1) := get_root_drive w 64 m in
  let m2 := exec_cmd w (cmd_list root_drive) m1 in
  let '(line, m3) := strtok (Some 0) m2 in
  drives_loop w max_drives line 0 drives m3.

(** ** [show_header] and [show_drives] *)

Definition show_header (p : proc W) : proc W :=
  let '(st, w') := system_run (world p) cmd_clear in
  print MsgTagline (print MsgTitle (emit (EvClear st) (with_world w' p))).

(** The block printed for [drives[i]]. *)
Definition show_drive (i : nat) (drive : DriveInfo) (p : proc W) : proc W :=
  let name := friendly_name (vendor drive) (model drive) in
  let mounted := 0 <? mount_count drive in
  let extra := if 3 <? mount_count drive then Some (mount_count drive) else None in
  let p := print (MsgDrive (i + 1) (conn_icon (transport drive)) name) p in
  let p := print (MsgDevice (path drive)) p in
  let p := print (MsgSize (size drive)) p in
  let p := print (MsgType (conn_type (transport drive))) p in
  let p := print (MsgStatus mounted extra) p in
  let p :=
    if (0 <? mount_count drive) && (mount_count drive <=? 3)
    then foldl (λ p mp, print (MsgMountPoint mp) p) p (mount_list drive)
    else p in
  print MsgBlank p.

Fixpoint show_each (i : nat) (ds : list DriveInfo) (p : proc W) : proc W :=
  match ds with
  | [] => p
  | d :: ds' => show_each (S i) ds' (show_drive i d p)
  end.

Definition show_drives (drives : list DriveInfo) (count : nat) (p : proc W)
  : outcome W (proc W) :=
  let p := show_header p in
  if count =? 0 then
    Exits 1 (getchar (print MsgPressEnterExit (print MsgNoDrives p)))
  else
    let p := print MsgRule (print MsgAvailable p) in
    let p := show_each 0 (take count drives) p in
    Goes (print MsgRule p).

(** ** [unmount_drive] *)

(** One turn of [while (partition != NULL)]: the work on the partition name
    at offset [partition], then [partition = strtok(NULL, "\n")]. *)
Definition unmount_step (partition : nat) (unmount_failed : bool) (p : proc W)
  : option nat * bool * proc W :=
  let part_path := snprintf MAX_PATH (cs "/dev/" ++ cstr_at (buffer (heap p)) partition) in
  let cmd := cmd_mount part_path in
  let m1 := exec_cmd (world p) cmd (heap p) in
  let p := emit (EvQuery cmd) p in
  (* mountpoint = exec_cmd(cmd) is the buffer itself *)
  let b := strip_newline (buffer m1) 0 in
  let p := with_heap (Mem b (olds m1)) p in
  let '(unmount_failed, p) :=
    if 0 <? strlen_at b 0 then
      let p := print (MsgUnmounting part_path (cstr_at b 0)) p in
      let '(ret, w') := system_run (world p) (cmd_unmount part_path) in
      let p := emit (EvUnmount part_path ret) (with_world w' p) in
      if (ret =? 0)%Z then (unmount_failed, print MsgSuccess p)
      else (true, print MsgFailed p)
    else (unmount_failed, p) in
  let '(next, m2) := strtok None (heap p) in
  (next, unmount_failed, with_heap m2 p).

Fixpoint unmount_loop (fuel : nat) (partition : option nat) (unmount_failed : bool)
    (p : proc W) : result (bool * proc W) :=
  match partition with
  | None => Ok (unmount_failed, p)
  | Some part =>
      match fuel with
      | 0 => Timeout
      | S fuel' =>
          let '(next, failed, p') := unmount_step part unmount_failed p in
          unmount_loop fuel' next failed p'
      end
  end.

Definition unmount_drive (drive_path : list ascii) (p : proc W) : result (bool * proc W) :=
  let p := show_header p in
  let p := print (MsgSelected drive_path) p in
  let p := print MsgUnmountingAll p in
  let cmd := cmd_parts drive_path in
  let m1 := exec_cmd (world p) cmd (heap p) in
  let p := emit (EvQuery cmd) (with_heap m1 p) in
  let '(partition, m2) := strtok (Some 0) (heap p) in
  match unmount_loop BUFSZ partition false (with_heap m2 p) with
  | Ok (unmount_failed, p) =>
      if unmount_failed then
        let p := print MsgSomeFailed p in
        let p := print MsgMayBeInUse p in
        let p := print MsgPressEnterContinue p in
        Ok (false, getchar p)
      else
        let p := print MsgPoweringOff p in
        let '(ret, w') := system_run (world p) (cmd_poweroff drive_path) in
        let p := emit (EvPowerOff drive_path ret) (with_world w' p) in
        let p :=
          if (ret =? 0)%Z
          then print MsgSafeRemove (print (MsgEjected drive_path) p)
          else print MsgPowerOffFailed p in
        let p := print MsgPressEnterContinue p in
        Ok (true, getchar p)
  | Fault => Fault
  | Timeout => Timeout
  end.

(** ** [main] *)

(** The five [printf] calls of the menu. *)
Definition show_menu (drive_count : nat) (p : proc W) : proc W :=
  let p := print MsgOptions p in
  let p := print (MsgSelectRange drive_count) p in
  let p := print MsgRefreshHint p in
  let p := print MsgQuitHint p in
  print MsgPrompt p.

(** One turn of [while (true)].  [Goes] is the next turn, with the array
    [drives] as this turn left it. *)
Definition main_step (drives : list DriveInfo) (p : proc W)
  : outcome W (list DriveInfo * proc W) :=
  match get_drives (world p) drives MAX_DRIVES (heap p) with
  | Ok (drive_count, drives, m) =>
      match show_drives drives drive_count (with_heap m p) with
      | Goes p =>
          let p := show_menu drive_count p in
          match fgets 16 (stdin p) with
          | None => Exits 0 p
          | Some (line, rest) =>
              let p := Proc (world p) (heap p) rest (trace p) in
              let input := normalize line in
              if decide (input = cs "q") then Exits 0 (print MsgGoodbye p)
              else if decide (input = cs "r") then Goes (drives, p)
              else
                let choice := atoi input in
                if ((1 <=? choice) && (choice <=? Z.of_nat drive_count))%Z then
                  match drives !! Z.to_nat (choice - 1) with
                  | Some d =>
                      match unmount_drive (path d) p with
                      | Ok (_, p) => Goes (drives, p)
                      | Fault => Faults
                      | Timeout => Stalls
                      end
                  | None => Faults
                  end
                else Goes (drives, emit (EvSleep 2) (print MsgInvalid p))
          end
      | Exits c p => Exits c p
      | Faults => Faults
      | Stalls => Stalls
      end
  | Fault => Faults
  | Timeout => Stalls
  end.

(** [main]: the exit status and the final process, given fuel for the turns
    of the loop. *)
Fixpoint main_loop (fuel : nat) (drives : list DriveInfo) (p : proc W)
  : outcome W unit :=
  match fuel with
  | 0 => Stalls
  | S fuel' =>
      match main_step drives p with
      | Goes (drives', p') => main_loop fuel' drives' p'
      | Exits c p' => Exits c p'
      | Faults => Faults
      | Stalls => Stalls
      end
  end.

End Program.

(** ** A canned host for examples: fixed answers per command line *)

Record canned := Canned {
  outputs : list (list ascii * list ascii);
  statuses : list (list ascii * Z)
}.

Fixpoint assoc {B : Type} (k : list ascii) (l : list (list ascii * B)) : option B :=
  match l with
  | [] => None
  | (k', v) :: l' => if decide (k = k') then Some v else assoc k l'
  end.

#[export] Instance canned_host : Host canned := {
  popen_out w cmd := Some (default [] (assoc cmd (outputs w)));
  system_run w cmd := (default 0%Z (assoc cmd (statuses w)), w)
}.

(** An array [drives] whose records are all empty. *)
Definition blank : DriveInfo := mkDrive [] [] [] [] [] 0 (replicate MAX_MOUNTS []).
Definition no_drives : list DriveInfo := replicate MAX_DRIVES blank.

(** A line of output: the text and a newline. *)
Definition nl (s : string) : list ascii := cs s ++ [NL].

(** ** Notions used in the statements and proofs *)

(** A scan with the test [p] stops at a NUL. *)
Definition stops (p : ascii → bool) : Prop := p NUL = false.

(** The invariant of the static buffer: it has its [BUFSZ] bytes and the last
    one is NUL, so that no scan leaves the array. *)
Definition buffer_ok (b : list ascii) : Prop :=
  length b = BUFSZ ∧ b !! (BUFSZ - 1) = Some NUL.

(** An unmount command that returned a status other than 0. *)
Definition is_failed_unmount (e : event) : bool :=
  match e with
  | EvUnmount _ st => negb (st =? 0)%Z
  | _ => false
  end.

(** A power-off command. *)
Definition is_poweroff (e : event) : bool :=
  match e with
  | EvPowerOff _ _ => true
  | _ => false
  end.

(** Some unmount in the trace reported a failure. *)
Definition failed_in (t : list event) : bool := existsb is_failed_unmount t.
(** The power-off command was run. *)
Definition powered_off (t : list event) : bool := existsb is_poweroff t.

(** The derivation as the specification words it: vendor and model joined,
    or "Unknown Drive" when both are empty. *)
Definition claimed_friendly_name (vendor model : list ascii) : list ascii :=
  match vendor, model with
  | [], [] => cs "Unknown Drive"
  | [], _ => model
  | _, [] => vendor
  | _, _ => vendor ++ cs " " ++ model
  end.

(** An event that only writes to the terminal. *)
Definition is_display (e : event) : bool :=
  match e with
  | EvClear _ | EvPrint _ => true
  | _ => false
  end.

(** The events are all output to the terminal. *)
Definition display_only (t : list event) : Prop := forallb is_display t = true.

(** "A number between 1 and the drive count", as the specification words the
    valid selections: a line of decimal digits whose value is in range. *)
Definition claimed_choice (s : list ascii) (count : nat) : Prop :=
  s ≠ [] ∧ forallb is_digit s = true ∧ (1 ≤ digits_value 0 s ≤ Z.of_nat count)%Z.

(** The trace at the end of a turn of the loop. *)
Definition trace_of {W A} (o : outcome W (A * proc W)) : list event :=
  match o with
  | Goes (_, p) => trace p
  | Exits _ p => trace p
  | _ => []
  end.

(** The warning for an invalid selection was printed. *)
Definition warned (t : list event) : bool :=
  existsb (λ e, match e with EvPrint MsgInvalid => true | _ => false end) t.

(** [agree h b b']: the buffers have the same first [h] bytes and a NUL at
    [h - 1].  A C-string operation that starts below [h] cannot tell them
    apart, and leaves them in agreement. *)
Definition agree (h : nat) (b b' : list ascii) : Prop :=
  length b = length b' ∧ take h b = take h b' ∧ 0 < h ∧ h ≤ length b ∧
  b !! (h - 1) = Some NUL.

(** Two memories in agreement: the same saved pointer, which lies in the
    live part. *)
Definition mem_agree (h : nat) (m m' : mem) : Prop :=
  olds m = olds m' ∧ olds m < h ∧ agree h (buffer m) (buffer m') ∧
  buffer_ok (buffer m) ∧ buffer_ok (buffer m').

(** The builder only ever stores into the records: what a run leaves in a
    field is either a value it computed, the same in any run over the same
    world, or what the field held before. *)
Definition same_or_kept {A} (o o' a a' : A) : Prop := a = a' ∨ (a = o ∧ a' = o').

(** The records [a] and [a'] that two runs made of [o] and [o']: field by
    field, and slot by slot of [mountpoints]. *)
Definition info_rel (o o' a a' : DriveInfo) : Prop :=
  same_or_kept (path o) (path o') (path a) (path a') ∧
  same_or_kept (size o) (size o') (size a) (size a') ∧
  same_or_kept (model o) (model o') (model a) (model a') ∧
  same_or_kept (vendor o) (vendor o') (vendor a) (vendor a') ∧
  same_or_kept (transport o) (transport o') (transport a) (transport a') ∧
  same_or_kept (mount_count o) (mount_count o') (mount_count a) (mount_count a') ∧
  length (mountpoints a) = length (mountpoints o) ∧
  length (mountpoints a') = length (mountpoints o') ∧
  ∀ j, same_or_kept (mountpoints o !! j) (mountpoints o' !! j)
                    (mountpoints a !! j) (mountpoints a' !! j).

(** Two runs end the same way, with values related by [R]. *)
Definition result_rel {A} (R : A → A → Prop) (r r' : result A) : Prop :=
  match r, r' with
  | Ok a, Ok a' => R a a'
  | Fault, Fault => True
  | Timeout, Timeout => True
  | _, _ => False
  end.

(** The arrays of two runs, slot by slot. *)
Definition arr_rel (O O' A A' : list DriveInfo) : Prop :=
  length A = length O ∧ length A' = length O' ∧
  ∀ i o o' a a', O !! i = Some o → O' !! i = Some o' →
    A !! i = Some a → A' !! i = Some a' → info_rel o o' a a'.

(** Two arrays of records of the same shape. *)
Definition slots_match (O O' : list DriveInfo) : Prop :=
  length O = length O' ∧
  ∀ i o o', O !! i = Some o → O' !! i = Some o' →
    length (mountpoints o) = length (mountpoints o').

(** [overlay M b]: up to the terminator at [length M], every byte of [b]
    that is not NUL is the byte of [M] at that place. *)
Definition overlay (M b : list ascii) : Prop :=
  b !! length M = Some NUL ∧
  ∀ i c, i < length M → b !! i = Some c → c ≠ NUL → M !! i = Some c.

(** [tok] is the part of [M] that starts at offset [t]. *)
Definition segment (M : list ascii) (t : nat) (tok : list ascii) : Prop :=
  t + length tok ≤ length M ∧ take (length tok) (drop t M) = tok.

(** A token without white space that fits a field of [width] bytes. *)
Definition is_token (width : nat) (t : list ascii) : Prop :=
  t ≠ [] ∧ forallb not_space t = true ∧ length t ≤ width.

(** ** Views of a run, for statements about concrete hosts *)

(** The process at start-up, with [input] on its standard input. *)
Definition boot {W} (w : W) (input : list ascii) : proc W := Proc w mem_init input [].

Definition eject_value {W} (r : result (bool * proc W)) : option bool :=
  match r with
  | Ok (b, _) => Some b
  | _ => None
  end.

Definition eject_trace {W} (r : result (bool * proc W)) : list event :=
  match r with
  | Ok (_, p) => trace p
  | _ => []
  end.

Definition is_action (e : event) : bool :=
  match e with
  | EvUnmount _ _ | EvPowerOff _ _ => true
  | _ => false
  end.

(** The unmount and power-off commands of a trace, in order. *)
Definition actions (t : list event) : list event := List.filter is_action t.

(** The command lines given to [exec_cmd], in order. *)
Definition queries (t : list event) : list (list ascii) :=
  flat_map (λ e, match e with EvQuery c => [c] | _ => [] end) t.

(** The catalog a run of [get_drives] returned: the records below [count]. *)
Definition catalog (r : result (nat * list DriveInfo * mem)) : option (list DriveInfo) :=
  match r with
  | Ok (c, ds, _) => Some (take c ds)
  | _ => None
  end.

(** ** Hosts for the examples *)

(** A USB stick [/dev/sdb] with two mounted partitions, next to the root
    disk [/dev/sda]. *)
Definition host_stick : canned :=
  Canned [ (cmd_root, nl "sda");
           (cmd_list (cs "sda"), nl "/dev/sdb");
           (cmd_detail (cs "/dev/sdb"), nl "14.9G Ultra SanDisk usb");
           (cmd_parts (cs "/dev/sdb"), nl "sdb1" ++ nl "sdb2");
           (cmd_mount (cs "/dev/sdb1"), nl "/media/usb");
           (cmd_mount (cs "/dev/sdb2"), nl "/data") ]
         [].

(** The same stick with its first partition not mounted: [lsblk] prints an
    empty line for it. *)
Definition host_idle : canned :=
  Canned [ (cmd_root, nl "sda");
           (cmd_list (cs "sda"), nl "/dev/sdb");
           (cmd_detail (cs "/dev/sdb"), nl "14.9G Ultra SanDisk usb");
           (cmd_parts (cs "/dev/sdb"), nl "sdb1" ++ nl "sdb2");
           (cmd_mount (cs "/dev/sdb1"), [NL]);
           (cmd_mount (cs "/dev/sdb2"), nl "/data") ]
         [].

(** The stick replaced by a device that reports a size and nothing else. *)
Definition host_swapped : canned :=
  Canned [ (cmd_root, nl "sda");
           (cmd_list (cs "sda"), nl "/dev/sdb");
           (cmd_detail (cs "/dev/sdb"), nl "1.8T") ]
         [].

(** No disk but the root disk. *)
Definition host_bare : canned :=
  Canned [ (cmd_root, nl "sda"); (cmd_list (cs "sda"), []) ] [].

(** A host where the mount-point query that [get_drive_info] makes with the
    overwritten name is answered, with ten lines. *)
Definition host_root : canned :=
  Canned [ (cmd_root, nl "sda");
           (cmd_list (cs "sda"), nl "/dev/sdb");
           (cmd_detail (cs "/dev/sdb"), nl "1.8T Backup WD usb");
           (cmd_mount (nl "1.8T Backup WD usb"),
              nl "/mnt/p1" ++ nl "/mnt/p2" ++ nl "/mnt/p3" ++ nl "/mnt/p4" ++
              nl "/mnt/p5" ++ nl "/mnt/p6" ++ nl "/mnt/p7" ++ nl "/mnt/p8" ++
              nl "/mnt/p9" ++ nl "/dev/sda");
           (cmd_detail (cs "/dev/sda"), nl "476.9G SSD ATA sata");
           (cmd_mount (cs "/dev/sda"), [NL] ++ nl "/boot" ++ nl "/") ]
         [].

(** Two refreshes, the stick being swapped in between: the second run works
    on the array and the static storage the first one left. *)
Definition refresh_after_swap : result (nat * list DriveInfo * mem) :=
  match get_drives host_stick no_drives MAX_DRIVES mem_init with
  | Ok (_, drives, m) => get_drives host_swapped drives MAX_DRIVES m
  | r => r
  end.

(** The process when [unmount_drive] enters its loop: the partition listing
    is in the buffer and its first name has been cut off. *)
Definition at_first_partition {W} `{Host W} (drive_path : list ascii) (p : proc W)
  : option nat * proc W :=
  let m1 := exec_cmd (world p) (cmd_parts drive_path) (heap p) in
  let '(partition, m2) := strtok (Some 0) m1 in
  (partition, with_heap m2 p).

(** The memory when [get_drives] enters its loop. *)
Definition at_first_device {W} `{Host W} (w : W) (m : mem) : option nat * mem :=
  let '(root_drive, m1) := get_root_drive w 64 m in
  strtok (Some 0) (exec_cmd w (cmd_list root_drive) m1).

(** The mount-point output [get_drive_info] tokenizes, as [exec_cmd] returned
    it: the query is made with the bytes at [drive] after the detail query. *)
Definition device_mount_output {W} `{Host W} (w : W) (drive : nat) (m : mem) : list ascii :=
  let m1 := exec_cmd w (cmd_detail (cstr_at (buffer m) drive)) m in
  cstr_at (buffer (exec_cmd w (cmd_mount (cstr_at (buffer m1) drive)) m1)) 0.

(** The mount-point output of one turn of the loop of [unmount_drive]. *)
Definition partition_mount_output {W} `{Host W} (partition : nat) (p : proc W) : list ascii :=
  let part_path := snprintf MAX_PATH (cs "/dev/" ++ cstr_at (buffer (heap p)) partition) in
  cstr_at (buffer (exec_cmd (world p) (cmd_mount part_path) (heap p))) 0.

(** C9 as the claim states it, for one turn of the loop of [unmount_drive]:
    the name the loop gets next is read from the output of the query the
    turn made. *)
Definition reads_latest_output {W} `{Host W} (partition : nat) (p : proc W) : Prop :=
  ∀ failed t failed' p',
    unmount_step partition failed p = (Some t, failed', p') →
    segment (partition_mount_output partition p) t (cstr_at (buffer (heap p')) t).

(** ** Notions for the lines of the buffer, the listing and the turns *)

(** A byte other than the newline. *)
Definition not_nl (c : ascii) : bool := negb (is_nl c).

(** The pieces of a string between its newlines, empty ones included. *)
Fixpoint split_nl (s : list ascii) : list (list ascii) :=
  match s with
  | [] => [[]]
  | c :: s' =>
      if is_nl c then [] :: split_nl s'
      else match split_nl s' with
           | l :: ls => (c :: l) :: ls
           | [] => [[c]]
           end
  end.

(** A piece that holds at least one byte. *)
Definition nonempty (l : list ascii) : bool := 0 <? length l.

(** The tokens [strtok(s, "\n")] yields one after the other: the non-empty
    lines of the string, in order. *)
Definition tokens (s : list ascii) : list (list ascii) :=
  List.filter nonempty (split_nl s).

(** The first line of a string: the bytes before its first newline. *)
Definition first_line (s : list ascii) : list ascii := take (span not_nl s) s.

(** The capacities of [DriveInfo]: each string with its terminator fits the
    array of its field, the counter is within the eight slots, and the
    record has its eight slots. *)
Definition fits (d : DriveInfo) : bool :=
  (length (path d) <? MAX_PATH) && (length (size d) <? 64) &&
  (length (model d) <? 128) && (length (vendor d) <? 128) &&
  (length (transport d) <? 32) && (mount_count d <=? MAX_MOUNTS) &&
  (length (mountpoints d) =? MAX_MOUNTS) &&
  forallb (λ mp, length mp <? MAX_PATH) (mountpoints d).

(** A line that names an absolute path. *)
Definition is_abs (line : list ascii) : bool :=
  match line with
  | c :: _ => Ascii.eqb c SLASH
  | [] => false
  end.


(** The device path [unmount_drive] builds for a partition name. *)
Definition part_path_of (name : list ascii) : list ascii :=
  snprintf MAX_PATH (cs "/dev/" ++ name).

(** A stick [/dev/sdb] with two partitions, neither of them mounted. *)
Definition host_unmounted : canned :=
  Canned [ (cmd_parts (cs "/dev/sdb"), nl "sdb1" ++ nl "sdb2");
           (cmd_mount (cs "/dev/sdb1"), [NL]);
           (cmd_mount (cs "/dev/sdb2"), [NL]) ]
         [].

(** A mount-point query that reports nothing: [popen] fails, or the output
    is empty or a single empty line. *)
Definition reports_nothing (o : option (list ascii)) : bool :=
  match o with
  | None | Some [] => true
  | Some [c] => is_nl c
  | Some _ => false
  end.

(** The numbers printed in the headings of the blocks, in order. *)
Definition headings (t : list event) : list nat :=
  flat_map (λ e, match e with EvPrint (MsgDrive i _ _) => [i] | _ => [] end) t.

(** The device paths printed in the blocks, in order. *)
Definition devices (t : list event) : list (list ascii) :=
  flat_map (λ e, match e with EvPrint (MsgDevice d) => [d] | _ => [] end) t.

(** The mount points printed in the blocks, in order. *)
Definition mount_lines (t : list event) : list (list ascii) :=
  flat_map (λ e, match e with EvPrint (MsgMountPoint mp) => [mp] | _ => [] end) t.

(** The mount points [show_drives] prints for a record: all of them when
    there are one to three, none otherwise. *)
Definition listed_mounts (d : DriveInfo) : list (list ascii) :=
  if (0 <? mount_count d) && (mount_count d <=? 3) then mount_list d else [].

(** A run of white space between two words: at least one byte, all of them
    white space. *)
Definition is_gap (ws : list ascii) : Prop := ws ≠ [] ∧ forallb isspace ws = true.

(** ** Proof automation *)

(** Membership of a listed event in a trace that is written out. *)
Ltac in_trace :=
  repeat first [rewrite elem_of_cons | rewrite elem_of_app]; auto 30.

Ltac info_rel_step :=
  unfold info_rel, same_or_kept in *; simpl in *; intuition auto.

(** * Proofs *)

(** ** Scanning *)

Lemma BUFSZ_pos : 0 < BUFSZ.
Proof. unfold BUFSZ, MAX_LINE. lia. Qed.

Lemma MAX_LINE_gt : 1 < MAX_LINE.
Proof. unfold MAX_LINE. lia. Qed.
Lemma MAX_DRIVES_eq : MAX_DRIVES = 32.
Proof. reflexivity. Qed.
Lemma MAX_MOUNTS_eq : MAX_MOUNTS = 8.
Proof. reflexivity. Qed.
Lemma MAX_PATH_eq : MAX_PATH = 256.
Proof. reflexivity. Qed.

(** The sizes stay folded in the proofs below. *)
#[global] Opaque BUFSZ MAX_LINE MAX_PATH MAX_DRIVES MAX_MOUNTS.

Lemma stops_not_nul : stops not_nul.
Proof. reflexivity. Qed.
Lemma stops_is_nl : stops is_nl.
Proof. reflexivity. Qed.
Lemma stops_in_line : stops in_line.
Proof. reflexivity. Qed.
#[local] Hint Resolve stops_not_nul stops_is_nl stops_in_line : core.

Lemma is_nul_true c : is_nul c = true ↔ c = NUL.
Proof. unfold is_nul. apply Ascii.eqb_eq. Qed.
Lemma is_nul_false c : is_nul c = false ↔ c ≠ NUL.
Proof. unfold is_nul. apply Ascii.eqb_neq. Qed.
Lemma is_nl_true c : is_nl c = true ↔ c = NL.
Proof. unfold is_nl. apply Ascii.eqb_eq. Qed.

Lemma span_le_index p l k c : l !! k = Some c → p c = false → span p l ≤ k.
Proof.
  revert k. induction l as [|x l IH]; intros [|k] Hk Hp; simplify_eq/=.
  - rewrite Hp. lia.
  - destruct (p x); [|lia]. specialize (IH _ Hk Hp). lia.
Qed.

Lemma span_le_length p l : span p l ≤ length l.
Proof. induction l as [|x l IH]; simpl; [lia|]. destruct (p x); lia. Qed.

Lemma span_lookup_stop p l : stops p → p (default NUL (l !! span p l)) = false.
Proof.
  intros Hs. induction l as [|x l IH]; simpl; [done|].
  destruct (p x) eqn:E; simpl; done.
Qed.

Lemma span_lookup_lt p l k : k < span p l → ∃ c, l !! k = Some c ∧ p c = true.
Proof.
  revert k. induction l as [|x l IH]; intros k Hk; simpl in *; [lia|].
  destruct (p x) eqn:E; [|lia].
  destruct k as [|k]; simpl; [eauto|]. apply IH. lia.
Qed.

Lemma span_app_stop p l1 l2 k c :
  l1 !! k = Some c → p c = false → span p (l1 ++ l2) = span p l1.
Proof.
  revert k. induction l1 as [|x l1 IH]; intros [|k] Hk Hp; simplify_eq/=.
  - by rewrite Hp.
  - destruct (p x); [|done]. f_equal. eauto.
Qed.

Lemma peek_drop b i k : default NUL (drop i b !! k) = peek b (i + k).
Proof. unfold peek. by rewrite lookup_drop. Qed.

Lemma peek_lookup b i c : b !! i = Some c → peek b i = c.
Proof. unfold peek. by intros ->. Qed.

Lemma scan_stop p b i : stops p → p (peek b (i + span p (drop i b))) = false.
Proof. intros Hs. rewrite <- peek_drop. by apply span_lookup_stop. Qed.

Lemma scan_bound p b i z :
  stops p → b !! z = Some NUL → i ≤ z → i + span p (drop i b) ≤ z.
Proof.
  intros Hs Hz Hi.
  assert (span p (drop i b) ≤ z - i); [|lia].
  apply span_le_index with NUL; [|done].
  rewrite lookup_drop. by replace (i + (z - i)) with z by lia.
Qed.

Lemma scan_inside p b i k : k < span p (drop i b) → p (peek b (i + k)) = true.
Proof.
  intros Hk. apply span_lookup_lt in Hk as (c & Hc & Hp).
  rewrite lookup_drop in Hc. by rewrite (peek_lookup _ _ _ Hc).
Qed.

(** ** The buffer keeps its size and its last byte *)

Lemma buffer_ok_init : buffer_ok (buffer mem_init).
Proof.
  unfold mem_init. split; cbn [buffer].
  - apply length_replicate.
  - apply lookup_replicate_2. pose proof BUFSZ_pos. lia.
Qed.

Lemma buffer_ok_insert_nul b i : buffer_ok b → buffer_ok (<[i := NUL]> b).
Proof.
  intros [Hl Hz]. split; [by rewrite length_insert|].
  destruct (decide (i = BUFSZ - 1)) as [->|Hne].
  - apply list_lookup_insert_eq. pose proof BUFSZ_pos. lia.
  - by rewrite list_lookup_insert_ne.
Qed.

Lemma strlen_bound b i : buffer_ok b → i ≤ BUFSZ - 1 → i + strlen_at b i ≤ BUFSZ - 1.
Proof. intros [_ Hz] Hi. by apply scan_bound. Qed.

Lemma length_blit i xs b :
  i + length xs ≤ length b → length (blit i xs b) = length b.
Proof.
  intros Hi. unfold blit. rewrite !length_app, length_take, length_drop. lia.
Qed.

Lemma lookup_blit_lt i xs b j : i ≤ length b → j < i → blit i xs b !! j = b !! j.
Proof.
  intros Hi Hj. unfold blit.
  rewrite lookup_app_l by (rewrite length_take; lia).
  by apply lookup_take_lt.
Qed.

Lemma lookup_blit_in i xs b j :
  i ≤ length b → i ≤ j → j < i + length xs → blit i xs b !! j = xs !! (j - i).
Proof.
  intros Hi Hj1 Hj2. unfold blit.
  rewrite lookup_app_r by (rewrite length_take; lia).
  rewrite length_take, Nat.min_l by lia.
  by rewrite lookup_app_l by lia.
Qed.

Lemma lookup_blit_ge i xs b j :
  i ≤ length b → i + length xs ≤ j → blit i xs b !! j = b !! j.
Proof.
  intros Hi Hj. unfold blit.
  rewrite lookup_app_r by (rewrite length_take; lia).
  rewrite length_take, Nat.min_l by lia.
  rewrite lookup_app_r by lia.
  rewrite lookup_drop. f_equal. lia.
Qed.

Lemma buffer_ok_strncat b line :
  buffer_ok b → buffer_ok (strncat b line (BUFSZ - strlen_at b 0 - 1)).
Proof.
  intros Hb. pose proof Hb as [Hl Hz]. pose proof BUFSZ_pos as Hpos.
  pose proof (strlen_bound b 0 Hb ltac:(lia)) as Hd. rewrite Nat.add_0_l in Hd.
  unfold strncat.
  set (d := strlen_at b 0) in *.
  set (xs := take (BUFSZ - d - 1) (cstr line) ++ [NUL]).
  assert (length xs ≤ BUFSZ - d) as Hxs.
  { unfold xs. rewrite length_app, length_take. cbn [length]. lia. }
  split.
  - rewrite length_blit; lia.
  - destruct (decide (d + length xs ≤ BUFSZ - 1)) as [Hle|Hgt].
    + rewrite lookup_blit_ge by lia. done.
    + rewrite lookup_blit_in by lia.
      assert (BUFSZ - 1 - d = length xs - 1) as -> by lia.
      unfold xs in *. rewrite length_app in *. cbn [length] in *.
      rewrite lookup_app_r by lia.
      replace (_ + 1 - 1 - _) with 0 by lia. done.
Qed.

Lemma buffer_ok_read_all fuel fp b : buffer_ok b → buffer_ok (read_all fuel fp b).
Proof.
  revert fp b. induction fuel as [|fuel IH]; intros fp b Hb; simpl; [done|].
  destruct (fgets MAX_LINE fp) as [[line fp']|]; [|done].
  apply IH. by apply buffer_ok_strncat.
Qed.

Section ProgramFacts.
Context {W : Type} `{Host W}.

Lemma olds_exec_cmd (w : W) cmd m : olds (exec_cmd w cmd m) = olds m.
Proof. unfold exec_cmd. by destruct (popen_out w cmd). Qed.

Lemma buffer_ok_exec_cmd (w : W) cmd m :
  buffer_ok (buffer m) → buffer_ok (buffer (exec_cmd w cmd m)).
Proof.
  intros Hb. unfold exec_cmd.
  destruct (popen_out w cmd); simpl.
  - apply buffer_ok_read_all. by apply buffer_ok_insert_nul.
  - by apply buffer_ok_insert_nul.
Qed.

End ProgramFacts.

Lemma buffer_ok_strip_newline b i : buffer_ok b → buffer_ok (strip_newline b i).
Proof.
  intros Hb. unfold strip_newline.
  destruct (is_nl _); [by apply buffer_ok_insert_nul|done].
Qed.

(** ** [strtok] moves forward and stays below the next NUL *)

Lemma strtok_bound z str m r m' :
  buffer m !! z = Some NUL →
  default (olds m) str ≤ z →
  strtok str m = (r, m') →
  olds m' ≤ z ∧ default (olds m) str ≤ olds m' ∧
  (∀ t, r = Some t → default (olds m) str ≤ t ∧ t < olds m') ∧
  (buffer m' = buffer m ∨ ∃ e, buffer m' = <[e := NUL]> (buffer m)).
Proof.
  intros Hz Hs. unfold strtok.
  set (b := buffer m) in *. set (s := default (olds m) str) in *.
  destruct (is_nul (peek b s)) eqn:E0.
  { intros [= <- <-]. simpl. split_and!; auto. done. }
  pose proof (scan_bound is_nl b s _ stops_is_nl Hz Hs) as Hs1.
  fold (strspn_nl b s) in Hs1.
  set (s1 := s + strspn_nl b s) in *.
  destruct (is_nul (peek b s1)) eqn:E1.
  { intros [= <- <-]. simpl. split_and!; auto; [lia|done]. }
  pose proof (scan_bound in_line b s1 _ stops_in_line Hz Hs1) as He.
  fold (strcspn_nl b s1) in He.
  assert (0 < strcspn_nl b s1) as Hpos.
  { unfold strcspn_nl.
    destruct (drop s1 b) as [|c l] eqn:Ed; simpl.
    - exfalso. unfold peek in E1.
      assert (b !! s1 = None) as Hn.
      { apply lookup_ge_None. apply (f_equal length) in Ed.
        rewrite length_drop in Ed. simpl in Ed. lia. }
      rewrite Hn in E1. done.
    - assert (peek b s1 = c) as Hc.
      { apply peek_lookup. rewrite <- (Nat.add_0_r s1), <- lookup_drop, Ed. done. }
      assert (is_nl c = false) as Hnl.
      { rewrite <- Hc. unfold s1, strspn_nl. by apply scan_stop. }
      unfold in_line. rewrite Hnl. rewrite Hc in E1. rewrite E1. simpl. lia. }
  set (e := s1 + strcspn_nl b s1) in *.
  destruct (is_nul (peek b e)) eqn:E2.
  { intros [= <- <-]. simpl. split_and!; auto; try lia.
    intros t [= <-]. lia. }
  intros [= <- <-]. simpl.
  assert (e ≠ z) as Hne.
  { intros Heq. rewrite Heq, (peek_lookup _ _ _ Hz) in E2. done. }
  split_and!; eauto; try lia.
  intros t [= <-]. lia.
Qed.

Lemma strtok_spec str m r m' :
  buffer_ok (buffer m) →
  default (olds m) str ≤ BUFSZ - 1 →
  strtok str m = (r, m') →
  buffer_ok (buffer m') ∧ olds m' ≤ BUFSZ - 1 ∧ default (olds m) str ≤ olds m' ∧
  (∀ t, r = Some t → default (olds m) str ≤ t ∧ t < olds m').
Proof.
  intros Hb Hs Htok. pose proof Hb as [_ Hz].
  destruct (strtok_bound _ _ _ _ _ Hz Hs Htok) as (H1 & H2 & H3 & H4).
  split_and!; try done.
  destruct H4 as [->|[e ->]]; [done|by apply buffer_ok_insert_nul].
Qed.

(** ** The catalog builder: bounds *)

Lemma sscanf_info_fixed s info :
  path (sscanf_info s info) = path info ∧
  mount_count (sscanf_info s info) = mount_count info ∧
  mountpoints (sscanf_info s info) = mountpoints info.
Proof.
  unfold sscanf_info.
  repeat (destruct (scan_s _ _) as [[??]|]; [|done]). done.
Qed.

Lemma mount_loop_unfold fuel line info m :
  mount_loop fuel line info m =
  match line with
  | None => Ok (info, m)
  | Some l =>
      if decide (mount_count info < MAX_MOUNTS) then
        match fuel with
        | 0 => Timeout
        | S fuel' =>
            let info' :=
              if Ascii.eqb (peek (buffer m) l) SLASH
              then add_mountpoint (cstr_at (buffer m) l) info
              else info in
            let '(line', m') := strtok None m in
            mount_loop fuel' line' info' m'
        end
      else Ok (info, m)
  end.
Proof. by destruct fuel. Qed.

Lemma mount_loop_fixed fuel line info m info' m' :
  mount_loop fuel line info m = Ok (info', m') →
  path info' = path info ∧ size info' = size info ∧ model info' = model info ∧
  vendor info' = vendor info ∧ transport info' = transport info ∧
  (mount_count info ≤ MAX_MOUNTS → mount_count info' ≤ MAX_MOUNTS).
Proof.
  revert line info m. induction fuel as [|fuel IH]; intros line info m;
    rewrite mount_loop_unfold.
  - destruct line as [l|]; [case_decide; [done|]|]; intros [= <- <-]; done.
  - destruct line as [l|]; [case_decide|]; try (intros [= <- <-]; done).
    cbv zeta. destruct (strtok None m) as [line' m1].
    intros Hloop. apply IH in Hloop as (-> & -> & -> & -> & -> & Hc).
    destruct (Ascii.eqb _ _);
      cbn [add_mountpoint path size model vendor transport mount_count] in *;
      split_and!; try done; intros; apply Hc; lia.
Qed.

Section CatalogBounds.
Context {W : Type} `{Host W}.

Lemma get_drive_info_bounds (w : W) drive info m info' m' :
  get_drive_info w drive info m = Ok (info', m') →
  path info' = cstr_at (buffer m) drive ∧ length (path info') < MAX_PATH ∧
  mount_count info' ≤ MAX_MOUNTS.
Proof.
  unfold get_drive_info. case_decide as Hlen; [|done].
  cbv zeta. destruct (strtok (Some 0) _) as [line m3].
  intros Hloop. apply mount_loop_fixed in Hloop as (Hp & _ & _ & _ & _ & Hc).
  destruct (sscanf_info_fixed
    (cstr_at (buffer (exec_cmd w (cmd_detail (cstr_at (buffer m) drive)) m)) 0)
    (set_mount_count 0 (set_path (cstr_at (buffer m) drive) info))) as (Hp' & Hc' & _).
  rewrite Hp' in Hp. rewrite Hc' in Hc. cbn in Hp, Hc.
  rewrite Hp. split_and!; [done|done|]. apply Hc. lia.
Qed.

Lemma drives_loop_bounds (w : W) k line count drives m count' drives' m' :
  drives_loop w k line count drives m = Ok (count', drives', m') →
  count ≤ count' ∧ count' ≤ count + k ∧ length drives' = length drives ∧
  (∀ i, i < count → drives' !! i = drives !! i) ∧
  (∀ i d, count ≤ i → i < count' → drives' !! i = Some d →
     length (path d) < MAX_PATH ∧ mount_count d ≤ MAX_MOUNTS).
Proof.
  revert line count drives m.
  induction k as [|k IH]; intros line count drives m; simpl;
    destruct line as [l|]; try (intros [= <- <- <-]; split_and!; try done; try lia;
      intros; lia).
  destruct (drives !! count) as [slot|] eqn:Hslot; [|done].
  destruct (get_drive_info w l slot m) as [[info m1]| |] eqn:Hinfo; [|done|done].
  destruct (strtok None m1) as [line' m2].
  intros Hloop. apply IH in Hloop as (H1 & H2 & H3 & H4 & H5).
  apply get_drive_info_bounds in Hinfo as (_ & Hp & Hc).
  rewrite length_insert in H3.
  split_and!; try done; try lia.
  - intros i Hi. rewrite H4 by lia. apply list_lookup_insert_ne. lia.
  - intros i d Hi1 Hi2 Hd.
    destruct (decide (i = count)) as [->|Hne].
    + rewrite H4 in Hd by lia.
      rewrite list_lookup_insert_eq in Hd by (by eapply lookup_lt_Some).
      by simplify_eq.
    + apply (H5 i); [lia|lia|done].
Qed.

Lemma get_drives_bounds (w : W) drives max_drives m count drives' m' :
  get_drives w drives max_drives m = Ok (count, drives', m') →
  count ≤ max_drives ∧ length drives' = length drives ∧
  ∀ i d, i < count → drives' !! i = Some d →
    length (path d) < MAX_PATH ∧ mount_count d ≤ MAX_MOUNTS.
Proof.
  unfold get_drives.
  destruct (get_root_drive w 64 m) as [root_drive m1].
  destruct (strtok (Some 0) _) as [line m3].
  intros Hloop. apply drives_loop_bounds in Hloop as (H1 & H2 & H3 & H4 & H5).
  split_and!; [lia|done|]. intros i d Hi Hd. apply (H5 i); [lia|done|done].
Qed.

(** C4: the catalog never has more than 32 records and no record lists
    more than 8 mount points, whatever the listing and the mount-point
    queries report. *)
Theorem catalog_within_capacity (w : W) drives m count drives' m' :
  get_drives w drives MAX_DRIVES m = Ok (count, drives', m') →
  count ≤ 32 ∧ ∀ d, d ∈ take count drives' → length (mount_list d) ≤ 8.
Proof.
  intros Hget. apply get_drives_bounds in Hget as (Hc & _ & Hm).
  rewrite MAX_DRIVES_eq in Hc. split; [done|].
  intros d Hd. apply list_elem_of_lookup in Hd as [i Hi].
  apply lookup_take_Some in Hi as [Hi Hlt].
  destruct (Hm i d Hlt Hi) as [_ Hmc]. rewrite MAX_MOUNTS_eq in Hmc.
  unfold mount_list. rewrite length_take. lia.
Qed.

End CatalogBounds.

(** ** The token loops end before their fuel does *)

Lemma mount_loop_total fuel line info m :
  buffer_ok (buffer m) → olds m ≤ BUFSZ - 1 →
  (is_Some line → BUFSZ - olds m ≤ fuel) →
  ∃ info' m', mount_loop fuel line info m = Ok (info', m') ∧
    buffer_ok (buffer m') ∧ olds m' ≤ BUFSZ - 1.
Proof.
  pose proof BUFSZ_pos as Hpos.
  revert line info m. induction fuel as [|fuel IH]; intros line info m Hb Ho Hf;
    rewrite mount_loop_unfold.
  - destruct line as [l|]; [|by eauto]. case_decide; [|by eauto].
    specialize (Hf ltac:(eauto)). lia.
  - destruct line as [l|]; [|by eauto]. case_decide; [|by eauto].
    specialize (Hf ltac:(eauto)). cbv zeta.
    destruct (strtok None m) as [line' m1] eqn:Htok.
    apply strtok_spec in Htok as (Hb1 & Ho1 & Hmono & Ht); [|done|done].
    apply IH; [done|done|].
    intros [t ->]. destruct (Ht t eq_refl). simpl in *. lia.
Qed.

(** ** [unmount_drive]: the flag, the trace and the power-off step *)

Lemma failed_in_app t1 t2 : failed_in (t1 ++ t2) = failed_in t1 || failed_in t2.
Proof. apply existsb_app. Qed.
Lemma powered_off_app t1 t2 : powered_off (t1 ++ t2) = powered_off t1 || powered_off t2.
Proof. apply existsb_app. Qed.

Lemma failed_in_false t :
  failed_in t = false ↔ ∀ part st, EvUnmount part st ∈ t → st = 0%Z.
Proof.
  unfold failed_in. induction t as [|e t IH]; simpl.
  - split; [|done]. intros _ part st Hin. inversion Hin.
  - rewrite orb_false_iff, IH. split.
    + intros [He Ht] part st Hin. apply elem_of_cons in Hin as [<-|Hin]; [|by eauto].
      simpl in He. apply negb_false_iff, Z.eqb_eq in He. done.
    + intros Hall. split.
      * destruct e; try done. simpl. apply negb_false_iff, Z.eqb_eq.
        apply (Hall part_path). apply elem_of_cons. by left.
      * intros part st Hin. apply (Hall part). apply elem_of_cons. by right.
Qed.

Section Eject.
Context {W : Type} `{Host W}.

Lemma show_header_spec (p : proc W) :
  heap (show_header p) = heap p ∧ stdin (show_header p) = stdin p ∧
  ∃ st, trace (show_header p)
         = trace p ++ [EvClear st; EvPrint MsgTitle; EvPrint MsgTagline].
Proof.
  unfold show_header. destruct (system_run (world p) cmd_clear) as [st w'].
  simpl. split_and!; [done|done|]. exists st. by rewrite <- !app_assoc.
Qed.

Lemma unmount_step_spec partition failed (p : proc W) next failed' p' :
  buffer_ok (buffer (heap p)) → olds (heap p) ≤ BUFSZ - 1 →
  unmount_step partition failed p = (next, failed', p') →
  buffer_ok (buffer (heap p')) ∧ olds (heap p') ≤ BUFSZ - 1 ∧
  (is_Some next → olds (heap p) < olds (heap p')) ∧
  stdin p' = stdin p ∧
  ∃ t, trace p' = trace p ++ t ∧ failed' = failed || failed_in t ∧
       powered_off t = false.
Proof.
  intros Hb Ho. unfold unmount_step.
  set (part_path := snprintf MAX_PATH _).
  set (m1 := exec_cmd (world p) (cmd_mount part_path) (heap p)).
  set (b := strip_newline (buffer m1) 0).
  assert (buffer_ok b) as Hb1.
  { apply buffer_ok_strip_newline, buffer_ok_exec_cmd, Hb. }
  assert (olds m1 = olds (heap p)) as Ho1 by apply olds_exec_cmd.
  assert (∀ (q : proc W) fl t,
    heap q = Mem b (olds m1) → stdin q = stdin p → trace q = trace p ++ t →
    fl = failed || failed_in t → powered_off t = false →
    (let '(next, m2) := strtok None (heap q) in (next, fl, with_heap m2 q))
      = (next, failed', p') →
    buffer_ok (buffer (heap p')) ∧ olds (heap p') ≤ BUFSZ - 1 ∧
    (is_Some next → olds (heap p) < olds (heap p')) ∧ stdin p' = stdin p ∧
    ∃ t, trace p' = trace p ++ t ∧ failed' = failed || failed_in t ∧
         powered_off t = false) as Hfin.
  { intros q fl t Hq Hin Ht Hfl Hpo.
    destruct (strtok None (heap q)) as [nx m2] eqn:Htok. intros [= <- <- <-].
    rewrite Hq in Htok.
    apply strtok_spec in Htok as (Hb2 & Ho2 & Hmono & Htk); simpl; [|done|lia].
    simpl in *. split_and!; [done|done| |done|by eauto].
    intros [tk ->]. destruct (Htk tk eq_refl). lia. }
  destruct (0 <? strlen_at b 0).
  - cbn [world heap stdin trace print emit with_heap with_world].
    destruct (system_run (world p) (cmd_unmount part_path)) as [ret w'].
    destruct (ret =? 0)%Z eqn:Hret.
    + apply (Hfin _ _ [EvQuery (cmd_mount part_path);
                      EvPrint (MsgUnmounting part_path (cstr_at b 0));
                      EvUnmount part_path ret; EvPrint MsgSuccess]);
        [done|done|by simpl; rewrite <- !app_assoc| |done].
      simpl. rewrite Hret. simpl. by rewrite orb_false_r.
    + apply (Hfin _ _ [EvQuery (cmd_mount part_path);
                      EvPrint (MsgUnmounting part_path (cstr_at b 0));
                      EvUnmount part_path ret; EvPrint MsgFailed]);
        [done|done|by simpl; rewrite <- !app_assoc| |done].
      simpl. rewrite Hret. simpl. by rewrite orb_true_r.
  - apply (Hfin _ _ [EvQuery (cmd_mount part_path)]); [done|done|done| |done].
    simpl. by rewrite orb_false_r.
Qed.

Lemma unmount_loop_spec fuel partition failed (p : proc W) :
  buffer_ok (buffer (heap p)) → olds (heap p) ≤ BUFSZ - 1 →
  (is_Some partition → BUFSZ - olds (heap p) ≤ fuel) →
  ∃ failed' p' t, unmount_loop fuel partition failed p = Ok (failed', p') ∧
    trace p' = trace p ++ t ∧ failed' = failed || failed_in t ∧
    powered_off t = false ∧ stdin p' = stdin p ∧ buffer_ok (buffer (heap p')).
Proof.
  pose proof BUFSZ_pos as Hpos.
  revert partition failed p.
  induction fuel as [|fuel IH]; intros partition failed p Hb Ho Hf.
  - destruct partition as [part|]; simpl.
    + specialize (Hf ltac:(eauto)). lia.
    + exists failed, p, []. rewrite app_nil_r, orb_false_r. done.
  - destruct partition as [part|]; simpl.
    + destruct (unmount_step part failed p) as [[next fl] p1] eqn:Hstep.
      apply unmount_step_spec in Hstep
        as (Hb1 & Ho1 & Hprog & Hin & t1 & Ht1 & Hfl & Hpo1); [|done|done].
      destruct (IH next fl p1) as (failed' & p' & t2 & Hloop & Ht2 & Hfl2 & Hpo2 & Hin2 & Hb2);
        [done|done| |].
      { intros Hn. specialize (Hprog Hn). specialize (Hf ltac:(eauto)). lia. }
      exists failed', p', (t1 ++ t2). split_and!; [done| | | |congruence|done].
      * by rewrite Ht2, Ht1, <- app_assoc.
      * rewrite Hfl2, Hfl, failed_in_app. by rewrite orb_assoc.
      * rewrite powered_off_app, Hpo1, Hpo2. done.
    + exists failed, p, []. rewrite app_nil_r, orb_false_r. done.
Qed.

(** What one call of [unmount_drive] adds to the trace, and how its result
    and the power-off step depend on the unmounts in it. *)
Lemma unmount_drive_spec drive_path (p : proc W) :
  buffer_ok (buffer (heap p)) →
  ∃ b p' t, unmount_drive drive_path p = Ok (b, p') ∧
    trace p' = trace p ++ t ∧
    b = negb (failed_in t) ∧ powered_off t = negb (failed_in t) ∧
    buffer_ok (buffer (heap p')) ∧ stdin p' = tail (stdin p) ∧
    (failed_in t = false →
       ∃ st, EvPowerOff drive_path st ∈ t ∧
             (st ≠ 0%Z → EvPrint MsgPowerOffFailed ∈ t)).
Proof.
  intros Hb. unfold unmount_drive.
  destruct (show_header_spec p) as (Hh & Hin & st0 & Ht0).
  set (p0 := show_header p) in *.
  cbn [world heap stdin trace print emit with_heap with_world].
  set (m1 := exec_cmd (world p0) (cmd_parts drive_path) (heap p0)).
  assert (buffer_ok (buffer m1)) as Hb1.
  { apply buffer_ok_exec_cmd. by rewrite Hh. }
  destruct (strtok (Some 0) m1) as [partition m2] eqn:Htok.
  apply strtok_spec in Htok as (Hb2 & Ho2 & _ & _); [|done|simpl; lia].
  match goal with |- context [unmount_loop BUFSZ partition false ?q] =>
    destruct (unmount_loop_spec BUFSZ partition false q)
      as (failed' & p1 & t1 & -> & Ht1 & Hfl & Hpo & Hin1 & Hbf); [done|done|simpl; lia|]
  end.
  simpl in Ht1, Hfl, Hin1. rewrite Ht0 in Ht1. rewrite Hin in Hin1.
  destruct failed'.
  - eexists _, _, _. split; [done|]. simpl. rewrite Ht1.
    split; [by rewrite <- !app_assoc|].
    rewrite !failed_in_app, !powered_off_app, <- Hfl, Hpo. simpl.
    split_and!; try done. by rewrite Hin1.
  - destruct (system_run (world p1) (cmd_poweroff drive_path)) as [ret w'].
    destruct (ret =? 0)%Z eqn:Hret;
      (eexists _, _, _; split; [done|]); simpl; rewrite Ht1.
    + split; [by rewrite <- !app_assoc|].
      rewrite !failed_in_app, !powered_off_app, <- Hfl, Hpo. simpl.
      split_and!; try done; [by rewrite Hin1|]. intros _. exists ret. split.
      * in_trace.
      * apply Z.eqb_eq in Hret. intros Hne. by destruct Hne.
    + split; [by rewrite <- !app_assoc|].
      rewrite !failed_in_app, !powered_off_app, <- Hfl, Hpo. simpl.
      split_and!; try done; [by rewrite Hin1|]. intros _. exists ret. split.
      * in_trace.
      * intros _. in_trace.
Qed.

(** C10: when no unmount of the attempt reported a failure, [unmount_drive]
    returns true whatever the status of the power-off command; a failed
    power-off only shows in the text that is printed. *)
Theorem poweroff_status_not_in_result drive_path (p : proc W) :
  buffer_ok (buffer (heap p)) →
  ∃ b p' t, unmount_drive drive_path p = Ok (b, p') ∧
    trace p' = trace p ++ t ∧
    ((∀ part st, EvUnmount part st ∈ t → st = 0%Z) →
       b = true ∧
       ∃ st, EvPowerOff drive_path st ∈ t ∧
             (st ≠ 0%Z → EvPrint MsgPowerOffFailed ∈ t)).
Proof.
  intros Hb.
  destruct (unmount_drive_spec drive_path p Hb)
    as (b & p' & t & Hrun & Ht & Hres & _ & _ & _ & Hpo).
  exists b, p', t. split_and!; [done|done|].
  intros Hnone. apply failed_in_false in Hnone.
  split; [by rewrite Hres, Hnone|]. by apply Hpo.
Qed.

End Eject.

(** ** The friendly name *)

(** C5, as the claim states it, fails for a vendor without a model: the code
    puts "Unknown Drive" in the place of the model. *)
Lemma friendly_name_vendor_only :
  friendly_name (cs "Seagate") [] = cs "Seagate Unknown Drive" ∧
  friendly_name (cs "Seagate") [] ≠ claimed_friendly_name (cs "Seagate") [].
Proof. split; [reflexivity|]. vm_compute. discriminate. Qed.

Lemma pos_length_false {A} (l : list A) : (0 <? length l) = false ↔ l = [].
Proof. destruct l; simpl; split; done. Qed.

(** C5 (amended): for a vendor and a model that fit their fields, the
    friendly name is "Unknown Drive" when both are empty, the model when only
    the vendor is empty, and otherwise the vendor, a space and the model,
    where an empty model reads "Unknown Drive"; the three sample names of the
    specification come out as it says. *)
Theorem friendly_name_cases (vendor model : list ascii)
    (Hv : length vendor ≤ 127) (Hm : length model ≤ 127) :
  friendly_name vendor model =
    (if decide (vendor = []) then
       if decide (model = []) then cs "Unknown Drive" else model
     else vendor ++ cs " " ++ (if decide (model = []) then cs "Unknown Drive" else model))
  ∧ friendly_name [] [] = cs "Unknown Drive"
  ∧ friendly_name (cs "Seagate") (cs "Desktop") = cs "Seagate Desktop"
  ∧ friendly_name [] (cs "X") = cs "X".
Proof.
  split; [|by vm_compute].
  unfold friendly_name, snprintf.
  destruct vendor as [|v vendor], model as [|c model]; cbn [length Nat.ltb Nat.leb orb];
    repeat case_decide; try done.
  - rewrite app_nil_l. apply take_ge. cbn [length] in *. lia.
  - apply take_ge. rewrite !length_app. cbn [length] in *.
    change (length (cs "Unknown Drive")) with 13. change (length (cs " ")) with 1. lia.
  - apply take_ge. rewrite !length_app. cbn [length] in *.
    change (length (cs " ")) with 1. lia.
Qed.

Lemma friendly_name_cases_witness :
  friendly_name (cs "SanDisk") (cs "Ultra") = cs "SanDisk Ultra".
Proof.
  destruct (friendly_name_cases (cs "SanDisk") (cs "Ultra")) as [Hn _].
  - vm_compute. lia.
  - vm_compute. lia.
  - rewrite Hn. reflexivity.
Defined.

(** ** [show_drives] only prints *)

Lemma display_only_app t1 t2 : display_only t1 → display_only t2 → display_only (t1 ++ t2).
Proof. unfold display_only. rewrite forallb_app. by intros -> ->. Qed.

Section Listing.
Context {W : Type} `{Host W}.

Lemma show_mounts_spec (mps : list (list ascii)) (p : proc W) :
  let p' := foldl (λ p mp, print (MsgMountPoint mp) p) p mps in
  world p' = world p ∧ heap p' = heap p ∧ stdin p' = stdin p ∧
  ∃ t, trace p' = trace p ++ t ∧ display_only t.
Proof.
  revert p. induction mps as [|mp mps IH]; intros p; simpl.
  - split_and!; try done. exists []. by rewrite app_nil_r.
  - destruct (IH (print (MsgMountPoint mp) p)) as (-> & -> & -> & t & -> & Ht).
    split_and!; try done. exists (EvPrint (MsgMountPoint mp) :: t). simpl.
    by rewrite <- app_assoc.
Qed.

Lemma show_drive_spec i d (p : proc W) :
  world (show_drive i d p) = world p ∧ heap (show_drive i d p) = heap p ∧
  stdin (show_drive i d p) = stdin p ∧
  ∃ t, trace (show_drive i d p) = trace p ++ t ∧ display_only t.
Proof.
  unfold show_drive. cbv zeta.
  match goal with |- context [if ?c then foldl ?f ?q ?l else _] =>
    destruct c; [destruct (show_mounts_spec l q) as (Hw & Hh & Hi & t & Ht & Hd)|]
  end; cbn [world heap stdin trace print emit] in *.
  - rewrite Hw, Hh, Hi, Ht. cbn [world heap stdin trace print emit].
    split_and!; [done|done|done|]. rewrite <- !app_assoc. eexists. split; [done|].
    apply (display_only_app [_; _; _; _; _]); [done|]. by apply display_only_app.
  - split_and!; [done|done|done|]. rewrite <- !app_assoc. eexists. split; done.
Qed.

Lemma show_each_spec i ds (p : proc W) :
  world (show_each i ds p) = world p ∧ heap (show_each i ds p) = heap p ∧
  stdin (show_each i ds p) = stdin p ∧
  ∃ t, trace (show_each i ds p) = trace p ++ t ∧ display_only t.
Proof.
  revert i p. induction ds as [|d ds IH]; intros i p; simpl.
  - split_and!; try done. exists []. by rewrite app_nil_r.
  - destruct (IH (S i) (show_drive i d p)) as (-> & -> & -> & t2 & -> & Ht2).
    destruct (show_drive_spec i d p) as (-> & -> & -> & t1 & -> & Ht1).
    split_and!; try done. exists (t1 ++ t2). rewrite <- app_assoc.
    split; [done|]. by apply display_only_app.
Qed.

Lemma show_drives_some drives count (p : proc W) :
  count ≠ 0 →
  ∃ p0 t, show_drives drives count p = Goes p0 ∧
    heap p0 = heap p ∧ stdin p0 = stdin p ∧
    trace p0 = trace p ++ t ∧ display_only t.
Proof.
  intros Hc. unfold show_drives.
  destruct (show_header_spec p) as (Hh & Hin & st & Ht).
  apply Nat.eqb_neq in Hc. rewrite Hc.
  destruct (show_each_spec 0 (take count drives)
              (print MsgRule (print MsgAvailable (show_header p))))
    as (Hw1 & Hh1 & Hin1 & t1 & Ht1 & Hd1).
  eexists _, _. split; [done|]. cbn [world heap stdin trace print emit].
  rewrite Hh1, Hin1, Ht1. cbn [world heap stdin trace print emit]. rewrite Ht.
  split_and!; [done|done| |].
  - by rewrite <- !app_assoc.
  - apply (display_only_app [_; _; _; _; _]); [done|]. by apply display_only_app.
Qed.

Lemma show_drives_none drives (p : proc W) :
  ∃ p' st, show_drives drives 0 p = Exits 1 p' ∧
    trace p' = trace p ++ [EvClear st; EvPrint MsgTitle; EvPrint MsgTagline;
                           EvPrint MsgNoDrives; EvPrint MsgPressEnterExit; EvGetchar].
Proof.
  unfold show_drives. destruct (show_header_spec p) as (Hh & Hin & st & Ht).
  eexists _, st. split; [done|]. cbn [world heap stdin trace print emit getchar].
  rewrite Ht. by rewrite <- !app_assoc.
Qed.

End Listing.

(** ** [main]: quitting, the empty catalog and invalid input *)

Lemma fgets_quit c rest :
  is_nl c = false → fgets 16 (c :: NL :: rest) = Some ([c; NL], rest).
Proof. intros Hc. unfold fgets. cbn. by rewrite Hc. Qed.

Section MainLoop.
Context {W : Type} `{Host W}.

Lemma main_loop_unfold n drives (p : proc W) :
  main_loop (S n) drives p =
  match main_step drives p with
  | Goes (drives', p') => main_loop n drives' p'
  | Exits c p' => Exits c p'
  | Faults => Faults
  | Stalls => Stalls
  end.
Proof. done. Qed.

(** C7: the process exits with status 0 when the operator answers "q" or
    "Q", and with status 1, after the prompt and the [getchar] that
    acknowledges it, when the catalog is empty. *)
Theorem main_exit_status n drives (p : proc W) count drives' m :
  get_drives (world p) drives MAX_DRIVES (heap p) = Ok (count, drives', m) →
  (count = 0 →
     ∃ p' t, main_loop (S n) drives p = Exits 1 p' ∧
       trace p' = trace p ++ t ++ [EvPrint MsgNoDrives; EvPrint MsgPressEnterExit; EvGetchar])
  ∧ (count ≠ 0 →
     ∀ c rest, c = "q"%char ∨ c = "Q"%char → stdin p = c :: NL :: rest →
       ∃ p', main_loop (S n) drives p = Exits 0 p').
Proof.
  intros Hget. split.
  - intros ->. rewrite main_loop_unfold. unfold main_step. rewrite Hget.
    destruct (show_drives_none drives' (with_heap m p)) as (p' & st & -> & Ht).
    exists p', [EvClear st; EvPrint MsgTitle; EvPrint MsgTagline].
    split; [done|]. rewrite Ht. done.
  - intros Hc c rest Hq Hin. rewrite main_loop_unfold. unfold main_step. rewrite Hget.
    destruct (show_drives_some drives' count (with_heap m p) Hc)
      as (p0 & t & -> & Hh & Hin0 & Ht & Hd).
    cbn [world heap stdin trace print emit show_menu]. rewrite Hin0.
    cbn [stdin with_heap]. rewrite Hin.
    rewrite fgets_quit by (by destruct Hq as [-> | ->]).
    assert (normalize [c; NL] = cs "q") as -> by (by destruct Hq as [-> | ->]).
    rewrite decide_True by done. eauto.
Qed.

(** C6 (amended): a line that is not "q" or "r" in lower case and whose
    [atoi] value is not between 1 and the drive count gets the warning and a
    pause of two seconds; nothing but output happens in that turn, and the
    loop starts its next turn, which builds the catalog again. *)
Theorem invalid_input_falls_through n drives (p : proc W) count drives' m line rest :
  get_drives (world p) drives MAX_DRIVES (heap p) = Ok (count, drives', m) →
  count ≠ 0 →
  fgets 16 (stdin p) = Some (line, rest) →
  normalize line ≠ cs "q" →
  normalize line ≠ cs "r" →
  ¬ (1 ≤ atoi (normalize line) ≤ Z.of_nat count)%Z →
  ∃ p' t, main_step drives p = Goes (drives', p') ∧
    trace p' = trace p ++ t ++ [EvPrint MsgInvalid; EvSleep 2] ∧
    display_only t ∧ stdin p' = rest ∧ heap p' = m ∧
    main_loop (S n) drives p = main_loop n drives' p'.
Proof.
  intros Hget Hc Hin Hq Hr Hrange.
  assert (∃ p' t, main_step drives p = Goes (drives', p') ∧
    trace p' = trace p ++ t ++ [EvPrint MsgInvalid; EvSleep 2] ∧
    display_only t ∧ stdin p' = rest ∧ heap p' = m) as (p' & t & Hstep & Hrest).
  { unfold main_step. rewrite Hget.
    destruct (show_drives_some drives' count (with_heap m p) Hc)
      as (p0 & t & -> & Hh & Hin0 & Ht & Hd).
    cbn [world heap stdin trace print emit show_menu]. rewrite Hin0.
    cbn [stdin with_heap]. rewrite Hin.
    rewrite decide_False by done. rewrite decide_False by done.
    destruct ((1 <=? atoi (normalize line)) && (atoi (normalize line) <=? Z.of_nat count))%Z eqn:E.
    { exfalso. apply Hrange. apply andb_true_iff in E as [E1 E2].
      apply Z.leb_le in E1, E2. done. }
    eexists _, (t ++ [EvPrint MsgOptions; EvPrint (MsgSelectRange count);
                      EvPrint MsgRefreshHint; EvPrint MsgQuitHint; EvPrint MsgPrompt]).
    split; [done|].
    cbn [world heap stdin trace print emit show_menu]. rewrite Ht, Hh.
    cbn [trace heap with_heap].
    split_and!; [by rewrite <- !app_assoc| |done|done].
    by apply display_only_app. }
  exists p', t. split; [done|]. split; [apply Hrest|].
  destruct Hrest as (_ & H1 & H2 & H3). split_and!; try done.
  rewrite main_loop_unfold, Hstep. done.
Qed.

End MainLoop.

(** ** Two buffers that agree on their live part *)

Lemma take_ext {A} n (l l' : list A) :
  (∀ j, j < n → l !! j = l' !! j) → take n l = take n l'.
Proof.
  intros Hj. apply list_eq. intros j.
  destruct (decide (j < n)).
  - rewrite !lookup_take_lt by done. by apply Hj.
  - rewrite !lookup_take_ge by lia. done.
Qed.

Lemma agree_lookup h b b' i : agree h b b' → i < h → b !! i = b' !! i.
Proof.
  intros (_ & Ht & _) Hi.
  rewrite <- (lookup_take_lt b h i), <- (lookup_take_lt b' h i) by done.
  by rewrite Ht.
Qed.

Lemma agree_peek h b b' i : agree h b b' → i < h → peek b i = peek b' i.
Proof. intros Ha Hi. unfold peek. by rewrite (agree_lookup h b b'). Qed.

Lemma agree_nul_r h b b' : agree h b b' → b' !! (h - 1) = Some NUL.
Proof.
  intros Ha. pose proof Ha as (_ & _ & Hpos & _ & Hz).
  rewrite <- (agree_lookup h b b') by (done || lia). done.
Qed.

Lemma span_in_prefix p b h i :
  stops p → h ≤ length b → b !! (h - 1) = Some NUL → i < h →
  span p (drop i b) = span p (drop i (take h b)).
Proof.
  intros Hs Hh Hz Hi.
  rewrite <- (take_drop h b) at 1.
  rewrite drop_app_le by (rewrite length_take; lia).
  apply span_app_stop with (h - 1 - i) NUL; [|done].
  rewrite lookup_drop, lookup_take_lt by lia.
  by replace (i + (h - 1 - i)) with (h - 1) by lia.
Qed.

Lemma agree_span p h b b' i :
  agree h b b' → stops p → i < h →
  span p (drop i b) = span p (drop i b') ∧ i + span p (drop i b) ≤ h - 1.
Proof.
  intros Ha Hs Hi. pose proof (agree_nul_r _ _ _ Ha) as Hz'.
  destruct Ha as (Hl & Ht & Hpos & Hh & Hz). split.
  - rewrite (span_in_prefix p b h i), (span_in_prefix p b' h i) by (done || lia).
    by rewrite Ht.
  - apply scan_bound; [done|done|lia].
Qed.

Lemma agree_cstr_at h b b' i : agree h b b' → i < h → cstr_at b i = cstr_at b' i.
Proof.
  intros Ha Hi. unfold cstr_at, strlen_at.
  destruct (agree_span not_nul h b b' i Ha stops_not_nul Hi) as [<- Hb].
  apply take_ext. intros j Hj. rewrite !lookup_drop.
  apply (agree_lookup h); [done|lia].
Qed.

Lemma agree_insert_nul h b b' i :
  agree h b b' → agree h (<[i := NUL]> b) (<[i := NUL]> b').
Proof.
  intros (Hl & Ht & Hpos & Hh & Hz). unfold agree. rewrite !length_insert.
  split_and!; try done.
  - destruct (decide (i < h)).
    + rewrite !take_insert_lt by done. by rewrite Ht.
    + rewrite !take_insert_ge by lia. done.
  - destruct (decide (i = h - 1)) as [->|].
    + apply list_lookup_insert_eq. lia.
    + by rewrite list_lookup_insert_ne.
Qed.

Lemma agree_blit h b b' d ys :
  agree h b b' → d ≤ h → d + S (length ys) ≤ length b →
  agree (h `max` (d + S (length ys))) (blit d (ys ++ [NUL]) b) (blit d (ys ++ [NUL]) b').
Proof.
  intros Ha Hd Hfit. pose proof Ha as (Hl & Ht & Hpos & Hh & Hz).
  assert (length (ys ++ [NUL]) = S (length ys)) as Hxs.
  { rewrite length_app. simpl. lia. }
  set (xs := ys ++ [NUL]) in *.
  unfold agree. rewrite !length_blit by lia.
  split_and!; [done| |lia|lia|].
  - apply take_ext. intros j Hj.
    destruct (decide (j < d)).
    { rewrite !lookup_blit_lt by lia. apply (agree_lookup h); [done|lia]. }
    destruct (decide (j < d + length xs)).
    { rewrite !lookup_blit_in by lia. done. }
    rewrite !lookup_blit_ge by lia. apply (agree_lookup h); [done|lia].
  - destruct (decide (h ≤ d + S (length ys))).
    + rewrite Nat.max_r by lia. rewrite lookup_blit_in by lia.
      unfold xs. rewrite lookup_app_r by lia.
      by replace (d + S (length ys) - 1 - d - length ys) with 0 by lia.
    + rewrite Nat.max_l by lia. rewrite lookup_blit_ge by lia. done.
Qed.

Lemma agree_strncat h b b' line :
  agree h b b' → buffer_ok b →
  ∃ h', h ≤ h' ∧
    agree h' (strncat b line (BUFSZ - strlen_at b 0 - 1))
             (strncat b' line (BUFSZ - strlen_at b' 0 - 1)).
Proof.
  intros Ha Hb. pose proof Ha as (Hl & Ht & Hpos & Hh & Hz).
  destruct (agree_span not_nul h b b' 0 Ha stops_not_nul Hpos) as [Hsp Hbd].
  rewrite !Nat.add_0_l in Hbd. unfold strncat, strlen_at in *. rewrite <- Hsp.
  set (d := span not_nul (drop 0 b)) in *.
  pose proof (strlen_bound b 0 Hb ltac:(lia)) as Hd. rewrite Nat.add_0_l in Hd.
  fold d in Hd. unfold strlen_at in Hd. fold d in Hd.
  destruct Hb as [Hlen _]. pose proof BUFSZ_pos.
  eexists. split; [|apply agree_blit; [done|lia|]].
  - apply Nat.le_max_l.
  - rewrite length_take. lia.
Qed.

Lemma agree_read_all fuel fp h b b' :
  agree h b b' → buffer_ok b → buffer_ok b' →
  ∃ h', h ≤ h' ∧ agree h' (read_all fuel fp b) (read_all fuel fp b').
Proof.
  revert fp h b b'. induction fuel as [|fuel IH]; intros fp h b b' Ha Hb Hb'; simpl.
  { exists h. done. }
  destruct (fgets MAX_LINE fp) as [[line fp']|]; [|by exists h].
  destruct (agree_strncat h b b' line Ha Hb) as (h1 & Hh1 & Ha1).
  destruct (IH fp' h1 _ _ Ha1) as (h2 & Hh2 & Ha2);
    [by apply buffer_ok_strncat|by apply buffer_ok_strncat|].
  exists h2. split; [lia|done].
Qed.

Lemma agree_strip_newline h b b' i :
  agree h b b' → i < h → agree h (strip_newline b i) (strip_newline b' i).
Proof.
  intros Ha Hi. unfold strip_newline, strcspn_nl.
  destruct (agree_span in_line h b b' i Ha stops_in_line Hi) as [<- Hbd].
  rewrite <- (agree_peek h b b') by (done || lia).
  destruct (is_nl _); [by apply agree_insert_nul|done].
Qed.

Lemma agree_strtok h str m m' r m1 r' m1' :
  agree h (buffer m) (buffer m') →
  buffer_ok (buffer m) → buffer_ok (buffer m') →
  default (olds m) str = default (olds m') str →
  default (olds m) str < h →
  strtok str m = (r, m1) → strtok str m' = (r', m1') →
  r = r' ∧ mem_agree h m1 m1' ∧ ∀ t, r = Some t → t < h.
Proof.
  intros Ha Hb Hb' Hs Hlt. unfold strtok. rewrite <- Hs.
  set (s := default (olds m) str) in *.
  set (b := buffer m) in *. set (b' := buffer m') in *.
  pose proof Ha as (Hl & Ht & Hpos & Hh & Hz).
  rewrite <- (agree_peek h b b' s) by done.
  destruct (is_nul (peek b s)) eqn:E0.
  { intros [= <- <-] [= <- <-]. unfold mem_agree. simpl. split_and!; done. }
  unfold strspn_nl.
  destruct (agree_span is_nl h b b' s Ha stops_is_nl Hlt) as [<- Hs1].
  set (s1 := s + span is_nl (drop s b)) in *.
  rewrite <- (agree_peek h b b' s1) by (done || lia).
  destruct (is_nul (peek b s1)) eqn:E1.
  { intros [= <- <-] [= <- <-]. unfold mem_agree. simpl. split_and!; try done. lia. }
  unfold strcspn_nl.
  destruct (agree_span in_line h b b' s1 Ha stops_in_line ltac:(lia)) as [<- He].
  set (e := s1 + span in_line (drop s1 b)) in *.
  rewrite <- (agree_peek h b b' e) by (done || lia).
  destruct (is_nul (peek b e)) eqn:E2.
  { intros [= <- <-] [= <- <-]. unfold mem_agree. simpl. split_and!; try done; try lia.
    intros t [= <-]. lia. }
  intros [= <- <-] [= <- <-]. unfold mem_agree. simpl.
  assert (e ≠ h - 1) as Hne.
  { intros Heq. rewrite Heq, (peek_lookup _ _ _ Hz) in E2. done. }
  split_and!; try done; try lia.
  - by apply agree_insert_nul.
  - by apply buffer_ok_insert_nul.
  - by apply buffer_ok_insert_nul.
  - intros t [= <-]. lia.
Qed.

Section AgreeExec.
Context {W : Type} `{Host W}.

(** After [exec_cmd] two buffers agree, whatever they held before. *)
Lemma agree_exec_cmd_fresh (w : W) cmd m m' :
  buffer_ok (buffer m) → buffer_ok (buffer m') →
  ∃ h, agree h (buffer (exec_cmd w cmd m)) (buffer (exec_cmd w cmd m')).
Proof.
  intros Hb Hb'. pose proof BUFSZ_pos as Hpos.
  assert (agree 1 (<[0 := NUL]> (buffer m)) (<[0 := NUL]> (buffer m'))) as Ha.
  { destruct Hb as [Hl _], Hb' as [Hl' _].
    unfold agree. rewrite !length_insert.
    split_and!; [lia| |lia|lia|].
    - apply take_ext. intros j Hj. assert (j = 0) as -> by lia.
      rewrite !list_lookup_insert_eq by lia. done.
    - apply list_lookup_insert_eq. lia. }
  unfold exec_cmd. destruct (popen_out w cmd) as [fp|]; simpl; [|by eauto].
  destruct (agree_read_all (length fp) fp 1 _ _ Ha) as (h & _ & Hh);
    [by apply buffer_ok_insert_nul|by apply buffer_ok_insert_nul|by eauto].
Qed.

(** [exec_cmd] keeps an agreement there is, and can only extend it. *)
Lemma agree_exec_cmd (w : W) cmd h m m' :
  agree h (buffer m) (buffer m') → buffer_ok (buffer m) → buffer_ok (buffer m') →
  ∃ h', h ≤ h' ∧ agree h' (buffer (exec_cmd w cmd m)) (buffer (exec_cmd w cmd m')).
Proof.
  intros Ha Hb Hb'.
  unfold exec_cmd. destruct (popen_out w cmd) as [fp|]; simpl.
  - apply agree_read_all; [by apply agree_insert_nul|by apply buffer_ok_insert_nul..].
  - exists h. split; [done|]. by apply agree_insert_nul.
Qed.

End AgreeExec.

(** ** Two runs of the catalog builder in lock step *)

Lemma same_or_kept_trans {A} (o o' a a' x x' : A) :
  same_or_kept o o' a a' → same_or_kept a a' x x' → same_or_kept o o' x x'.
Proof. unfold same_or_kept. intros [?|[? ?]] [?|[? ?]]; subst; auto. Qed.

Lemma info_rel_refl o o' : info_rel o o' o o'.
Proof. unfold info_rel, same_or_kept. split_and!; auto. Qed.

Lemma info_rel_trans o o' a a' x x' :
  info_rel o o' a a' → info_rel a a' x x' → info_rel o o' x x'.
Proof.
  intros (H1 & H2 & H3 & H4 & H5 & H6 & H7 & H8 & H9)
         (G1 & G2 & G3 & G4 & G5 & G6 & G7 & G8 & G9).
  unfold info_rel.
  split_and!; try (eapply same_or_kept_trans; eassumption); try congruence.
  intros j. eapply same_or_kept_trans; [apply H9|apply G9].
Qed.

(** A second run over the result of a first one changes nothing. *)
Lemma info_rel_fixpoint o a b : info_rel o a a b → b = a.
Proof.
  intros (H1 & H2 & H3 & H4 & H5 & H6 & H7 & H8 & H9).
  assert (∀ A (x y z : A), same_or_kept x y y z → z = y) as Hk.
  { intros A x y z [?|[? ?]]; congruence. }
  apply Hk in H1, H2, H3, H4, H5, H6.
  assert (mountpoints b = mountpoints a) as Hm.
  { apply list_eq. intros j. by apply (Hk _ (mountpoints o !! j)). }
  destruct a, b; simpl in *. congruence.
Qed.

Lemma info_rel_set_path v o o' a a' :
  info_rel o o' a a' → info_rel o o' (set_path v a) (set_path v a').
Proof. info_rel_step. Qed.
Lemma info_rel_set_size v o o' a a' :
  info_rel o o' a a' → info_rel o o' (set_size v a) (set_size v a').
Proof. info_rel_step. Qed.
Lemma info_rel_set_model v o o' a a' :
  info_rel o o' a a' → info_rel o o' (set_model v a) (set_model v a').
Proof. info_rel_step. Qed.
Lemma info_rel_set_vendor v o o' a a' :
  info_rel o o' a a' → info_rel o o' (set_vendor v a) (set_vendor v a').
Proof. info_rel_step. Qed.
Lemma info_rel_set_transport v o o' a a' :
  info_rel o o' a a' → info_rel o o' (set_transport v a) (set_transport v a').
Proof. info_rel_step. Qed.
Lemma info_rel_set_mount_count n o o' a a' :
  info_rel o o' a a' → info_rel o o' (set_mount_count n a) (set_mount_count n a').
Proof. info_rel_step. Qed.

Lemma info_rel_sscanf s o o' a a' :
  info_rel o o' a a' → info_rel o o' (sscanf_info s a) (sscanf_info s a').
Proof.
  intros Hr. unfold sscanf_info.
  destruct (scan_s 63 s) as [[t1 r1]|]; [|done].
  destruct (scan_s 127 r1) as [[t2 r2]|]; [|by apply info_rel_set_size].
  destruct (scan_s 127 r2) as [[t3 r3]|];
    [|by apply info_rel_set_model, info_rel_set_size].
  destruct (scan_s 31 r3) as [[t4 r4]|];
    [|by apply info_rel_set_vendor, info_rel_set_model, info_rel_set_size].
  by apply info_rel_set_transport, info_rel_set_vendor, info_rel_set_model,
    info_rel_set_size.
Qed.

Lemma info_rel_add_mountpoint v o o' a a' :
  length (mountpoints o) = length (mountpoints o') →
  mount_count a = mount_count a' →
  info_rel o o' a a' → info_rel o o' (add_mountpoint v a) (add_mountpoint v a').
Proof.
  intros Hlen Hc (H1 & H2 & H3 & H4 & H5 & H6 & H7 & H8 & H9).
  unfold info_rel. cbn [add_mountpoint path size model vendor transport mount_count mountpoints].
  rewrite !length_insert. rewrite <- Hc.
  split_and!; try done.
  - left. done.
  - intros j. destruct (decide (j = mount_count a)) as [->|Hne].
    + destruct (decide (mount_count a < length (mountpoints a))).
      * left. rewrite !list_lookup_insert_eq by lia. done.
      * rewrite !list_insert_ge by lia. apply H9.
    + rewrite !list_lookup_insert_ne by done. apply H9.
Qed.

Lemma mount_loop_lockstep fuel line o o' a a' m m' h :
  length (mountpoints o) = length (mountpoints o') →
  mem_agree h m m' → (∀ l, line = Some l → l < h) →
  mount_count a = mount_count a' → info_rel o o' a a' →
  result_rel (λ '(x, m1) '(x', m1'), info_rel o o' x x' ∧ mem_agree h m1 m1')
    (mount_loop fuel line a m) (mount_loop fuel line a' m').
Proof.
  intros Hlen. revert line a a' m m'.
  induction fuel as [|fuel IH]; intros line a a' m m' Hm Hl Hc Hr;
    rewrite !mount_loop_unfold; rewrite <- Hc.
  - destruct line as [l|]; [case_decide|]; simpl; done.
  - destruct line as [l|]; [case_decide|]; simpl; try done.
    destruct Hm as (Ho & Holt & Ha & Hb & Hb').
    destruct (strtok None m) as [line1 m1] eqn:Htok.
    destruct (strtok None m') as [line1' m1'] eqn:Htok'.
    destruct (agree_strtok h None m m' _ _ _ _ Ha Hb Hb' Ho Holt Htok Htok')
      as (<- & Hm1 & Hl1).
    specialize (Hl l eq_refl).
    rewrite <- (agree_peek h (buffer m) (buffer m') l) by done.
    rewrite <- (agree_cstr_at h (buffer m) (buffer m') l) by done.
    apply IH; [done|done| |].
    + destruct (Ascii.eqb _ _); simpl; congruence.
    + destruct (Ascii.eqb _ _); [by apply info_rel_add_mountpoint|done].
Qed.

Section Lockstep.
Context {W : Type} `{Host W}.

Lemma get_drive_info_lockstep (w : W) drive o o' m m' h :
  length (mountpoints o) = length (mountpoints o') →
  agree h (buffer m) (buffer m') →
  buffer_ok (buffer m) → buffer_ok (buffer m') → drive < h →
  result_rel (λ '(x, m1) '(x', m1'), info_rel o o' x x' ∧ ∃ h', mem_agree h' m1 m1')
    (get_drive_info w drive o m) (get_drive_info w drive o' m').
Proof.
  intros Hlen Ha Hb Hb' Hd. unfold get_drive_info.
  rewrite <- (agree_cstr_at h (buffer m) (buffer m') drive) by done.
  set (p := cstr_at (buffer m) drive).
  case_decide; [|done]. cbv zeta.
  destruct (agree_exec_cmd w (cmd_detail p) h m m' Ha Hb Hb') as (h1 & Hh1 & Ha1).
  set (m1 := exec_cmd w (cmd_detail p) m) in *.
  set (m1' := exec_cmd w (cmd_detail p) m') in *.
  assert (buffer_ok (buffer m1)) as Hb1 by (by apply buffer_ok_exec_cmd).
  assert (buffer_ok (buffer m1')) as Hb1' by (by apply buffer_ok_exec_cmd).
  rewrite <- (agree_cstr_at h1 (buffer m1) (buffer m1') 0) by (done || lia).
  rewrite <- (agree_cstr_at h1 (buffer m1) (buffer m1') drive) by (done || lia).
  set (arg := cstr_at (buffer m1) drive).
  destruct (agree_exec_cmd w (cmd_mount arg) h1 m1 m1' Ha1 Hb1 Hb1') as (h2 & Hh2 & Ha2).
  set (m2 := exec_cmd w (cmd_mount arg) m1) in *.
  set (m2' := exec_cmd w (cmd_mount arg) m1') in *.
  assert (buffer_ok (buffer m2)) as Hb2 by (by apply buffer_ok_exec_cmd).
  assert (buffer_ok (buffer m2')) as Hb2' by (by apply buffer_ok_exec_cmd).
  destruct (strtok (Some 0) m2) as [line m3] eqn:Htok.
  destruct (strtok (Some 0) m2') as [line' m3'] eqn:Htok'.
  destruct (agree_strtok h2 (Some 0) m2 m2' _ _ _ _ Ha2 Hb2 Hb2' eq_refl
              ltac:(simpl; lia) Htok Htok') as (<- & Hm3 & Hl3).
  pose proof (mount_loop_lockstep BUFSZ line o o'
    (sscanf_info (cstr_at (buffer m1) 0) (set_mount_count 0 (set_path p o)))
    (sscanf_info (cstr_at (buffer m1) 0) (set_mount_count 0 (set_path p o')))
    m3 m3' h2 Hlen Hm3 Hl3) as Hloop.
  unfold result_rel in *.
  destruct (mount_loop _ _ _ m3) as [[x mx]| |], (mount_loop _ _ _ m3') as [[x' mx']| |];
    try (apply Hloop; [by rewrite !(proj1 (proj2 (sscanf_info_fixed _ _)))|
      by apply info_rel_sscanf, info_rel_set_mount_count, info_rel_set_path, info_rel_refl]).
  destruct Hloop as [Hr Hm];
    [by rewrite !(proj1 (proj2 (sscanf_info_fixed _ _)))|
     by apply info_rel_sscanf, info_rel_set_mount_count, info_rel_set_path, info_rel_refl|].
  split; [done|by exists h2].
Qed.

End Lockstep.

Lemma arr_rel_refl O O' : arr_rel O O' O O'.
Proof.
  split_and!; [done|done|]. intros i o o' a a' ? ? ? ?. simplify_eq.
  apply info_rel_refl.
Qed.

Lemma arr_rel_fixpoint O A B : arr_rel O A A B → B = A.
Proof.
  intros (Hl1 & Hl2 & Hr). apply list_eq. intros i.
  destruct (A !! i) as [a|] eqn:Ha.
  - destruct (lookup_lt_is_Some_2 O i) as [o Ho].
    { rewrite <- Hl1. by eapply lookup_lt_Some. }
    destruct (lookup_lt_is_Some_2 B i) as [b Hb].
    { rewrite Hl2. by eapply lookup_lt_Some. }
    rewrite Hb. f_equal. eapply info_rel_fixpoint, Hr; eauto.
  - apply lookup_ge_None. rewrite Hl2. by apply lookup_ge_None.
Qed.

Lemma arr_rel_slots O A : arr_rel O O A A → slots_match O A.
Proof.
  intros (Hl1 & _ & Hr). split; [done|].
  intros i o a Ho Ha.
  destruct (Hr i o o a a Ho Ho Ha Ha) as (_ & _ & _ & _ & _ & _ & Hlen & _). done.
Qed.

Section CatalogTwice.
Context {W : Type} `{Host W}.

Lemma drives_loop_lockstep (w : W) k line count O O' A A' m m' h :
  slots_match O O' → arr_rel O O' A A' → mem_agree h m m' →
  (∀ l, line = Some l → l < h) →
  result_rel (λ '(c, X, m1) '(c', X', m1'),
      c = c' ∧ arr_rel O O' X X' ∧ ∃ h', mem_agree h' m1 m1')
    (drives_loop w k line count A m) (drives_loop w k line count A' m').
Proof.
  intros Hs. revert line count A A' m m' h.
  induction k as [|k IH]; intros line count A A' m m' h Hr Hm Hl; simpl.
  { destruct line; simpl; split_and!; eauto. }
  destruct line as [l|]; simpl; [|split_and!; by eauto].
  pose proof Hr as (HlA & HlA' & Hrel). destruct Hs as [HlO Hslots].
  destruct (A !! count) as [a|] eqn:Ha.
  2: { apply lookup_ge_None in Ha.
       rewrite (lookup_ge_None_2 A' count) by lia. done. }
  destruct (lookup_lt_is_Some_2 A' count) as [a' Ha'].
  { apply lookup_lt_Some in Ha. lia. }
  destruct (lookup_lt_is_Some_2 O count) as [o Ho].
  { apply lookup_lt_Some in Ha. lia. }
  destruct (lookup_lt_is_Some_2 O' count) as [o' Ho'].
  { apply lookup_lt_Some in Ha. lia. }
  rewrite Ha'.
  pose proof (Hrel count o o' a a' Ho Ho' Ha Ha') as Hinfo.
  assert (length (mountpoints a) = length (mountpoints a')) as Hlen.
  { destruct Hinfo as (_ & _ & _ & _ & _ & _ & -> & -> & _). eauto. }
  destruct Hm as (Ho1 & Holt & Hag & Hb & Hb').
  pose proof (get_drive_info_lockstep w l a a' m m' h Hlen Hag Hb Hb' (Hl l eq_refl))
    as Hstep.
  unfold result_rel in Hstep.
  destruct (get_drive_info w l a m) as [[x m1]| |],
           (get_drive_info w l a' m') as [[x' m1']| |]; try done.
  destruct Hstep as (Hx & h1 & Ho2 & Holt2 & Hag2 & Hb2 & Hb2').
  destruct (strtok None m1) as [line2 m2] eqn:Htok.
  destruct (strtok None m1') as [line2' m2'] eqn:Htok'.
  destruct (agree_strtok h1 None m1 m1' _ _ _ _ Hag2 Hb2 Hb2' Ho2 Holt2 Htok Htok')
    as (<- & Hm2 & Hl2).
  apply (IH _ _ _ _ _ _ h1); [|done|done].
  split_and!; [by rewrite length_insert|by rewrite length_insert|].
  intros i u u' v v' Hu Hu' Hv Hv'.
  destruct (decide (i = count)) as [->|Hne].
  - rewrite list_lookup_insert_eq in Hv by (by eapply lookup_lt_Some).
    rewrite list_lookup_insert_eq in Hv' by (by eapply lookup_lt_Some).
    simplify_eq. by eapply info_rel_trans.
  - rewrite list_lookup_insert_ne in Hv by done.
    rewrite list_lookup_insert_ne in Hv' by done. eauto.
Qed.

Lemma get_drives_lockstep (w : W) O O' max_drives m m' :
  slots_match O O' → buffer_ok (buffer m) → buffer_ok (buffer m') →
  result_rel (λ '(c, X, m1) '(c', X', m1'),
      c = c' ∧ arr_rel O O' X X' ∧ ∃ h', mem_agree h' m1 m1')
    (get_drives w O max_drives m) (get_drives w O' max_drives m').
Proof.
  intros Hs Hb Hb'. unfold get_drives, get_root_drive.
  destruct (agree_exec_cmd_fresh w cmd_root m m' Hb Hb') as (h0 & Ha0).
  set (m0 := exec_cmd w cmd_root m) in *.
  set (m0' := exec_cmd w cmd_root m') in *.
  assert (0 < h0) as Hpos by (by destruct Ha0 as (_ & _ & ? & _)).
  pose proof (agree_strip_newline h0 _ _ 0 Ha0 Hpos) as Ha1.
  set (b := strip_newline (buffer m0) 0) in *.
  set (b' := strip_newline (buffer m0') 0) in *.
  assert (buffer_ok b) as Hb1 by (by apply buffer_ok_strip_newline, buffer_ok_exec_cmd).
  assert (buffer_ok b') as Hb1' by (by apply buffer_ok_strip_newline, buffer_ok_exec_cmd).
  rewrite <- (agree_cstr_at h0 b b' 0) by done.
  set (root_drive := take (64 - 1) (cstr_at b 0)).
  destruct (agree_exec_cmd w (cmd_list root_drive) h0 (Mem b (olds m0)) (Mem b' (olds m0'))
              Ha1 Hb1 Hb1') as (h2 & Hh2 & Ha2).
  set (m2 := exec_cmd w (cmd_list root_drive) (Mem b (olds m0))) in *.
  set (m2' := exec_cmd w (cmd_list root_drive) (Mem b' (olds m0'))) in *.
  assert (buffer_ok (buffer m2)) as Hb2 by (by apply buffer_ok_exec_cmd).
  assert (buffer_ok (buffer m2')) as Hb2' by (by apply buffer_ok_exec_cmd).
  destruct (strtok (Some 0) m2) as [line m3] eqn:Htok.
  destruct (strtok (Some 0) m2') as [line' m3'] eqn:Htok'.
  destruct (agree_strtok h2 (Some 0) m2 m2' _ _ _ _ Ha2 Hb2 Hb2' eq_refl
              ltac:(simpl; lia) Htok Htok') as (<- & Hm3 & Hl3).
  apply (drives_loop_lockstep w max_drives line 0 O O' O O' m3 m3' h2);
    [done|apply arr_rel_refl|done|done].
Qed.

(** C8: a second run of the catalog builder in the same world, on the array
    and the static storage the first run left, gives the same count and the
    same records, field by field and in the same order. *)
Theorem get_drives_idempotent (w : W) drives m count drives' m' :
  buffer_ok (buffer m) →
  get_drives w drives MAX_DRIVES m = Ok (count, drives', m') →
  ∃ m'', get_drives w drives' MAX_DRIVES m' = Ok (count, drives', m'').
Proof.
  intros Hb Hget.
  assert (slots_match drives drives) as Hself.
  { split; [done|]. intros i o o' ? ?. by simplify_eq. }
  pose proof (get_drives_lockstep w drives drives MAX_DRIVES m m Hself Hb Hb) as H1.
  rewrite Hget in H1. simpl in H1.
  destruct H1 as (_ & Harr & h' & _ & _ & _ & Hb' & _).
  pose proof (get_drives_lockstep w drives drives' MAX_DRIVES m m'
                (arr_rel_slots _ _ Harr) Hb Hb') as H2.
  rewrite Hget in H2. unfold result_rel in H2.
  destruct (get_drives w drives' MAX_DRIVES m') as [[[c2 X2] m2]| |]; try done.
  destruct H2 as (<- & Hfix & _).
  apply arr_rel_fixpoint in Hfix as ->. eauto.
Qed.

End CatalogTwice.

(** ** What [exec_cmd] stores and what it leaves *)

Lemma span_app_all p l1 l2 :
  forallb p l1 = true → span p (l1 ++ l2) = length l1 + span p l2.
Proof.
  induction l1 as [|x l1 IH]; simpl; [done|].
  intros [-> Hl]%andb_true_iff. by rewrite IH.
Qed.

Lemma span_take_all p l : forallb p (take (span p l) l) = true.
Proof.
  induction l as [|x l IH]; simpl; [done|].
  destruct (p x) eqn:E; simpl; [|done]. by rewrite E, IH.
Qed.

Lemma forallb_take p n (l : list ascii) : forallb p l = true → forallb p (take n l) = true.
Proof.
  revert n. induction l as [|x l IH]; intros [|n]; simpl; try done.
  intros [-> Hl]%andb_true_iff. by apply IH.
Qed.

Lemma span_all p l : forallb p l = true → span p l = length l.
Proof.
  intros Hl. rewrite <- (app_nil_r l) at 1. rewrite span_app_all by done. simpl. lia.
Qed.

Lemma cstr_no_nul l : forallb not_nul l = true → cstr l = l.
Proof. intros Hl. unfold cstr. rewrite span_all by done. apply take_ge. lia. Qed.

Lemma cstr_at_0 b : cstr_at b 0 = take (strlen_at b 0) b.
Proof. unfold cstr_at. by rewrite drop_0. Qed.

Lemma strlen_at_0 b : strlen_at b 0 = span not_nul b.
Proof. unfold strlen_at. by rewrite drop_0. Qed.

(** [strncat] appends: the string grows by the bytes taken from [src], and
    nothing behind its new terminator is touched. *)
Lemma strncat_spec b src n :
  strlen_at b 0 + n + 1 ≤ length b →
  let ys := take n (cstr src) in
  strlen_at (strncat b src n) 0 = strlen_at b 0 + length ys ∧
  cstr_at (strncat b src n) 0 = cstr_at b 0 ++ ys ∧
  ∀ i, strlen_at b 0 + length ys < i → strncat b src n !! i = b !! i.
Proof.
  intros Hfit ys. unfold strncat. fold ys.
  rewrite !cstr_at_0, !strlen_at_0 in *.
  set (d := span not_nul b) in *.
  assert (length ys ≤ n) as Hys by (unfold ys; rewrite length_take; lia).
  assert (forallb not_nul ys = true) as Hnn.
  { unfold ys, cstr. apply forallb_take, span_take_all. }
  assert (span not_nul (blit d (ys ++ [NUL]) b) = d + length ys) as Hlen.
  { unfold blit. rewrite span_app_all by apply span_take_all.
    rewrite length_take, Nat.min_l by lia.
    rewrite <- !app_assoc. rewrite span_app_all by done. simpl. lia. }
  split_and!; [done| |].
  - rewrite Hlen. unfold blit.
    rewrite take_app_ge by (rewrite length_take; lia).
    rewrite length_take, Nat.min_l by lia.
    f_equal. replace (d + length ys - d) with (length ys) by lia.
    rewrite <- app_assoc. by rewrite take_app_length.
  - intros i Hi. rewrite lookup_blit_ge; [done|lia|].
    rewrite length_app. simpl. lia.
Qed.

Lemma fgets_aux_split k fp l r :
  fgets_aux k fp = (l, r) → l ++ r = fp ∧ (0 < k → fp ≠ [] → l ≠ []).
Proof.
  revert fp l r. induction k as [|k IH]; intros fp l r; simpl.
  { destruct fp; intros [= <- <-]; split; try done; lia. }
  destruct fp as [|c fp]; [intros [= <- <-]; done|].
  destruct (is_nl c).
  { intros [= <- <-]. done. }
  destruct (fgets_aux k fp) as [l1 r1] eqn:E. intros [= <- <-].
  destruct (IH _ _ _ E) as [<- _]. done.
Qed.

Lemma read_all_tail fuel fp b :
  buffer_ok b →
  strlen_at b 0 ≤ strlen_at (read_all fuel fp b) 0 ∧
  ∀ i, strlen_at (read_all fuel fp b) 0 < i → read_all fuel fp b !! i = b !! i.
Proof.
  revert fp b. induction fuel as [|fuel IH]; intros fp b Hb; simpl; [done|].
  destruct (fgets MAX_LINE fp) as [[line fp']|]; [|done].
  pose proof (strlen_bound b 0 Hb ltac:(lia)) as Hd. rewrite Nat.add_0_l in Hd.
  pose proof BUFSZ_pos. destruct (Hb) as [Hlen _].
  destruct (strncat_spec b line (BUFSZ - strlen_at b 0 - 1)) as (Hs & _ & Ht); [lia|].
  destruct (IH fp' _ (buffer_ok_strncat b line Hb)) as [Hmono Htail].
  split; [lia|]. intros i Hi. rewrite Htail by done. apply Ht. lia.
Qed.

Lemma read_all_cstr fuel fp b :
  buffer_ok b → forallb not_nul fp = true →
  strlen_at b 0 + length fp < BUFSZ → length fp ≤ fuel →
  cstr_at (read_all fuel fp b) 0 = cstr_at b 0 ++ fp.
Proof.
  revert fp b. induction fuel as [|fuel IH]; intros fp b Hb Hnn Hfit Hfuel.
  { destruct fp; simpl in *; [by rewrite app_nil_r|lia]. }
  simpl. unfold fgets. destruct fp as [|c fp]; [by rewrite app_nil_r|].
  destruct (fgets_aux (MAX_LINE - 1) (c :: fp)) as [line fp'] eqn:E.
  destruct (fgets_aux_split _ _ _ _ E) as [Hsplit Hne].
  specialize (Hne ltac:(pose proof MAX_LINE_gt; lia) ltac:(done)).
  assert (forallb not_nul line = true ∧ forallb not_nul fp' = true) as [Hl Hr].
  { rewrite <- Hsplit, forallb_app in Hnn. by apply andb_true_iff. }
  assert (length line + length fp' = length (c :: fp)) as Hlen.
  { by rewrite <- Hsplit, length_app. }
  assert (0 < length line) by (destruct line; simpl; [done|lia]).
  destruct (Hb) as [Hbl _].
  destruct (strncat_spec b line (BUFSZ - strlen_at b 0 - 1)) as (Hs & Hc & _); [lia|].
  rewrite cstr_no_nul in Hs, Hc by done.
  rewrite take_ge in Hs, Hc by lia.
  rewrite IH; [|by apply buffer_ok_strncat|done|lia|lia].
  by rewrite Hc, <- app_assoc, Hsplit.
Qed.

Section ExecFacts.
Context {W : Type} `{Host W}.

(** The bytes behind the terminator of the new string are the old ones. *)
Lemma exec_cmd_tail (w : W) cmd m i :
  buffer_ok (buffer m) →
  strlen_at (buffer (exec_cmd w cmd m)) 0 < i →
  buffer (exec_cmd w cmd m) !! i = buffer m !! i.
Proof.
  intros Hb. unfold exec_cmd. destruct (popen_out w cmd) as [fp|]; simpl.
  - intros Hi.
    destruct (read_all_tail (length fp) fp _ (buffer_ok_insert_nul _ 0 Hb)) as [_ Ht].
    rewrite Ht by done. apply list_lookup_insert_ne. lia.
  - intros Hi. apply list_lookup_insert_ne. lia.
Qed.

(** The string at the start of the buffer is the output of the command,
    whatever the buffer held. *)
Lemma exec_cmd_result (w : W) cmd m out :
  buffer_ok (buffer m) → popen_out w cmd = Some out →
  forallb not_nul out = true → length out < BUFSZ →
  cstr_at (buffer (exec_cmd w cmd m)) 0 = out.
Proof.
  intros Hb Hout Hnn Hlen. unfold exec_cmd. rewrite Hout. simpl.
  assert (strlen_at (<[0 := NUL]> (buffer m)) 0 = 0) as H0.
  { rewrite strlen_at_0. destruct (buffer m); done. }
  rewrite read_all_cstr; [|by apply buffer_ok_insert_nul|done|lia|done].
  by rewrite cstr_at_0, H0, take_0.
Qed.

End ExecFacts.

(** ** A buffer that holds a string, possibly cut into tokens *)

Lemma overlay_fresh b : buffer_ok b → overlay (cstr_at b 0) b.
Proof.
  intros Hb. pose proof (strlen_bound b 0 Hb ltac:(lia)) as Hd.
  rewrite Nat.add_0_l in Hd. destruct (Hb) as [Hlen _]. pose proof BUFSZ_pos.
  assert (length (cstr_at b 0) = strlen_at b 0) as Hl.
  { rewrite cstr_at_0, length_take. lia. }
  unfold overlay. rewrite Hl. split.
  - destruct (lookup_lt_is_Some_2 b (strlen_at b 0)) as [c Hc]; [lia|].
    rewrite Hc. f_equal. apply is_nul_true.
    pose proof (scan_stop not_nul b 0 stops_not_nul) as Hs.
    rewrite Nat.add_0_l in Hs. fold (strlen_at b 0) in Hs.
    rewrite (peek_lookup _ _ _ Hc) in Hs. unfold not_nul in Hs.
    by apply negb_false_iff in Hs.
  - intros i c Hi Hc _. rewrite cstr_at_0. by rewrite lookup_take_lt.
Qed.

Lemma overlay_insert_nul M b i : overlay M b → overlay M (<[i := NUL]> b).
Proof.
  intros [Hz Hin]. split.
  - destruct (decide (i = length M)) as [->|].
    + apply list_lookup_insert_eq. by eapply lookup_lt_Some.
    + by rewrite list_lookup_insert_ne.
  - intros j c Hj Hc Hne. destruct (decide (i = j)) as [->|].
    + pose proof (lookup_lt_Some _ _ _ Hc) as Hlt. rewrite length_insert in Hlt.
      rewrite list_lookup_insert_eq in Hc by done. congruence.
    + rewrite list_lookup_insert_ne in Hc by done. eauto.
Qed.

Lemma overlay_strip_newline M b i : overlay M b → overlay M (strip_newline b i).
Proof.
  intros Ho. unfold strip_newline. destruct (is_nl _); [by apply overlay_insert_nul|done].
Qed.

Lemma overlay_strtok M str m r m' :
  overlay M (buffer m) → default (olds m) str ≤ length M →
  strtok str m = (r, m') →
  overlay M (buffer m') ∧ olds m' ≤ length M ∧ ∀ t, r = Some t → t ≤ length M.
Proof.
  intros Ho Hs Htok. pose proof Ho as [Hz _].
  destruct (strtok_bound _ _ _ _ _ Hz Hs Htok) as (H1 & H2 & H3 & H4).
  split_and!; [|done|].
  - destruct H4 as [->|[e ->]]; [done|by apply overlay_insert_nul].
  - intros t Ht. destruct (H3 t Ht). lia.
Qed.

(** A C string read below the terminator of an overlay is a part of the
    string the overlay holds. *)
Lemma overlay_cstr_at M b t :
  overlay M b → t ≤ length M → segment M t (cstr_at b t).
Proof.
  intros [Hz Hin] Ht. unfold cstr_at, strlen_at.
  pose proof (scan_bound not_nul b t _ stops_not_nul Hz Ht) as Hbd.
  set (n := span not_nul (drop t b)) in *.
  assert (length b > length M) as Hlb by (by eapply lookup_lt_Some).
  assert (length (take n (drop t b)) = n) as Hlen.
  { rewrite length_take, length_drop. lia. }
  unfold segment. rewrite Hlen. split; [lia|].
  apply take_ext. intros j Hj. rewrite !lookup_drop.
  destruct (lookup_lt_is_Some_2 b (t + j)) as [c Hc]; [lia|].
  rewrite Hc. apply Hin; [lia|done|].
  pose proof (scan_inside not_nul b t j Hj) as Hp.
  rewrite (peek_lookup _ _ _ Hc) in Hp. unfold not_nul in Hp.
  apply negb_true_iff in Hp. by apply is_nul_false.
Qed.

Lemma mount_loop_overlay M fuel line info m info' m' :
  overlay M (buffer m) → olds m ≤ length M →
  mount_loop fuel line info m = Ok (info', m') →
  overlay M (buffer m') ∧ olds m' ≤ length M.
Proof.
  revert line info m. induction fuel as [|fuel IH]; intros line info m Ho Hs;
    rewrite mount_loop_unfold.
  - destruct line as [l|]; [case_decide; [done|]|]; intros [= <- <-]; done.
  - destruct line as [l|]; [case_decide|]; try (intros [= <- <-]; done).
    cbv zeta. destruct (strtok None m) as [line' m1] eqn:Htok.
    apply overlay_strtok with (M := M) in Htok as (Ho1 & Hs1 & _); [|done|done].
    by apply IH.
Qed.

(** ** Scanning from an offset only sees what lies behind it *)

Lemma drop_from s i (b : list ascii) : s ≤ i → drop i b = drop (i - s) (drop s b).
Proof. intros Hi. rewrite drop_drop. f_equal. lia. Qed.

Lemma suffix_peek s (b b' : list ascii) i : drop s b = drop s b' → s ≤ i → peek b i = peek b' i.
Proof.
  intros Hd Hi. unfold peek.
  replace i with (s + (i - s)) by lia. by rewrite <- !lookup_drop, Hd.
Qed.

Lemma suffix_drop s (b b' : list ascii) i : drop s b = drop s b' → s ≤ i → drop i b = drop i b'.
Proof. intros Hd Hi. by rewrite (drop_from s i b), (drop_from s i b'), Hd. Qed.

Lemma suffix_cstr_at s (b b' : list ascii) i : drop s b = drop s b' → s ≤ i → cstr_at b i = cstr_at b' i.
Proof. intros Hd Hi. unfold cstr_at, strlen_at. by rewrite (suffix_drop s b b' i). Qed.

Lemma suffix_insert s (b b' : list ascii) e x :
  length b = length b' → drop s b = drop s b' → s ≤ e →
  drop s (<[e := x]> b) = drop s (<[e := x]> b').
Proof.
  intros Hl Hd He. apply list_eq. intros j. rewrite !lookup_drop.
  destruct (decide (e = s + j)) as [->|Hne].
  - destruct (decide (s + j < length b)).
    + rewrite !list_lookup_insert_eq by lia. done.
    + rewrite !list_insert_ge by lia. by rewrite <- !lookup_drop, Hd.
  - rewrite !list_lookup_insert_ne by done. by rewrite <- !lookup_drop, Hd.
Qed.

Lemma suffix_insert_below s (b : list ascii) e x : e < s → drop s (<[e := x]> b) = drop s b.
Proof.
  intros He. apply list_eq. intros j. rewrite !lookup_drop.
  apply list_lookup_insert_ne. lia.
Qed.

(** [strtok(NULL, ...)] on two buffers that are the same from the saved
    pointer on. *)
Lemma suffix_strtok m m' r m1 r' m1' :
  length (buffer m) = length (buffer m') → olds m = olds m' →
  drop (olds m) (buffer m) = drop (olds m) (buffer m') →
  strtok None m = (r, m1) → strtok None m' = (r', m1') →
  r = r' ∧ olds m1 = olds m1' ∧
  ∀ t, r = Some t → cstr_at (buffer m1) t = cstr_at (buffer m1') t.
Proof.
  intros Hl Ho Hd. unfold strtok. simpl. rewrite <- Ho.
  set (s := olds m) in *. set (b := buffer m) in *. set (b' := buffer m') in *.
  rewrite <- (suffix_peek s b b' s) by done.
  destruct (is_nul (peek b s)) eqn:E0.
  { intros [= <- <-] [= <- <-]. done. }
  unfold strspn_nl. rewrite <- Hd.
  set (s1 := s + span is_nl (drop s b)) in *.
  rewrite <- (suffix_peek s b b' s1) by (done || lia).
  destruct (is_nul (peek b s1)) eqn:E1.
  { intros [= <- <-] [= <- <-]. done. }
  unfold strcspn_nl. rewrite <- (suffix_drop s b b' s1) by (done || lia).
  set (e := s1 + span in_line (drop s1 b)) in *.
  rewrite <- (suffix_peek s b b' e) by (done || lia).
  destruct (is_nul (peek b e)) eqn:E2.
  { intros [= <- <-] [= <- <-]. simpl. split_and!; [done|done|].
    intros t [= <-]. apply (suffix_cstr_at s); [done|lia]. }
  intros [= <- <-] [= <- <-]. simpl. split_and!; [done|done|].
  intros t [= <-]. apply (suffix_cstr_at s); [|lia].
  apply suffix_insert; [done|done|lia].
Qed.

(** ** Where the loops read their next item *)

Section NextItem.
Context {W : Type} `{Host W}.

(** In [get_drives]: the line the loop gets after a device is a part of the
    output of the mount-point query [get_drive_info] made last. *)
Lemma next_device_from_mount_output (w : W) drive info m info' m' t m'' :
  buffer_ok (buffer m) →
  get_drive_info w drive info m = Ok (info', m') →
  strtok None m' = (Some t, m'') →
  let m1 := exec_cmd w (cmd_detail (cstr_at (buffer m) drive)) m in
  let M := cstr_at (buffer (exec_cmd w (cmd_mount (cstr_at (buffer m1) drive)) m1)) 0 in
  segment M t (cstr_at (buffer m'') t).
Proof.
  intros Hb. unfold get_drive_info. case_decide; [|done]. cbv zeta.
  set (m1 := exec_cmd w (cmd_detail _) m).
  set (m2 := exec_cmd w (cmd_mount _) m1).
  set (M := cstr_at (buffer m2) 0).
  assert (overlay M (buffer m2)) as Ho.
  { apply overlay_fresh. by do 2 apply buffer_ok_exec_cmd. }
  destruct (strtok (Some 0) m2) as [line m3] eqn:Htok.
  apply overlay_strtok with (M := M) in Htok as (Ho3 & Hs3 & _); [|done|simpl; lia].
  intros Hloop Hnext.
  apply mount_loop_overlay with (M := M) in Hloop as (Ho4 & Hs4); [|done|done].
  apply overlay_strtok with (M := M) in Hnext as (Ho5 & _ & Ht); [|done|done].
  apply overlay_cstr_at; [done|]. by apply Ht.
Qed.

(** In [unmount_drive], when the output of the mount-point query reaches the
    saved pointer: the next partition name is a part of that output. *)
Lemma next_partition_from_mount_output partition failed (p : proc W) t failed' p' :
  buffer_ok (buffer (heap p)) →
  unmount_step partition failed p = (Some t, failed', p') →
  let part_path := snprintf MAX_PATH (cs "/dev/" ++ cstr_at (buffer (heap p)) partition) in
  let M := cstr_at (buffer (exec_cmd (world p) (cmd_mount part_path) (heap p))) 0 in
  olds (heap p) ≤ length M →
  segment M t (cstr_at (buffer (heap p')) t).
Proof.
  intros Hb Hstep part_path M Hreach. revert Hstep. unfold unmount_step.
  fold part_path.
  set (m1 := exec_cmd (world p) (cmd_mount part_path) (heap p)) in *.
  set (b := strip_newline (buffer m1) 0).
  assert (overlay M b) as Ho.
  { apply overlay_strip_newline, overlay_fresh. by apply buffer_ok_exec_cmd. }
  assert (olds m1 = olds (heap p)) as Ho1 by apply olds_exec_cmd.
  assert (∀ (q : proc W) fl,
    heap q = Mem b (olds m1) →
    (let '(next, m2) := strtok None (heap q) in (next, fl, with_heap m2 q))
      = (Some t, failed', p') →
    segment M t (cstr_at (buffer (heap p')) t)) as Hfin.
  { intros q fl Hq. destruct (strtok None (heap q)) as [nx m2] eqn:Htok.
    intros [= -> <- <-]. rewrite Hq in Htok.
    apply overlay_strtok with (M := M) in Htok as (Ho2 & _ & Ht); [|done|simpl; lia].
    simpl. apply overlay_cstr_at; [done|]. by apply Ht. }
  destruct (0 <? strlen_at b 0).
  - cbn [world heap stdin trace print emit with_heap with_world].
    destruct (system_run (world p) (cmd_unmount part_path)) as [ret w'].
    destruct (ret =? 0)%Z; by apply Hfin.
  - by apply Hfin.
Qed.

(** In [unmount_drive], when that output ends before the saved pointer: the
    loop goes on in the bytes that were in the buffer before the query, as
    if the query had not been made. *)
Lemma next_partition_from_old_bytes partition failed (p : proc W) next failed' p' next0 m0 :
  buffer_ok (buffer (heap p)) →
  unmount_step partition failed p = (next, failed', p') →
  strtok None (heap p) = (next0, m0) →
  let part_path := snprintf MAX_PATH (cs "/dev/" ++ cstr_at (buffer (heap p)) partition) in
  let M := cstr_at (buffer (exec_cmd (world p) (cmd_mount part_path) (heap p))) 0 in
  length M < olds (heap p) →
  next = next0 ∧ olds (heap p') = olds m0 ∧
  ∀ t, next = Some t → cstr_at (buffer (heap p')) t = cstr_at (buffer m0) t.
Proof.
  intros Hb Hstep Hold part_path M Hshort. revert Hstep. unfold unmount_step.
  fold part_path.
  set (m1 := exec_cmd (world p) (cmd_mount part_path) (heap p)) in *.
  set (b := strip_newline (buffer m1) 0).
  assert (buffer_ok (buffer m1)) as Hb1 by (by apply buffer_ok_exec_cmd).
  assert (olds m1 = olds (heap p)) as Ho1 by apply olds_exec_cmd.
  assert (length M = strlen_at (buffer m1) 0) as HM.
  { unfold M. rewrite cstr_at_0, length_take.
    pose proof (span_le_length not_nul (buffer m1)). rewrite strlen_at_0. lia. }
  assert (drop (olds (heap p)) b = drop (olds (heap p)) (buffer (heap p))) as Hd.
  { assert (drop (olds (heap p)) b = drop (olds (heap p)) (buffer m1)) as ->.
    { unfold b, strip_newline. destruct (is_nl _); [|done].
      apply suffix_insert_below.
      destruct (overlay_fresh _ Hb1) as [Hz _]. fold M in Hz.
      pose proof (scan_bound in_line (buffer m1) 0 _ stops_in_line Hz ltac:(lia)).
      unfold strcspn_nl. lia. }
    apply list_eq. intros j. rewrite !lookup_drop.
    apply exec_cmd_tail; [done|]. fold m1. lia. }
  assert (length b = length (buffer (heap p))) as Hl.
  { pose proof (buffer_ok_strip_newline _ 0 Hb1) as [Hx _]. fold b in Hx.
    destruct Hb as [Hy _]. congruence. }
  assert (∀ (q : proc W) fl,
    heap q = Mem b (olds m1) →
    (let '(next, m2) := strtok None (heap q) in (next, fl, with_heap m2 q))
      = (next, failed', p') →
    next = next0 ∧ olds (heap p') = olds m0 ∧
    ∀ t, next = Some t → cstr_at (buffer (heap p')) t = cstr_at (buffer m0) t) as Hfin.
  { intros q fl Hq. destruct (strtok None (heap q)) as [nx m2] eqn:Htok.
    intros [= -> <- <-]. rewrite Hq in Htok. simpl.
    eapply (suffix_strtok (Mem b (olds m1)) (heap p)); simpl; try done.
    by rewrite Ho1. }
  destruct (0 <? strlen_at b 0).
  - cbn [world heap stdin trace print emit with_heap with_world].
    destruct (system_run (world p) (cmd_unmount part_path)) as [ret w'].
    destruct (ret =? 0)%Z; by apply Hfin.
  - by apply Hfin.
Qed.

End NextItem.

(** ** The fuel of the catalog builder is enough *)

Section NoTimeout.
Context {W : Type} `{Host W}.

Lemma get_drive_info_total (w : W) drive info m :
  buffer_ok (buffer m) →
  get_drive_info w drive info m = Fault ∨
  ∃ info' m', get_drive_info w drive info m = Ok (info', m') ∧
    buffer_ok (buffer m') ∧ olds m' ≤ BUFSZ - 1.
Proof.
  intros Hb. unfold get_drive_info. case_decide; [right|by left]. cbv zeta.
  set (m1 := exec_cmd w (cmd_detail _) m).
  set (m2 := exec_cmd w (cmd_mount _) m1).
  assert (buffer_ok (buffer m2)) as Hb2 by (by do 2 apply buffer_ok_exec_cmd).
  destruct (strtok (Some 0) m2) as [line m3] eqn:Htok.
  apply strtok_spec in Htok as (Hb3 & Ho3 & _ & _); [|done|simpl; lia].
  apply mount_loop_total; [done|done|lia].
Qed.

Lemma drives_loop_total (w : W) k line count drives m :
  buffer_ok (buffer m) → olds m ≤ BUFSZ - 1 →
  drives_loop w k line count drives m ≠ Timeout.
Proof.
  revert line count drives m. induction k as [|k IH]; intros line count drives m Hb Ho; simpl.
  { by destruct line. }
  destruct line as [l|]; [|done].
  destruct (drives !! count) as [slot|]; [|done].
  destruct (get_drive_info_total w l slot m Hb) as [->|(info' & m1 & -> & Hb1 & Ho1)]; [done|].
  destruct (strtok None m1) as [line' m2] eqn:Htok.
  apply strtok_spec in Htok as (Hb2 & Ho2 & _ & _); [|done|done].
  by apply IH.
Qed.

(** The catalog builder never runs out of fuel: it returns a catalog, or
    stores a line of 256 bytes or more into [path]. *)
Lemma get_drives_total (w : W) drives max_drives m :
  buffer_ok (buffer m) → get_drives w drives max_drives m ≠ Timeout.
Proof.
  intros Hb. unfold get_drives, get_root_drive.
  set (m0 := exec_cmd w cmd_root m).
  set (m2 := exec_cmd w (cmd_list _) _).
  assert (buffer_ok (buffer m2)) as Hb2.
  { apply buffer_ok_exec_cmd. simpl. by apply buffer_ok_strip_newline, buffer_ok_exec_cmd. }
  destruct (strtok (Some 0) m2) as [line m3] eqn:Htok.
  apply strtok_spec in Htok as (Hb3 & Ho3 & _ & _); [|done|simpl; lia].
  by apply drives_loop_total.
Qed.

End NoTimeout.

(** ** [main] ends on any finite input *)

Section MainEnds.
Context {W : Type} `{Host W}.

Lemma get_drives_buffer_ok (w : W) drives max_drives m count drives' m' :
  buffer_ok (buffer m) →
  get_drives w drives max_drives m = Ok (count, drives', m') →
  buffer_ok (buffer m').
Proof.
  intros Hb Hget.
  assert (slots_match drives drives) as Hself.
  { split; [done|]. intros i o o' ? ?. by simplify_eq. }
  pose proof (get_drives_lockstep w drives drives max_drives m m Hself Hb Hb) as Hrun.
  rewrite Hget in Hrun. simpl in Hrun.
  by destruct Hrun as (_ & _ & h' & _ & _ & _ & Hb' & _).
Qed.

(** A turn of the loop that does not end the process takes at least one
    byte off standard input and keeps the buffer in order; no turn runs out
    of fuel. *)
Lemma main_step_progress drives (p : proc W) :
  buffer_ok (buffer (heap p)) →
  main_step drives p ≠ Stalls ∧
  ∀ drives' p', main_step drives p = Goes (drives', p') →
    buffer_ok (buffer (heap p')) ∧ length (stdin p') < length (stdin p).
Proof.
  intros Hb. unfold main_step.
  destruct (get_drives (world p) drives MAX_DRIVES (heap p)) as [[[count ds] m]| |] eqn:Hget.
  2: { split; done. }
  2: { by apply get_drives_total in Hget. }
  pose proof (get_drives_buffer_ok _ _ _ _ _ _ _ Hb Hget) as Hbm.
  destruct (decide (count = 0)) as [->|Hc].
  { destruct (show_drives_none ds (with_heap m p)) as (p1 & st & -> & _). split; done. }
  destruct (show_drives_some ds count (with_heap m p) Hc)
    as (p0 & t & -> & Hh & Hin0 & Ht & Hd).
  cbn [world heap stdin trace print emit show_menu]. rewrite Hin0. cbn [stdin with_heap].
  unfold fgets. destruct (stdin p) as [|c input] eqn:Hin; [split; done|].
  destruct (fgets_aux (16 - 1) (c :: input)) as [line rest] eqn:Hline.
  destruct (fgets_aux_split _ _ _ _ Hline) as [Hsplit Hne].
  assert (length rest < length (c :: input)) as Hshort.
  { specialize (Hne ltac:(lia) ltac:(done)). rewrite <- Hsplit, length_app.
    destruct line; simpl; [done|lia]. }
  case_decide; [split; done|].
  case_decide.
  { split; [done|]. intros ? ? [= <- <-]. cbn [heap stdin]. by rewrite Hh. }
  destruct (_ && _)%bool.
  - destruct (ds !! _) as [d|]; [|split; done].
    match goal with |- context [unmount_drive (path d) ?q] =>
      destruct (unmount_drive_spec (path d) q)
        as (b & p1 & t1 & -> & _ & _ & _ & Hb1 & Hin1 & _)
    end.
    { cbn [heap]. by rewrite Hh. }
    split; [done|]. intros ? ? [= <- <-]. split; [done|].
    rewrite Hin1. cbn [stdin]. destruct rest; simpl in *; lia.
  - split; [done|]. intros ? ? [= <- <-]. cbn [heap stdin emit print]. by rewrite Hh.
Qed.

(** With more fuel than there are bytes on standard input, [main] does not
    run out of fuel: it exits, or faults on a line too long for [path]. *)
Lemma main_loop_total fuel drives (p : proc W) :
  buffer_ok (buffer (heap p)) → length (stdin p) < fuel →
  main_loop fuel drives p ≠ Stalls.
Proof.
  revert drives p. induction fuel as [|fuel IH]; intros drives p Hb Hfuel; [lia|].
  rewrite main_loop_unfold.
  destruct (main_step_progress drives p Hb) as [Hns Hgo].
  destruct (main_step drives p) as [[drives' p']| | |]; try done.
  destruct (Hgo drives' p' eq_refl) as [Hb' Hlen].
  apply IH; [done|lia].
Qed.

End MainEnds.

(** ** What [sscanf] stores for a complete line *)

Lemma span_not_first p (l : list ascii) c : p c = false → span p (c :: l) = 0.
Proof. simpl. by intros ->. Qed.

Lemma scan_s_token width t c rest :
  is_token width t → isspace c = true →
  scan_s width (t ++ c :: rest) = Some (t, c :: rest).
Proof.
  intros (Hne & Hns & Hlen) Hc. unfold scan_s.
  destruct t as [|x t]; [done|].
  assert (isspace x = false) as Hx.
  { simpl in Hns. apply andb_true_iff in Hns as [Hx _].
    unfold not_space in Hx. by apply negb_true_iff in Hx. }
  rewrite <- app_comm_cons, span_not_first, drop_0 by done.
  rewrite app_comm_cons.
  rewrite span_app_all by done.
  rewrite span_not_first by (unfold not_space; by rewrite Hc).
  rewrite Nat.add_0_r, Nat.min_r by done.
  rewrite take_app_length, drop_app_length. done.
Qed.

Lemma scan_s_skip width c s : isspace c = true → scan_s width (c :: s) = scan_s width s.
Proof. intros Hc. unfold scan_s. simpl. by rewrite Hc. Qed.

(** A line of four tokens that fit their fields fills the four fields, in
    the order size, model, vendor, transport. *)
Lemma sscanf_info_four_tokens t1 t2 t3 t4 info :
  is_token 63 t1 → is_token 127 t2 → is_token 127 t3 → is_token 31 t4 →
  sscanf_info (t1 ++ cs " " ++ t2 ++ cs " " ++ t3 ++ cs " " ++ t4 ++ [NL]) info
    = set_transport t4 (set_vendor t3 (set_model t2 (set_size t1 info))).
Proof.
  intros H1 H2 H3 H4. unfold sscanf_info. cbn [cs list_ascii_of_string app].
  rewrite scan_s_token by done.
  rewrite scan_s_skip, scan_s_token by done.
  rewrite scan_s_skip, scan_s_token by done.
  rewrite scan_s_skip, scan_s_token by done.
  done.
Qed.

(** ** The first record is the first line of the listing *)

Lemma cstr_at_split b M :
  buffer_ok b → cstr_at b 0 = M → b = M ++ NUL :: drop (S (length M)) b.
Proof.
  intros Hb HM. destruct (overlay_fresh b Hb) as [Hz _]. rewrite HM in Hz.
  rewrite <- (take_drop (length M) b) at 1.
  rewrite (drop_S _ _ _ Hz). f_equal.
  rewrite <- HM at 2. rewrite cstr_at_0. f_equal.
  rewrite <- HM, cstr_at_0, length_take.
  pose proof (span_le_length not_nul b). rewrite strlen_at_0. lia.
Qed.

Lemma in_line_not_nul l : forallb in_line l = true → forallb not_nul l = true.
Proof.
  induction l as [|c l IH]; simpl; [done|].
  intros [Hc Hl]%andb_true_iff. rewrite IH by done.
  unfold in_line in Hc. apply andb_true_iff in Hc as [_ Hc].
  unfold not_nul. by rewrite Hc.
Qed.

(** [strtok(result, "\n")] on a buffer whose string starts with a line. *)
Lemma strtok_first_line b o l1 rest :
  buffer_ok b → cstr_at b 0 = l1 ++ NL :: rest →
  l1 ≠ [] → forallb in_line l1 = true →
  ∃ m', strtok (Some 0) (Mem b o) = (Some 0, m') ∧ cstr_at (buffer m') 0 = l1.
Proof.
  intros Hb HM Hne Hl1.
  pose proof (cstr_at_split b _ Hb HM) as Hsplit.
  set (tl := drop (S (length (l1 ++ NL :: rest))) b) in *.
  assert (span in_line b = length l1) as Hspan.
  { rewrite Hsplit, <- app_assoc, span_app_all by done. simpl. lia. }
  assert (b !! length l1 = Some NL) as Hnl.
  { rewrite Hsplit, <- app_assoc, lookup_app_r by lia.
    by replace (length l1 - length l1) with 0 by lia. }
  destruct l1 as [|c l1]; [done|].
  assert (b !! 0 = Some c) as Hc by (by rewrite Hsplit).
  simpl in Hl1. apply andb_true_iff in Hl1 as [Hcl Hl1].
  unfold in_line in Hcl. apply andb_true_iff in Hcl as [Hcnl Hcnul].
  apply negb_true_iff in Hcnl, Hcnul.
  unfold strtok. cbn [buffer olds default id].
  rewrite (peek_lookup _ _ _ Hc), Hcnul.
  assert (strspn_nl b 0 = 0) as ->.
  { unfold strspn_nl. rewrite drop_0, Hsplit. simpl. by rewrite Hcnl. }
  cbn [Nat.add]. rewrite (peek_lookup _ _ _ Hc), Hcnul.
  unfold strcspn_nl. rewrite drop_0, Hspan.
  rewrite (peek_lookup _ _ _ Hnl). change (is_nul NL) with false. cbv iota.
  eexists. split; [done|]. cbn [buffer].
  rewrite cstr_at_0, strlen_at_0.
  assert (<[length (c :: l1) := NUL]> b = (c :: l1) ++ NUL :: rest ++ NUL :: tl) as ->.
  { rewrite Hsplit at 1. rewrite <- app_assoc.
    rewrite insert_app_r_alt by lia.
    by replace (length (c :: l1) - length (c :: l1)) with 0 by lia. }
  assert (forallb not_nul (c :: l1) = true) as Hnn.
  { apply in_line_not_nul. simpl. unfold in_line at 1. by rewrite Hcnl, Hcnul. }
  rewrite span_app_all by done.
  change (span not_nul (NUL :: rest ++ NUL :: tl)) with 0.
  by rewrite Nat.add_0_r, take_app_length.
Qed.

Section FirstRecord.
Context {W : Type} `{Host W}.

(** Whatever else the catalog holds, its first record has the path that the
    first line of the listing names. *)
Lemma first_record_from_listing (w : W) drives max_drives m l1 rest count drives' m' :
  buffer_ok (buffer m) →
  popen_out w (cmd_list (fst (get_root_drive w 64 m))) = Some (l1 ++ NL :: rest) →
  l1 ≠ [] → forallb in_line l1 = true → forallb not_nul rest = true →
  length (l1 ++ NL :: rest) < BUFSZ →
  get_drives w drives max_drives m = Ok (count, drives', m') →
  0 < max_drives →
  0 < count ∧ path <$> drives' !! 0 = Some l1.
Proof.
  intros Hb Hout Hne Hl1 Hrest Hlen. unfold get_drives.
  destruct (get_root_drive w 64 m) as [root_drive m1] eqn:Hroot. cbn [fst] in Hout.
  assert (buffer_ok (buffer m1)) as Hb1.
  { unfold get_root_drive in Hroot. injection Hroot as _ <-. cbn [buffer].
    by apply buffer_ok_strip_newline, buffer_ok_exec_cmd. }
  set (m2 := exec_cmd w (cmd_list root_drive) m1).
  assert (buffer_ok (buffer m2)) as Hb2 by (by apply buffer_ok_exec_cmd).
  assert (cstr_at (buffer m2) 0 = l1 ++ NL :: rest) as HM.
  { apply exec_cmd_result; [done|done| |done].
    rewrite forallb_app. rewrite in_line_not_nul by done. simpl. by rewrite Hrest. }
  destruct (strtok_first_line (buffer m2) (olds m2) l1 rest Hb2 HM Hne Hl1)
    as (m3 & Htok & Hline).
  replace (Mem (buffer m2) (olds m2)) with m2 in Htok by (by destruct m2).
  rewrite Htok. intros Hloop Hmax.
  destruct max_drives as [|k]; [lia|]. simpl in Hloop.
  destruct (drives !! 0) as [slot|] eqn:Hslot; [|done].
  destruct (get_drive_info w 0 slot m3) as [[info m4]| |] eqn:Hinfo; [|done|done].
  destruct (strtok None m4) as [line' m5].
  apply get_drive_info_bounds in Hinfo as (Hpath & _ & _).
  apply drives_loop_bounds in Hloop as (Hc & _ & _ & Hkeep & _).
  split; [lia|]. rewrite Hkeep by lia.
  rewrite list_lookup_insert_eq by (by eapply lookup_lt_Some).
  simpl. by rewrite Hpath, Hline.
Qed.

End FirstRecord.

(** ** The shared buffer and the loops that tokenize it *)

(** C9, as the claim states it, fails in [unmount_drive] whenever the
    mount-point output is shorter than what the loop has consumed of the
    listing: with the first partition not mounted, the second turn of the
    loop works on "sdb2", the second line of the listing. *)
Lemma listing_continued_after_short_output :
  popen_out host_idle (cmd_parts (cs "/dev/sdb")) = Some (nl "sdb1" ++ nl "sdb2") ∧
  popen_out host_idle (cmd_mount (cs "/dev/sdb1")) = Some [NL] ∧
  fst (at_first_partition (cs "/dev/sdb") (boot host_idle [])) = Some 0 ∧
  ¬ reads_latest_output 0 (snd (at_first_partition (cs "/dev/sdb") (boot host_idle []))) ∧
  queries (eject_trace (unmount_drive (cs "/dev/sdb") (boot host_idle [NL])))
    = [cmd_parts (cs "/dev/sdb"); cmd_mount (cs "/dev/sdb1"); cmd_mount (cs "/dev/sdb2")].
Proof.
  split_and!; try (vm_compute; reflexivity).
  intros Hc. unfold reads_latest_output in Hc.
  destruct (unmount_step 0 false (snd (at_first_partition (cs "/dev/sdb") (boot host_idle []))))
    as [[next fl] p1] eqn:E.
  pose proof E as E2. vm_compute in E2. injection E2 as <- <- <-.
  specialize (Hc _ _ _ _ E). destruct Hc as [Hlen _].
  vm_compute in Hlen. lia.
Qed.

Section SharedBuffer.
Context {W : Type} `{Host W}.

(** C9 (amended): [exec_cmd] puts every output at the start of the one
    static buffer, leaves the bytes behind the new terminator and the saved
    pointer of [strtok] as they were, and both loops call it between two
    calls of [strtok].  In [get_drives] the line after a device is always a
    part of the mount-point output [get_drive_info] tokenized last.  In
    [unmount_drive] the name after a partition is a part of that turn's
    mount-point output when the output reaches the saved pointer, and is
    read from the bytes the buffer held before the query, the listing
    included, when the output ends before it. *)
Theorem shared_buffer_iteration :
  (∀ (w : W) cmd m out,
     buffer_ok (buffer m) → popen_out w cmd = Some out →
     forallb not_nul out = true → length out < BUFSZ →
     cstr_at (buffer (exec_cmd w cmd m)) 0 = out ∧
     olds (exec_cmd w cmd m) = olds m ∧
     ∀ i, length out < i → buffer (exec_cmd w cmd m) !! i = buffer m !! i)
  ∧ (∀ (w : W) drive info m info' m' t m'',
     buffer_ok (buffer m) →
     get_drive_info w drive info m = Ok (info', m') →
     strtok None m' = (Some t, m'') →
     segment (device_mount_output w drive m) t (cstr_at (buffer m'') t))
  ∧ (∀ partition (p : proc W),
     buffer_ok (buffer (heap p)) →
     olds (heap p) ≤ length (partition_mount_output partition p) →
     reads_latest_output partition p)
  ∧ (∀ partition failed (p : proc W) next failed' p' next0 m0,
     buffer_ok (buffer (heap p)) →
     length (partition_mount_output partition p) < olds (heap p) →
     unmount_step partition failed p = (next, failed', p') →
     strtok None (heap p) = (next0, m0) →
     next = next0 ∧ olds (heap p') = olds m0 ∧
     ∀ t, next = Some t → cstr_at (buffer (heap p')) t = cstr_at (buffer m0) t).
Proof.
  split_and!.
  - intros w cmd m out Hb Hout Hnn Hlen.
    pose proof (exec_cmd_result w cmd m out Hb Hout Hnn Hlen) as Hres.
    split_and!; [done|apply olds_exec_cmd|].
    intros i Hi. apply exec_cmd_tail; [done|].
    assert (length (cstr_at (buffer (exec_cmd w cmd m)) 0) = length out) as Hl
      by (by rewrite Hres).
    rewrite cstr_at_0, length_take, strlen_at_0 in Hl. rewrite strlen_at_0.
    pose proof (span_le_length not_nul (buffer (exec_cmd w cmd m))). lia.
  - intros w drive info m info' m' t m'' Hb Hinfo Htok.
    by apply (next_device_from_mount_output w drive info m info' m' t m'').
  - intros partition p Hb Hreach failed t failed' p' Hstep.
    by apply (next_partition_from_mount_output partition failed p t failed' p').
  - intros partition failed p next failed' p' next0 m0 Hb Hshort Hstep Htok.
    by apply (next_partition_from_old_bytes partition failed p next failed' p' next0 m0).
Qed.

End SharedBuffer.

(** ** The code on hosts where a claim breaks *)

(** C1: [/dev/sdb] has two mounted partitions.  The loop unmounts the first;
    the mount-point output has then replaced the listing under the saved
    pointer, the loop looks up the name "a/usb" it finds there and ends; the
    second partition is never looked at, and the drive is powered off with
    it mounted. *)
Theorem poweroff_skips_mounted_partition :
  let r := unmount_drive (cs "/dev/sdb") (boot host_stick [NL]) in
  popen_out host_stick (cmd_parts (cs "/dev/sdb")) = Some (nl "sdb1" ++ nl "sdb2") ∧
  popen_out host_stick (cmd_mount (cs "/dev/sdb2")) = Some (nl "/data") ∧
  eject_value r = Some true ∧
  queries (eject_trace r)
    = [cmd_parts (cs "/dev/sdb"); cmd_mount (cs "/dev/sdb1"); cmd_mount (cs "/dev/a/usb")] ∧
  actions (eject_trace r)
    = [EvUnmount (cs "/dev/sdb1") 0; EvPowerOff (cs "/dev/sdb") 0].
Proof. vm_compute. split_and!; reflexivity. Qed.

(** C2: a refresh finds [/dev/sdb] reporting the size "1.8T" and nothing
    else, in the slot where the refresh before stored the SanDisk stick: the
    record keeps the model, vendor and transport of the stick.  That line
    stores the size only, and an empty output stores nothing, whatever the
    record held. *)
Theorem missing_tokens_keep_old_fields :
  (∀ info, sscanf_info (nl "1.8T") info = set_size (cs "1.8T") info) ∧
  (∀ info, sscanf_info [] info = info) ∧
  catalog (get_drives host_stick no_drives MAX_DRIVES mem_init)
    = Some [mkDrive (cs "/dev/sdb") (cs "14.9G") (cs "Ultra") (cs "SanDisk") (cs "usb")
                    0 (replicate 8 [])] ∧
  catalog refresh_after_swap
    = Some [mkDrive (cs "/dev/sdb") (cs "1.8T") (cs "Ultra") (cs "SanDisk") (cs "usb")
                    0 (replicate 8 [])].
Proof.
  split_and!.
  - intros info. reflexivity.
  - intros info. reflexivity.
  - vm_compute. reflexivity.
  - vm_compute. reflexivity.
Qed.

(** The bound of eight mount-point lines in [root_excluded_from_catalog]
    cannot be dropped.  On this host the query made with the text of the
    detail line is answered with ten lines: the root device is [sda], and the
    tenth line, "/dev/sda", becomes the second record of the catalog.  An
    [lsblk] prints nothing for such a name, so no system is this host. *)
Theorem root_device_in_catalog :
  fst (get_root_drive host_root 64 mem_init) = cs "sda" ∧
  popen_out host_root (cmd_list (cs "sda")) = Some (nl "/dev/sdb") ∧
  path <$> default [] (catalog (get_drives host_root no_drives MAX_DRIVES mem_init))
    = [cs "/dev/sdb"; cs "/dev/sda"].
Proof. vm_compute. split_and!; reflexivity. Qed.

(** C6, as the claim states it, fails for a line that starts with a number:
    "1abc" is not "q", not "r" and not a number, and the drive is ejected
    without a warning. *)
Lemma malformed_choice_ejects :
  let o := main_step no_drives (boot host_stick (nl "1abc" ++ [NL])) in
  normalize (nl "1abc") = cs "1abc" ∧
  cs "1abc" ≠ cs "q" ∧ cs "1abc" ≠ cs "r" ∧
  ¬ claimed_choice (cs "1abc") 1 ∧
  length <$> catalog (get_drives host_stick no_drives MAX_DRIVES mem_init) = Some 1 ∧
  actions (trace_of o) = [EvUnmount (cs "/dev/sdb1") 0; EvPowerOff (cs "/dev/sdb") 0] ∧
  warned (trace_of o) = false.
Proof.
  cbv zeta. split_and!.
  - vm_compute. reflexivity.
  - vm_compute. discriminate.
  - vm_compute. discriminate.
  - intros (_ & Hd & _). vm_compute in Hd. discriminate.
  - vm_compute. reflexivity.
  - vm_compute. reflexivity.
  - vm_compute. reflexivity.
Qed.

(** ** The theorems at work on the example hosts *)

Lemma catalog_within_capacity_witness :
  ∃ count drives' m',
    get_drives host_root no_drives MAX_DRIVES mem_init = Ok (count, drives', m') ∧
    count ≤ 32 ∧ ∀ d, d ∈ take count drives' → length (mount_list d) ≤ 8.
Proof.
  assert (∃ count drives' m',
    get_drives host_root no_drives MAX_DRIVES mem_init = Ok (count, drives', m'))
    as (count & drives' & m' & Hget) by (eexists _, _, _; vm_compute; reflexivity).
  exists count, drives', m'. split; [exact Hget|].
  exact (catalog_within_capacity host_root no_drives mem_init count drives' m' Hget).
Defined.

Lemma poweroff_status_not_in_result_witness :
  ∃ b p' t,
    unmount_drive (cs "/dev/sdb") (boot host_idle [NL]) = Ok (b, p') ∧
    trace p' = [] ++ t ∧
    ((∀ part st, EvUnmount part st ∈ t → st = 0%Z) →
       b = true ∧
       ∃ st, EvPowerOff (cs "/dev/sdb") st ∈ t ∧
             (st ≠ 0%Z → EvPrint MsgPowerOffFailed ∈ t)).
Proof.
  apply (poweroff_status_not_in_result (cs "/dev/sdb") (boot host_idle [NL])).
  split; vm_compute; reflexivity.
Defined.

Lemma main_exit_status_witness :
  (∃ p', main_loop 1 no_drives (boot host_stick (nl "Q")) = Exits 0 p') ∧
  (∃ p', main_loop 1 no_drives (boot host_bare [NL]) = Exits 1 p').
Proof.
  split.
  - assert (∃ drives' m,
      get_drives host_stick no_drives MAX_DRIVES mem_init = Ok (1, drives', m))
      as (drives' & m & Hget) by (eexists _, _; vm_compute; reflexivity).
    destruct (main_exit_status 0 no_drives (boot host_stick (nl "Q")) 1 drives' m Hget)
      as [_ Hquit].
    apply (Hquit ltac:(lia) "Q"%char []); [by right|reflexivity].
  - assert (∃ drives' m,
      get_drives host_bare no_drives MAX_DRIVES mem_init = Ok (0, drives', m))
      as (drives' & m & Hget) by (eexists _, _; vm_compute; reflexivity).
    destruct (main_exit_status 0 no_drives (boot host_bare [NL]) 0 drives' m Hget)
      as [Hnone _].
    destruct (Hnone eq_refl) as (p' & t & Hrun & _). exists p'. exact Hrun.
Defined.

Lemma invalid_input_falls_through_witness :
  ∃ drives' p' t,
    main_step no_drives (boot host_stick (nl "x")) = Goes (drives', p') ∧
    trace p' = [] ++ t ++ [EvPrint MsgInvalid; EvSleep 2] ∧ display_only t.
Proof.
  assert (∃ drives' m,
    get_drives host_stick no_drives MAX_DRIVES mem_init = Ok (1, drives', m))
    as (drives' & m & Hget) by (eexists _, _; vm_compute; reflexivity).
  destruct (invalid_input_falls_through 0 no_drives (boot host_stick (nl "x"))
              1 drives' m (nl "x") [] Hget)
    as (p' & t & Hstep & Ht & Hd & _).
  - lia.
  - vm_compute. reflexivity.
  - vm_compute. discriminate.
  - vm_compute. discriminate.
  - vm_compute. intros [Hlo _]. apply Hlo. reflexivity.
  - exists drives', p', t. exact (conj Hstep (conj Ht Hd)).
Defined.

Lemma get_drives_idempotent_witness :
  ∃ count drives' m' m'',
    get_drives host_root no_drives MAX_DRIVES mem_init = Ok (count, drives', m') ∧
    get_drives host_root drives' MAX_DRIVES m' = Ok (count, drives', m'').
Proof.
  assert (∃ count drives' m',
    get_drives host_root no_drives MAX_DRIVES mem_init = Ok (count, drives', m'))
    as (count & drives' & m' & Hget) by (eexists _, _, _; vm_compute; reflexivity).
  destruct (get_drives_idempotent host_root no_drives mem_init count drives' m')
    as [m'' Hagain].
  - split; vm_compute; reflexivity.
  - exact Hget.
  - exists count, drives', m', m''. exact (conj Hget Hagain).
Defined.

Lemma shared_buffer_iteration_witness :
  cstr_at (buffer (exec_cmd host_stick (cmd_mount (cs "/dev/sdb1")) mem_init)) 0
    = nl "/media/usb"
  ∧ (∃ info' m' t m'',
       get_drive_info host_root 0 blank (snd (at_first_device host_root mem_init))
         = Ok (info', m') ∧
       strtok None m' = (Some t, m'') ∧
       segment (device_mount_output host_root 0 (snd (at_first_device host_root mem_init)))
               t (cstr_at (buffer m'') t))
  ∧ reads_latest_output 0 (snd (at_first_partition (cs "/dev/sdb") (boot host_stick [])))
  ∧ (∃ next p' next0 m0,
       unmount_step 0 false (snd (at_first_partition (cs "/dev/sdb") (boot host_idle [])))
         = (next, false, p') ∧
       strtok None (heap (snd (at_first_partition (cs "/dev/sdb") (boot host_idle []))))
         = (next0, m0) ∧
       next = next0 ∧ olds (heap p') = olds m0).
Proof.
  destruct (shared_buffer_iteration (W := canned)) as (Hexec & Hdev & Hpart & Hold).
  split_and!.
  - apply (Hexec host_stick (cmd_mount (cs "/dev/sdb1")) mem_init (nl "/media/usb")).
    + split; vm_compute; reflexivity.
    + vm_compute; reflexivity.
    + vm_compute; reflexivity.
    + vm_compute. lia.
  - assert (∃ info' m' t m'',
      get_drive_info host_root 0 blank (snd (at_first_device host_root mem_init))
        = Ok (info', m') ∧ strtok None m' = (Some t, m''))
      as (info' & m' & t & m'' & Hinfo & Htok)
      by (eexists _, _, _, _; split; vm_compute; reflexivity).
    exists info', m', t, m''. split; [exact Hinfo|]. split; [exact Htok|].
    apply (Hdev host_root 0 blank (snd (at_first_device host_root mem_init)) info' m' t m'');
      [|exact Hinfo|exact Htok].
    split; vm_compute; reflexivity.
  - apply Hpart.
    + split; vm_compute; reflexivity.
    + vm_compute. lia.
  - assert (∃ next p' next0 m0,
      unmount_step 0 false (snd (at_first_partition (cs "/dev/sdb") (boot host_idle [])))
        = (next, false, p') ∧
      strtok None (heap (snd (at_first_partition (cs "/dev/sdb") (boot host_idle []))))
        = (next0, m0))
      as (next & p' & next0 & m0 & Hstep & Htok)
      by (eexists _, _, _, _; split; vm_compute; reflexivity).
    exists next, p', next0, m0. split; [exact Hstep|]. split; [exact Htok|].
    destruct (Hold 0 false (snd (at_first_partition (cs "/dev/sdb") (boot host_idle [])))
                next false p' next0 m0) as (Hn & Ho & _);
      [| |exact Hstep|exact Htok|exact (conj Hn Ho)].
    + split; vm_compute; reflexivity.
    + vm_compute. lia.
Defined.

(** ** The lines [strtok] cuts a string into *)

Lemma split_nl_not_nil s : split_nl s ≠ [].
Proof. destruct s as [|c s]; simpl; [done|]. destruct (is_nl c); [done|]. by destruct (split_nl s). Qed.

Lemma split_nl_line t s :
  forallb not_nl t = true → split_nl (t ++ NL :: s) = t :: split_nl s.
Proof.
  induction t as [|c t IH]; simpl; [done|].
  intros [Hc Ht]%andb_true_iff. unfold not_nl in Hc. apply negb_true_iff in Hc.
  by rewrite Hc, IH.
Qed.

Lemma split_nl_last t : forallb not_nl t = true → split_nl t = [t].
Proof.
  induction t as [|c t IH]; simpl; [done|].
  intros [Hc Ht]%andb_true_iff. unfold not_nl in Hc. apply negb_true_iff in Hc.
  by rewrite Hc, IH.
Qed.

Lemma tokens_skip pre s : forallb is_nl pre = true → tokens (pre ++ s) = tokens s.
Proof.
  unfold tokens. induction pre as [|c pre IH]; simpl; [done|].
  intros [Hc Hpre]%andb_true_iff. rewrite Hc. simpl. by apply IH.
Qed.

Lemma tokens_line t s :
  t ≠ [] → forallb not_nl t = true → tokens (t ++ NL :: s) = t :: tokens s.
Proof.
  intros Hne Ht. unfold tokens. rewrite split_nl_line by done. simpl.
  destruct t; [done|]. done.
Qed.

Lemma tokens_last t : t ≠ [] → forallb not_nl t = true → tokens t = [t].
Proof.
  intros Hne Ht. unfold tokens. rewrite split_nl_last by done. simpl.
  destruct t; [done|]. done.
Qed.

Lemma tokens_nil : tokens [] = [].
Proof. done. Qed.

(** ** Spans of a string that ends at a NUL *)

Lemma span_before_stop p (l tl : list ascii) x :
  p x = false → span p (l ++ x :: tl) = span p l.
Proof.
  intros Hx. induction l as [|c l IH]; simpl; [by rewrite Hx|].
  destruct (p c); [by rewrite IH|done].
Qed.

Lemma span_in_line_no_nul (l tl : list ascii) :
  forallb not_nul l = true → span in_line (l ++ NUL :: tl) = span not_nl l.
Proof.
  induction l as [|c l IH]; simpl; [done|].
  intros [Hc Hl]%andb_true_iff.
  assert (in_line c = not_nl c) as ->.
  { unfold in_line, not_nl. unfold not_nul in Hc. by rewrite Hc, andb_true_r. }
  destruct (not_nl c); [by rewrite IH|done].
Qed.

Lemma span_split p (l : list ascii) :
  l = take (span p l) l ++ drop (span p l) l ∧
  forallb p (take (span p l) l) = true ∧
  (drop (span p l) l = [] ∨ ∃ c r, drop (span p l) l = c :: r ∧ p c = false).
Proof.
  split; [by rewrite take_drop|]. split; [apply span_take_all|].
  induction l as [|c l IH]; simpl; [by left|].
  destruct (p c) eqn:E; simpl; [done|]. right. eauto.
Qed.

(** The bytes from an offset inside the buffer on: the string there, its
    terminator, and what follows. *)
Lemma drop_cstr_at b s :
  buffer_ok b → s ≤ BUFSZ - 1 → ∃ tl, drop s b = cstr_at b s ++ NUL :: tl.
Proof.
  intros Hb Hs. pose proof (strlen_bound b s Hb Hs) as Hbd.
  destruct (Hb) as [Hlen Hz]. pose proof BUFSZ_pos.
  exists (drop (S (strlen_at b s)) (drop s b)).
  unfold cstr_at.
  destruct (lookup_lt_is_Some_2 (drop s b) (strlen_at b s)) as [c Hc].
  { rewrite length_drop. lia. }
  rewrite <- (take_drop (strlen_at b s) (drop s b)) at 1. f_equal.
  rewrite (drop_S _ _ _ Hc). f_equal.
  pose proof (span_lookup_stop not_nul (drop s b) stops_not_nul) as Hstop.
  fold (strlen_at b s) in Hstop. rewrite Hc in Hstop. simpl in Hstop.
  unfold not_nul in Hstop. apply negb_false_iff in Hstop. by apply is_nul_true.
Qed.

Lemma cstr_at_no_nul b s : forallb not_nul (cstr_at b s) = true.
Proof. unfold cstr_at, strlen_at. apply span_take_all. Qed.

(** Reading at an offset of a buffer that is given as the bytes before the
    offset and the bytes from it on. *)
Lemma peek_app (A L : list ascii) i : peek (A ++ L) (length A + i) = default NUL (L !! i).
Proof.
  unfold peek. rewrite lookup_app_r by lia. by replace (length A + i - length A) with i by lia.
Qed.

Lemma drop_app_at (A L : list ascii) i : drop (length A + i) (A ++ L) = drop i L.
Proof. by rewrite drop_app_add. Qed.

Lemma cstr_at_app (A L R tl : list ascii) i :
  drop i L = R ++ NUL :: tl → forallb not_nul R = true →
  cstr_at (A ++ L) (length A + i) = R.
Proof.
  intros HL HR. unfold cstr_at, strlen_at. rewrite drop_app_at, HL.
  rewrite span_app_all by done. simpl. rewrite Nat.add_0_r. apply take_app_length.
Qed.

(** ** [strtok] and the lines of the string *)

Lemma strtok_default str m : strtok str m = strtok (Some (default (olds m) str)) m.
Proof. by destruct str. Qed.

Lemma peek_at (A L : list ascii) : peek (A ++ L) (length A) = default NUL (L !! 0).
Proof. rewrite <- (Nat.add_0_r (length A)) at 1. apply peek_app. Qed.

Lemma drop_at (A L : list ascii) : drop (length A) (A ++ L) = L.
Proof. apply drop_app_length. Qed.

Lemma not_nl_no_nul_in_line t :
  forallb not_nl t = true → forallb not_nul t = true → forallb in_line t = true.
Proof.
  induction t as [|c t IH]; simpl; [done|].
  intros [Hc Ht]%andb_true_iff [Hc' Ht']%andb_true_iff.
  rewrite IH by done. unfold in_line. unfold not_nl in Hc. unfold not_nul in Hc'.
  by rewrite Hc, Hc'.
Qed.

(** The string starts with newlines only: no token. *)
Lemma strtok_shape_none (A nls tl : list ascii) o :
  forallb is_nl nls = true →
  strtok (Some (length A)) (Mem (A ++ nls ++ NUL :: tl) o)
    = (None, Mem (A ++ nls ++ NUL :: tl) (length A + length nls)).
Proof.
  intros Hnls. unfold strtok. cbn [buffer olds default id].
  rewrite peek_at. unfold strspn_nl. rewrite drop_at.
  rewrite span_app_all by done. cbn [span]. change (is_nl NUL) with false. cbv iota.
  rewrite Nat.add_0_r, peek_app.
  rewrite (list_lookup_middle nls tl NUL (length nls)) by done. cbn [default id].
  change (is_nul NUL) with true. cbv iota.
  destruct nls as [|c nls]; cbn; [by rewrite Nat.add_0_r|].
  cbn in Hnls. apply andb_true_iff in Hnls as [Hc _]. apply is_nl_true in Hc as ->. done.
Qed.

(** Newlines, then a last line that ends the string. *)
Lemma strtok_shape_last (A nls t tl : list ascii) o :
  forallb is_nl nls = true → t ≠ [] →
  forallb not_nl t = true → forallb not_nul t = true →
  strtok (Some (length A)) (Mem (A ++ nls ++ t ++ NUL :: tl) o)
    = (Some (length A + length nls),
       Mem (A ++ nls ++ t ++ NUL :: tl) (length A + length nls + length t)).
Proof.
  intros Hnls Hne Hnl Hnn. unfold strtok. cbn [buffer olds default id].
  destruct t as [|c t]; [done|].
  assert (is_nl c = false ∧ is_nul c = false) as [Hc1 Hc2].
  { cbn in Hnl, Hnn. apply andb_true_iff in Hnl as [Hnl _], Hnn as [Hnn _].
    unfold not_nl in Hnl. unfold not_nul in Hnn. by apply negb_true_iff in Hnl, Hnn. }
  assert (is_nul (peek (A ++ nls ++ (c :: t) ++ NUL :: tl) (length A)) = false) as ->.
  { rewrite peek_at. destruct nls as [|x nls]; cbn; [done|].
    cbn in Hnls. apply andb_true_iff in Hnls as [Hx _]. apply is_nl_true in Hx as ->. done. }
  unfold strspn_nl. rewrite drop_at, span_app_all by done.
  cbn [span app]. rewrite Hc1, Nat.add_0_r.
  rewrite peek_app.
  rewrite (list_lookup_middle nls _ c (length nls)) by done.
  cbn [default id]. rewrite Hc2.
  unfold strcspn_nl. rewrite drop_app_at, drop_app_length.
  change (c :: t ++ ?Y) with ((c :: t) ++ Y).
  rewrite span_app_all by (by apply not_nl_no_nul_in_line).
  cbn [span]. change (in_line NUL) with false. cbv iota. rewrite Nat.add_0_r.
  replace (length A + length nls + length (c :: t))
    with (length (A ++ nls ++ c :: t) + 0) by (rewrite !length_app; lia).
  replace (A ++ nls ++ (c :: t) ++ NUL :: tl) with ((A ++ nls ++ c :: t) ++ NUL :: tl)
    by (by rewrite <- !app_assoc).
  rewrite peek_app. cbn. done.
Qed.

(** Newlines, a line, a newline, and the rest of the string. *)
Lemma strtok_shape_line (A nls t R' tl : list ascii) o :
  forallb is_nl nls = true → t ≠ [] →
  forallb not_nl t = true → forallb not_nul t = true →
  strtok (Some (length A)) (Mem (A ++ nls ++ t ++ NL :: R' ++ NUL :: tl) o)
    = (Some (length A + length nls),
       Mem (A ++ nls ++ t ++ NUL :: R' ++ NUL :: tl) (S (length A + length nls + length t))).
Proof.
  intros Hnls Hne Hnl Hnn. unfold strtok. cbn [buffer olds default id].
  destruct t as [|c t]; [done|].
  assert (is_nl c = false ∧ is_nul c = false) as [Hc1 Hc2].
  { cbn in Hnl, Hnn. apply andb_true_iff in Hnl as [Hnl _], Hnn as [Hnn _].
    unfold not_nl in Hnl. unfold not_nul in Hnn. by apply negb_true_iff in Hnl, Hnn. }
  set (X := NL :: R' ++ NUL :: tl).
  assert (is_nul (peek (A ++ nls ++ (c :: t) ++ X) (length A)) = false) as ->.
  { rewrite peek_at. destruct nls as [|x nls]; cbn; [done|].
    cbn in Hnls. apply andb_true_iff in Hnls as [Hx _]. apply is_nl_true in Hx as ->. done. }
  unfold strspn_nl. rewrite drop_at, span_app_all by done.
  cbn [span app]. rewrite Hc1, Nat.add_0_r.
  rewrite peek_app.
  rewrite (list_lookup_middle nls _ c (length nls)) by done.
  cbn [default id]. rewrite Hc2.
  unfold strcspn_nl. rewrite drop_app_at, drop_app_length.
  change (c :: t ++ ?Y) with ((c :: t) ++ Y).
  rewrite span_app_all by (by apply not_nl_no_nul_in_line).
  change (span in_line X) with 0. rewrite Nat.add_0_r.
  replace (length A + length nls + length (c :: t))
    with (length (A ++ nls ++ c :: t) + 0) by (rewrite !length_app; lia).
  replace (A ++ nls ++ (c :: t) ++ X) with ((A ++ nls ++ c :: t) ++ X)
    by (by rewrite <- !app_assoc).
  rewrite peek_app. change (is_nul (default NUL (X !! 0))) with false. cbv iota.
  rewrite Nat.add_0_r. f_equal. f_equal.
  rewrite insert_app_r_alt, Nat.sub_diag by lia. unfold X. cbn.
  by rewrite <- !app_assoc.
Qed.

(** What one call of [strtok] does to the lines of the string it works on:
    it returns no token exactly when no non-empty line is left, and otherwise
    the first non-empty line, leaving the saved pointer at the lines after
    it. *)
Lemma strtok_tokens str m r m' :
  buffer_ok (buffer m) → default (olds m) str ≤ BUFSZ - 1 →
  strtok str m = (r, m') →
  match r with
  | None =>
      tokens (cstr_at (buffer m) (default (olds m) str)) = [] ∧
      buffer m' = buffer m ∧ peek (buffer m') (olds m') = NUL
  | Some pos =>
      cstr_at (buffer m') pos ≠ [] ∧
      forallb in_line (cstr_at (buffer m') pos) = true ∧
      tokens (cstr_at (buffer m) (default (olds m) str))
        = cstr_at (buffer m') pos :: tokens (cstr_at (buffer m') (olds m')) ∧
      (olds m' = pos + length (cstr_at (buffer m') pos) ∧ peek (buffer m') (olds m') = NUL
       ∨ olds m' = S (pos + length (cstr_at (buffer m') pos)))
  end.
Proof.
  intros Hb Hs. rewrite strtok_default. set (s := default (olds m) str) in *.
  destruct (drop_cstr_at _ _ Hb Hs) as [tl Hdrop].
  pose proof (cstr_at_no_nul (buffer m) s) as Hnn.
  set (R := cstr_at (buffer m) s) in *.
  assert (Hlen : length (take s (buffer m)) = s).
  { rewrite length_take. destruct Hb as [Hl _]. pose proof BUFSZ_pos. lia. }
  assert (Hbuf : buffer m = take s (buffer m) ++ R ++ NUL :: tl).
  { by rewrite <- Hdrop, take_drop. }
  set (A := take s (buffer m)) in *.
  destruct m as [b o]. cbn [buffer olds] in *.
  clearbody s. clear Hdrop. clearbody A R. subst b s. clear Hs Hb.
  destruct (span_split is_nl R) as (HR & Hnls & Hrest).
  set (nls := take (span is_nl R) R) in *. set (R1 := drop (span is_nl R) R) in *.
  assert (Hnn1 : forallb not_nul R1 = true).
  { rewrite HR in Hnn. rewrite forallb_app in Hnn. by apply andb_true_iff in Hnn as [_ ?]. }
  destruct Hrest as [Hnil | (c & r1 & Hc & Hcnl)].
  - (* only newlines *)
    rewrite Hnil, app_nil_r in HR. rewrite HR.
    rewrite strtok_shape_none by done. intros [= <- <-]. cbn [buffer olds].
    split_and!; [| done |].
    + rewrite <- (app_nil_r nls). rewrite tokens_skip by done. apply tokens_nil.
    + rewrite peek_app. by rewrite list_lookup_middle.
  - destruct (span_split not_nl R1) as (HR1 & Ht & Hrest).
    set (t := take (span not_nl R1) R1) in *. set (R2 := drop (span not_nl R1) R1) in *.
    assert (Hne : t ≠ []).
    { unfold t. rewrite Hc. cbn. unfold not_nl. by rewrite Hcnl. }
    assert (Hnnt : forallb not_nul t = true).
    { rewrite HR1 in Hnn1. rewrite forallb_app in Hnn1. by apply andb_true_iff in Hnn1 as [? _]. }
    assert (Hpos : length A + length nls = length (A ++ nls)) by (by rewrite length_app).
    destruct Hrest as [Hnil | (c' & R' & Hc' & Hcnl')].
    + (* the last line *)
      rewrite Hnil, app_nil_r in HR1. rewrite HR, HR1, <- app_assoc.
      rewrite strtok_shape_last by done. intros [= <- <-]. cbn [buffer olds].
      assert (Htok : cstr_at (A ++ nls ++ t ++ NUL :: tl) (length A + length nls) = t).
      { apply (cstr_at_app A (nls ++ t ++ NUL :: tl) t tl); [|done].
        by rewrite drop_app_length. }
      rewrite Htok. split_and!; [done | by apply not_nl_no_nul_in_line | |].
      * rewrite tokens_skip by done.
        replace (length A + length nls + length t) with (length (A ++ nls ++ t) + 0)
          by (rewrite !length_app; lia).
        replace (A ++ nls ++ t ++ NUL :: tl) with ((A ++ nls ++ t) ++ NUL :: tl)
          by (by rewrite <- !app_assoc).
        rewrite (cstr_at_app (A ++ nls ++ t) (NUL :: tl) [] tl 0) by done.
        rewrite tokens_nil. by apply tokens_last.
      * left. split; [done|].
        replace (length A + length nls + length t) with (length (A ++ nls ++ t) + 0)
          by (rewrite !length_app; lia).
        replace (A ++ nls ++ t ++ NUL :: tl) with ((A ++ nls ++ t) ++ NUL :: tl)
          by (by rewrite <- !app_assoc).
        by rewrite peek_app.
    + (* a line and more *)
      assert (c' = NL) as ->.
      { unfold not_nl in Hcnl'. apply negb_false_iff in Hcnl'. by apply is_nl_true. }
      assert (HnnR' : forallb not_nul R' = true).
      { rewrite HR1, Hc' in Hnn1. rewrite forallb_app in Hnn1.
        apply andb_true_iff in Hnn1 as [_ Hx]. cbn in Hx. exact Hx. }
      rewrite HR, HR1, Hc', <- !app_assoc. cbn [app].
      rewrite strtok_shape_line by done. intros [= <- <-]. cbn [buffer olds].
      assert (Htok : cstr_at (A ++ nls ++ t ++ NUL :: R' ++ NUL :: tl)
                       (length A + length nls) = t).
      { apply (cstr_at_app A (nls ++ t ++ NUL :: R' ++ NUL :: tl) t (R' ++ NUL :: tl)); [|done].
        by rewrite drop_app_length. }
      rewrite Htok. split_and!; [done | by apply not_nl_no_nul_in_line | |].
      * rewrite tokens_skip by done. rewrite tokens_line by done. f_equal. f_equal.
        replace (S (length A + length nls + length t))
          with (length (A ++ nls ++ t ++ [NUL]) + 0)
          by (rewrite !length_app; cbn; lia).
        replace (A ++ nls ++ t ++ NUL :: R' ++ NUL :: tl)
          with ((A ++ nls ++ t ++ [NUL]) ++ R' ++ NUL :: tl)
          by (by rewrite <- !app_assoc).
        symmetry. by apply (cstr_at_app _ (R' ++ NUL :: tl) R' tl 0).
      * by right.
Qed.

(** ** [exec_cmd]: long output is cut to the size of the buffer *)

Lemma length_cstr_at_0 b : length (cstr_at b 0) = strlen_at b 0.
Proof.
  rewrite cstr_at_0, strlen_at_0, length_take. pose proof (span_le_length not_nul b). lia.
Qed.

Lemma read_all_cut fuel fp b :
  buffer_ok b → forallb not_nul fp = true → length fp ≤ fuel →
  cstr_at (read_all fuel fp b) 0 = take (BUFSZ - 1) (cstr_at b 0 ++ fp).
Proof.
  revert fp b. induction fuel as [|fuel IH]; intros fp b Hb Hnn Hfuel.
  all: pose proof (strlen_bound b 0 Hb ltac:(lia)) as Hd; rewrite Nat.add_0_l in Hd.
  all: pose proof (length_cstr_at_0 b) as Hlc.
  { destruct fp; simpl in *; [|lia]. rewrite app_nil_r, take_ge; [done|lia]. }
  simpl. unfold fgets. destruct fp as [|c fp].
  { rewrite app_nil_r, take_ge; [done|lia]. }
  destruct (fgets_aux (MAX_LINE - 1) (c :: fp)) as [line fp'] eqn:E.
  destruct (fgets_aux_split _ _ _ _ E) as [Hsplit Hne].
  specialize (Hne ltac:(pose proof MAX_LINE_gt; lia) ltac:(done)).
  assert (forallb not_nul line = true ∧ forallb not_nul fp' = true) as [Hl Hr].
  { rewrite <- Hsplit, forallb_app in Hnn. by apply andb_true_iff. }
  assert (length line + length fp' = length (c :: fp)) as Hlen.
  { by rewrite <- Hsplit, length_app. }
  assert (0 < length line) by (destruct line; simpl; [done|lia]).
  destruct (Hb) as [Hbl _]. pose proof BUFSZ_pos.
  destruct (strncat_spec b line (BUFSZ - strlen_at b 0 - 1)) as (_ & Hc & _); [lia|].
  rewrite cstr_no_nul in Hc by done.
  rewrite IH; [|by apply buffer_ok_strncat|done|lia].
  rewrite Hc, <- Hsplit. set (n := BUFSZ - strlen_at b 0 - 1) in *.
  destruct (decide (length line ≤ n)) as [Hle|Hgt].
  - by rewrite (take_ge line), <- app_assoc by done.
  - replace (BUFSZ - 1) with (length (cstr_at b 0) + n) by lia.
    rewrite <- !app_assoc, !take_app_add.
    rewrite !(take_app_le _ _ n) by (rewrite ?length_take; lia).
    by rewrite take_take, Nat.min_id.
Qed.

Section ExecCut.
Context {W : Type} `{Host W}.

(** X1: after [exec_cmd] the static buffer holds, as a C string, the standard
    output of the command cut to the [BUFSZ - 1] bytes that fit before the
    terminator (so all of it when it is shorter), and the empty string when
    [popen] fails; the array keeps its size and its final NUL, and the saved
    pointer of [strtok] is not touched. *)
Theorem exec_cmd_stores_output (w : W) cmd m :
  buffer_ok (buffer m) →
  buffer_ok (buffer (exec_cmd w cmd m)) ∧
  olds (exec_cmd w cmd m) = olds m ∧
  (popen_out w cmd = None → cstr_at (buffer (exec_cmd w cmd m)) 0 = []) ∧
  (∀ out, popen_out w cmd = Some out → forallb not_nul out = true →
     cstr_at (buffer (exec_cmd w cmd m)) 0 = take (BUFSZ - 1) out ∧
     (length out < BUFSZ → cstr_at (buffer (exec_cmd w cmd m)) 0 = out)).
Proof.
  intros Hb.
  assert (strlen_at (<[0 := NUL]> (buffer m)) 0 = 0) as H0.
  { rewrite strlen_at_0. destruct (buffer m); done. }
  split_and!.
  - by apply buffer_ok_exec_cmd.
  - apply olds_exec_cmd.
  - intros Hnone. unfold exec_cmd. rewrite Hnone. cbn [buffer].
    by rewrite cstr_at_0, H0, take_0.
  - intros out Hout Hnn. unfold exec_cmd. rewrite Hout. cbn [buffer].
    rewrite read_all_cut; [|by apply buffer_ok_insert_nul|done|done].
    rewrite cstr_at_0, H0, take_0. cbn [app].
    split; [done|]. intros Hlen. apply take_ge. lia.
Qed.

End ExecCut.

Lemma exec_cmd_stores_output_witness :
  cstr_at (buffer (exec_cmd host_stick (cmd_parts (cs "/dev/sdb")) mem_init)) 0
    = take (BUFSZ - 1) (nl "sdb1" ++ nl "sdb2").
Proof.
  destruct (exec_cmd_stores_output host_stick (cmd_parts (cs "/dev/sdb")) mem_init)
    as (_ & _ & _ & Hout).
  - split; vm_compute; reflexivity.
  - destruct (Hout (nl "sdb1" ++ nl "sdb2")) as [Hcut _].
    + vm_compute. reflexivity.
    + vm_compute. reflexivity.
    + exact Hcut.
Defined.

(** ** [get_root_drive]: the first line of the output, cut to the array *)

Lemma first_line_cons t rest : forallb not_nl t = true → first_line (t ++ NL :: rest) = t.
Proof.
  intros Ht. unfold first_line. rewrite span_app_all by done. cbn [span].
  change (not_nl NL) with false. cbv iota. rewrite Nat.add_0_r. apply take_app_length.
Qed.

Lemma first_line_whole t : forallb not_nl t = true → first_line t = t.
Proof. intros Ht. unfold first_line. rewrite span_all by done. by apply take_ge. Qed.

Lemma first_line_in_line s :
  forallb not_nul s = true → forallb in_line (first_line s) = true.
Proof.
  intros Hs. apply not_nl_no_nul_in_line; [apply span_take_all|by apply forallb_take].
Qed.

(** Cutting the string at the start of the buffer at its first newline. *)
Lemma strip_newline_first_line b :
  buffer_ok b → cstr_at (strip_newline b 0) 0 = first_line (cstr_at b 0).
Proof.
  intros Hb. pose proof BUFSZ_pos.
  destruct (drop_cstr_at b 0 Hb ltac:(lia)) as [tl Hdrop]. rewrite drop_0 in Hdrop.
  pose proof (cstr_at_no_nul b 0) as Hnn. set (R := cstr_at b 0) in *. clearbody R.
  subst b. clear Hb. unfold strip_newline, strcspn_nl. rewrite drop_0, Nat.add_0_l.
  rewrite span_in_line_no_nul by done.
  destruct (span_split not_nl R) as (HR & Ht & Hrest). unfold first_line.
  set (t := take (span not_nl R) R) in *. set (R2 := drop (span not_nl R) R) in *.
  assert (Hk : span not_nl R = length t).
  { unfold t. rewrite length_take. pose proof (span_le_length not_nl R). lia. }
  assert (Hnt : forallb not_nul t = true) by (by apply forallb_take).
  rewrite Hk. clearbody t R2. subst R. clear Hk.
  destruct Hrest as [-> | (c & R' & -> & Hc)].
  - rewrite app_nil_r.
    replace (peek (t ++ NUL :: tl) (length t)) with NUL
      by (unfold peek; by rewrite list_lookup_middle).
    change (is_nl NUL) with false. cbv iota.
    by apply (cstr_at_app [] (t ++ NUL :: tl) t tl 0).
  - assert (c = NL) as ->.
    { unfold not_nl in Hc. apply negb_false_iff in Hc. by apply is_nl_true. }
    rewrite <- app_assoc. cbn [app].
    replace (peek (t ++ NL :: R' ++ NUL :: tl) (length t)) with NL
      by (unfold peek; by rewrite list_lookup_middle).
    change (is_nl NL) with true. cbv iota.
    replace (length t) with (length t + 0) at 1 by lia.
    rewrite insert_app_r. cbn [insert list_insert].
    by apply (cstr_at_app [] (t ++ NUL :: R' ++ NUL :: tl) t (R' ++ NUL :: tl) 0).
Qed.

Section RootDrive.
Context {W : Type} `{Host W}.

(** X2: [get_root_drive] with a 64-byte array yields the first line of the
    output of the root query, cut to 63 bytes: it holds no newline and no
    NUL, it is empty when [popen] fails or the output starts with a newline,
    and the buffer and the saved pointer of [strtok] stay well formed. *)
Theorem root_drive_is_first_line (w : W) m :
  buffer_ok (buffer m) →
  let r := fst (get_root_drive w 64 m) in
  length r ≤ 63 ∧ forallb in_line r = true ∧
  buffer_ok (buffer (snd (get_root_drive w 64 m))) ∧
  olds (snd (get_root_drive w 64 m)) = olds m ∧
  (popen_out w cmd_root = None → r = []) ∧
  (∀ out, popen_out w cmd_root = Some out → forallb not_nul out = true →
     length out < BUFSZ → r = take 63 (first_line out)).
Proof.
  intros Hb r. unfold get_root_drive in r. cbn [fst] in r.
  unfold get_root_drive. cbn [snd buffer olds].
  pose proof (buffer_ok_exec_cmd w cmd_root m Hb) as Hb1.
  assert (Hr : r = take 63 (first_line (cstr_at (buffer (exec_cmd w cmd_root m)) 0))).
  { unfold r. by rewrite strip_newline_first_line. }
  split_and!.
  - rewrite Hr, length_take. lia.
  - rewrite Hr. apply forallb_take, first_line_in_line, cstr_at_no_nul.
  - by apply buffer_ok_strip_newline.
  - apply olds_exec_cmd.
  - intros Hnone. rewrite Hr. unfold exec_cmd. rewrite Hnone. cbn [buffer].
    rewrite cstr_at_0, strlen_at_0. by destruct (buffer m).
  - intros out Hout Hnn Hlen. rewrite Hr. by rewrite (exec_cmd_result w cmd_root m out).
Qed.

End RootDrive.

Lemma root_drive_is_first_line_witness :
  fst (get_root_drive host_root 64 mem_init) = take 63 (first_line (nl "sda")).
Proof.
  destruct (root_drive_is_first_line host_root mem_init) as (_ & _ & _ & _ & _ & Hout).
  - split; vm_compute; reflexivity.
  - apply (Hout (nl "sda")).
    + vm_compute. reflexivity.
    + vm_compute. reflexivity.
    + vm_compute. lia.
Defined.

(** ** Every stored string fits its array *)

Lemma fits_spec d :
  fits d = true ↔
  length (path d) < MAX_PATH ∧ length (size d) < 64 ∧ length (model d) < 128 ∧
  length (vendor d) < 128 ∧ length (transport d) < 32 ∧ mount_count d ≤ MAX_MOUNTS ∧
  length (mountpoints d) = MAX_MOUNTS ∧
  forallb (λ mp, length mp <? MAX_PATH) (mountpoints d) = true.
Proof.
  unfold fits. rewrite !andb_true_iff, !Nat.ltb_lt, Nat.leb_le, Nat.eqb_eq. tauto.
Qed.

Lemma forallb_insert {A} (p : A → bool) i x (l : list A) :
  p x = true → forallb p l = true → forallb p (<[i := x]> l) = true.
Proof.
  intros Hx. revert i. induction l as [|y l IH]; intros [|i]; simpl; try done.
  - intros [_ Hl]%andb_true_iff. by rewrite Hx.
  - intros [Hy Hl]%andb_true_iff. by rewrite Hy, IH.
Qed.

Lemma forallb_lookup {A} (p : A → bool) (l : list A) i x :
  forallb p l = true → l !! i = Some x → p x = true.
Proof.
  revert i. induction l as [|y l IH]; intros [|i]; simpl; try done.
  - intros [Hy _]%andb_true_iff [= <-]. done.
  - intros [_ Hl]%andb_true_iff Hi. by apply (IH i).
Qed.

Lemma scan_s_width width s t r : scan_s width s = Some (t, r) → length t ≤ width.
Proof.
  unfold scan_s. destruct (drop _ s); [done|]. intros [= <- _].
  rewrite length_take. lia.
Qed.

Lemma sscanf_info_fits s info : fits info = true → fits (sscanf_info s info) = true.
Proof.
  rewrite !fits_spec. intros (Hp & Hs & Hm & Hv & Ht & Hc & Hl & Hall).
  unfold sscanf_info.
  destruct (scan_s 63 s) as [[t1 r1]|] eqn:E1; [|done].
  apply scan_s_width in E1.
  destruct (scan_s 127 r1) as [[t2 r2]|] eqn:E2; [|cbn; split_and!; done || lia].
  apply scan_s_width in E2.
  destruct (scan_s 127 r2) as [[t3 r3]|] eqn:E3; [|cbn; split_and!; done || lia].
  apply scan_s_width in E3.
  destruct (scan_s 31 r3) as [[t4 r4]|] eqn:E4; [|cbn; split_and!; done || lia].
  apply scan_s_width in E4. cbn; split_and!; done || lia.
Qed.

Lemma add_mountpoint_fits line info :
  fits info = true → mount_count info < MAX_MOUNTS → fits (add_mountpoint line info) = true.
Proof.
  rewrite !fits_spec. intros (Hp & Hs & Hm & Hv & Ht & Hc & Hl & Hall) Hlt.
  cbn. rewrite length_insert. split_and!; try done; try lia.
  apply forallb_insert; [|done]. apply Nat.ltb_lt. rewrite length_take.
  pose proof MAX_PATH_eq. lia.
Qed.

Lemma mount_loop_fits fuel line info m info' m' :
  mount_loop fuel line info m = Ok (info', m') → fits info = true → fits info' = true.
Proof.
  revert line info m. induction fuel as [|fuel IH]; intros line info m;
    rewrite mount_loop_unfold.
  - destruct line as [l|]; [case_decide; [done|]|]; intros [= <- <-]; done.
  - destruct line as [l|]; [case_decide|]; try (intros [= <- <-]; done).
    cbv zeta. destruct (strtok None m) as [line' m1].
    intros Hloop Hfit. apply IH in Hloop; [done|].
    destruct (Ascii.eqb _ _); [by apply add_mountpoint_fits|done].
Qed.

(** A call of [strtok] that finds no token leaves the saved pointer at a
    NUL, so the next call finds none either. *)
Lemma strtok_none_at_nul str m m' :
  strtok str m = (None, m') → peek (buffer m') (olds m') = NUL.
Proof.
  unfold strtok.
  destruct (is_nul (peek (buffer m) (default (olds m) str))) eqn:E1.
  { intros [= <-]. cbn. by apply is_nul_true. }
  destruct (is_nul (peek (buffer m) (default (olds m) str + _))) eqn:E2.
  { intros [= <-]. cbn. by apply is_nul_true. }
  destruct (is_nul (peek _ (_ + strcspn_nl _ _))); intros [=].
Qed.

Lemma strtok_at_nul m : peek (buffer m) (olds m) = NUL → fst (strtok None m) = None.
Proof. intros Hz. unfold strtok. cbn [default id]. by rewrite Hz. Qed.

(** The mount-point loop ends with the eight slots in use or with the lines
    of the buffer used up. *)
Lemma mount_loop_ends fuel line info m info' m' :
  mount_loop fuel line info m = Ok (info', m') →
  (line = None → peek (buffer m) (olds m) = NUL) →
  mount_count info ≤ MAX_MOUNTS →
  mount_count info' = MAX_MOUNTS ∨ peek (buffer m') (olds m') = NUL.
Proof.
  revert line info m. induction fuel as [|fuel IH]; intros line info m;
    rewrite mount_loop_unfold.
  - destruct line as [l|]; [case_decide; [done|]|]; intros [= <- <-] Hz Hc.
    + left. lia.
    + right. by apply Hz.
  - destruct line as [l|]; [case_decide as Hlt|]; try (intros [= <- <-] Hz Hc).
    + cbv zeta. destruct (strtok None m) as [line' m1] eqn:Htok.
      intros Hloop _ Hc. apply IH in Hloop; [done| |].
      * intros ->. by apply strtok_none_at_nul in Htok.
      * destruct (Ascii.eqb _ _); cbn; lia.
    + left. lia.
    + right. by apply Hz.
Qed.

Section Capacity.
Context {W : Type} `{Host W}.

Lemma get_drive_info_fits (w : W) drive info m info' m' :
  get_drive_info w drive info m = Ok (info', m') →
  fits info = true → fits info' = true.
Proof.
  unfold get_drive_info. case_decide as Hlen; [|done].
  cbv zeta. destruct (strtok (Some 0) _) as [line m3].
  intros Hloop Hfit. apply mount_loop_fits in Hloop; [done|].
  apply sscanf_info_fits. apply fits_spec in Hfit as (Hp & Hs & Hm & Hv & Ht & Hc & Hl & Hall).
  apply fits_spec. cbn. split_and!; done || lia.
Qed.

Lemma get_drive_info_ends (w : W) drive info m info' m' :
  get_drive_info w drive info m = Ok (info', m') →
  mount_count info' = MAX_MOUNTS ∨ peek (buffer m') (olds m') = NUL.
Proof.
  unfold get_drive_info. case_decide as Hlen; [|done].
  cbv zeta. destruct (strtok (Some 0) _) as [line m3] eqn:Htok.
  intros Hloop. apply mount_loop_ends in Hloop; [done| |].
  - intros ->. by apply strtok_none_at_nul in Htok.
  - destruct (sscanf_info_fixed
      (cstr_at (buffer (exec_cmd w (cmd_detail (cstr_at (buffer m) drive)) m)) 0)
      (set_mount_count 0 (set_path (cstr_at (buffer m) drive) info))) as (_ & -> & _).
    cbn. lia.
Qed.

Lemma drives_loop_frame (w : W) k line count drives m count' drives' m' :
  drives_loop w k line count drives m = Ok (count', drives', m') →
  count ≤ length drives →
  count' ≤ length drives ∧
  (∀ i, count' ≤ i → drives' !! i = drives !! i) ∧
  (forallb fits drives = true → forallb fits drives' = true) ∧
  (∀ i d, count ≤ i → S i < count' → drives' !! i = Some d →
     mount_count d = MAX_MOUNTS).
Proof.
  revert line count drives m.
  induction k as [|k IH]; intros line count drives m; simpl;
    destruct line as [l|]; try (intros [= <- <- <-] Hc; split_and!; try done; try lia;
      intros; lia).
  destruct (drives !! count) as [slot|] eqn:Hslot; [|done].
  destruct (get_drive_info w l slot m) as [[info m1]| |] eqn:Hinfo; [|done|done].
  destruct (strtok None m1) as [line' m2] eqn:Htok.
  intros Hloop Hcount.
  pose proof (lookup_lt_Some _ _ _ Hslot) as Hlt.
  pose proof (drives_loop_bounds _ _ _ _ _ _ _ _ _ Hloop) as (Hge & _ & _ & Hkeep & _).
  pose proof Hloop as Hloop'.
  apply IH in Hloop as (H1 & H2 & H3 & H4); [|rewrite length_insert; lia].
  rewrite length_insert in H1.
  split_and!; [done| | |].
  - intros i Hi. rewrite H2 by done. apply list_lookup_insert_ne. lia.
  - intros Hall. apply H3. apply forallb_insert; [|done].
    apply (get_drive_info_fits _ _ _ _ _ _ Hinfo).
    by apply (forallb_lookup _ _ _ _ Hall Hslot).
  - intros i d Hi1 Hi2 Hd.
    destruct (decide (i = count)) as [->|Hne]; [|apply (H4 i); [lia|done|done]].
    rewrite Hkeep in Hd by lia.
    rewrite list_lookup_insert_eq in Hd by done. simplify_eq.
    destruct (get_drive_info_ends _ _ _ _ _ _ Hinfo) as [Hfull|Hz]; [done|].
    pose proof (strtok_at_nul m1 Hz) as Hnone. rewrite Htok in Hnone. cbn in Hnone.
    subst line'. destruct k; simpl in Hloop'; simplify_eq; lia.
Qed.

Lemma get_drives_count_le (w : W) drives max_drives m count drives' m' :
  get_drives w drives max_drives m = Ok (count, drives', m') →
  count ≤ length drives' ∧ length drives' = length drives.
Proof.
  unfold get_drives.
  destruct (get_root_drive w 64 m) as [root_drive m1].
  destruct (strtok (Some 0) _) as [line m3].
  intros Hloop.
  pose proof (drives_loop_bounds _ _ _ _ _ _ _ _ _ Hloop) as (_ & _ & Hlen & _).
  apply drives_loop_frame in Hloop as (Hc & _); [|lia]. split; [lia|done].
Qed.

(** X3: [get_drives] keeps every record within the capacities of
    [DriveInfo]: if the strings of the records fit their arrays before the
    call (path and mount points below 256 bytes, size below 64, model and
    vendor below 128, transport below 32, at most 8 mount points in 8
    slots), they do after it. *)
Theorem records_fit_their_arrays (w : W) drives max_drives m count drives' m' :
  forallb fits drives = true →
  get_drives w drives max_drives m = Ok (count, drives', m') →
  forallb fits drives' = true.
Proof.
  intros Hall. unfold get_drives.
  destruct (get_root_drive w 64 m) as [root_drive m1].
  destruct (strtok (Some 0) _) as [line m3].
  intros Hloop. apply drives_loop_frame in Hloop as (_ & _ & Hfit & _); [|lia].
  by apply Hfit.
Qed.

(** X4: [get_drives] stores only into the first [count] records: the count
    it returns is within the array, the array keeps its length, and every
    record from index [count] on is what it was before the call. *)
Theorem get_drives_writes_below_count (w : W) drives max_drives m count drives' m' :
  get_drives w drives max_drives m = Ok (count, drives', m') →
  count ≤ length drives ∧ count ≤ max_drives ∧ length drives' = length drives ∧
  ∀ i, count ≤ i → drives' !! i = drives !! i.
Proof.
  unfold get_drives.
  destruct (get_root_drive w 64 m) as [root_drive m1].
  destruct (strtok (Some 0) _) as [line m3].
  intros Hloop.
  pose proof (drives_loop_bounds _ _ _ _ _ _ _ _ _ Hloop) as (_ & Hmax & Hlen & _).
  apply drives_loop_frame in Hloop as (Hc & Hkeep & _); [|lia].
  split_and!; [done|lia|done|done].
Qed.

(** X5: the listing loop of [get_drives] goes on to a further device only
    when the mount-point loop of the record before it stopped at its limit:
    every record of the catalog except the last one has all eight
    mount-point slots in use, so a first record with fewer than eight mount
    points is the only record. *)
Theorem only_last_record_below_eight (w : W) drives max_drives m count drives' m' :
  get_drives w drives max_drives m = Ok (count, drives', m') →
  (∀ i d, S i < count → drives' !! i = Some d → mount_count d = 8) ∧
  (∀ d, drives' !! 0 = Some d → mount_count d < 8 → count ≤ 1).
Proof.
  unfold get_drives.
  destruct (get_root_drive w 64 m) as [root_drive m1].
  destruct (strtok (Some 0) _) as [line m3].
  intros Hloop. apply drives_loop_frame in Hloop as (_ & _ & _ & Hfull); [|lia].
  rewrite MAX_MOUNTS_eq in Hfull.
  split.
  - intros i d Hi Hd. apply (Hfull i); [lia|done|done].
  - intros d Hd Hlt. destruct (decide (count ≤ 1)) as [|Hgt]; [done|].
    specialize (Hfull 0 d ltac:(lia) ltac:(lia) Hd). lia.
Qed.

End Capacity.

Lemma records_fit_their_arrays_witness :
  ∃ count drives' m',
    get_drives host_root no_drives MAX_DRIVES mem_init = Ok (count, drives', m') ∧
    forallb fits drives' = true.
Proof.
  assert (∃ count drives' m',
    get_drives host_root no_drives MAX_DRIVES mem_init = Ok (count, drives', m'))
    as (count & drives' & m' & Hget) by (eexists _, _, _; vm_compute; reflexivity).
  exists count, drives', m'. split; [exact Hget|].
  apply (records_fit_their_arrays host_root no_drives MAX_DRIVES mem_init count drives' m').
  - vm_compute. reflexivity.
  - exact Hget.
Defined.

Lemma get_drives_writes_below_count_witness :
  ∃ drives' m',
    get_drives host_stick no_drives MAX_DRIVES mem_init = Ok (1, drives', m') ∧
    ∀ i, 1 ≤ i → drives' !! i = no_drives !! i.
Proof.
  assert (∃ drives' m',
    get_drives host_stick no_drives MAX_DRIVES mem_init = Ok (1, drives', m'))
    as (drives' & m' & Hget) by (eexists _, _; vm_compute; reflexivity).
  exists drives', m'. split; [exact Hget|].
  apply (get_drives_writes_below_count host_stick no_drives MAX_DRIVES mem_init
           1 drives' m' Hget).
Defined.

Lemma only_last_record_below_eight_witness :
  ∃ d0 d1 drives' m',
    get_drives host_root no_drives MAX_DRIVES mem_init = Ok (2, d0 :: d1 :: drives', m') ∧
    mount_count d0 = 8.
Proof.
  assert (∃ d0 d1 drives' m',
    get_drives host_root no_drives MAX_DRIVES mem_init = Ok (2, d0 :: d1 :: drives', m'))
    as (d0 & d1 & drives' & m' & Hget) by (eexists _, _, _, _; vm_compute; reflexivity).
  exists d0, d1, drives', m'. split; [exact Hget|].
  destruct (only_last_record_below_eight host_root no_drives MAX_DRIVES mem_init
              2 (d0 :: d1 :: drives') m' Hget) as [Hfull _].
  apply (Hfull 0 d0); [lia|reflexivity].
Defined.

(** ** The lines the loops of the catalog builder work on *)

Lemma tokens_nil_iff s : tokens s = [] ↔ forallb is_nl s = true.
Proof.
  split.
  - induction s as [|c s IH]; [done|]. intros Ht. cbn [forallb].
    destruct (is_nl c) eqn:Hc.
    + apply IH. rewrite <- Ht. symmetry. apply (tokens_skip [c] s). cbn. by rewrite Hc.
    + exfalso. revert Ht. unfold tokens. cbn [split_nl]. rewrite Hc.
      by destruct (split_nl s).
  - intros Hs. rewrite <- (app_nil_r s). rewrite tokens_skip by done. apply tokens_nil.
Qed.

Lemma cstr_at_nul b o : peek b o = NUL → cstr_at b o = [].
Proof.
  unfold peek, cstr_at, strlen_at. rewrite <- (Nat.add_0_r o) at 1.
  rewrite <- lookup_drop. destruct (drop o b) as [|c l]; [done|].
  cbn. intros ->. done.
Qed.

Lemma peek_cstr_at b o c tok : cstr_at b o = c :: tok → peek b o = c.
Proof.
  unfold peek, cstr_at, strlen_at. rewrite <- (Nat.add_0_r o) at 3.
  rewrite <- lookup_drop. destruct (drop o b) as [|x l]; [done|].
  cbn. destruct (not_nul x); [|done]. by intros [= -> _].
Qed.

Lemma mount_list_add line info :
  mount_count info < length (mountpoints info) →
  mount_list (add_mountpoint line info) = mount_list info ++ [take (MAX_PATH - 1) line].
Proof.
  intros Hlt. unfold mount_list, add_mountpoint. cbn.
  set (c := mount_count info) in *. set (mps := mountpoints info) in *.
  destruct (lookup_lt_is_Some_2 mps c Hlt) as [old Hold].
  rewrite (take_S_r _ _ (take (MAX_PATH - 1) line)).
  - f_equal. by rewrite take_insert_ge by lia.
  - by rewrite list_lookup_insert_eq.
Qed.

(** The mount-point loop over the current line and the lines that are left:
    it appends the lines that start with a slash, each cut to the slot, and
    stops at eight. *)
Lemma mount_loop_lines fuel line info m info' m' :
  buffer_ok (buffer m) → olds m ≤ BUFSZ - 1 →
  length (mountpoints info) = MAX_MOUNTS → mount_count info ≤ MAX_MOUNTS →
  (line = None → peek (buffer m) (olds m) = NUL) →
  (∀ l, line = Some l → cstr_at (buffer m) l ≠ []) →
  mount_loop fuel line info m = Ok (info', m') →
  mount_list info' =
    take MAX_MOUNTS
      (mount_list info ++
       (take (MAX_PATH - 1) <$>
          List.filter is_abs
            (match line with Some l => [cstr_at (buffer m) l] | None => [] end
             ++ tokens (cstr_at (buffer m) (olds m))))).
Proof.
  assert (Hstop : ∀ info, length (mountpoints info) = MAX_MOUNTS →
            mount_count info = MAX_MOUNTS → ∀ rest,
            mount_list info = take MAX_MOUNTS (mount_list info ++ rest)).
  { intros i0 Hl0 Hc0 rest.
    assert (length (mount_list i0) = MAX_MOUNTS)
      by (unfold mount_list; rewrite length_take; lia).
    rewrite take_app_le by lia. by rewrite take_ge by lia. }
  assert (Hend : ∀ info (m : mem), length (mountpoints info) = MAX_MOUNTS →
            mount_count info ≤ MAX_MOUNTS → peek (buffer m) (olds m) = NUL →
            mount_list info = take MAX_MOUNTS (mount_list info ++
              (take (MAX_PATH - 1) <$> List.filter is_abs
                 ([] ++ tokens (cstr_at (buffer m) (olds m)))))).
  { intros i0 m0 Hl0 Hc0 Hz. rewrite (cstr_at_nul _ _ Hz), tokens_nil. cbn.
    assert (length (mount_list i0) ≤ MAX_MOUNTS)
      by (unfold mount_list; rewrite length_take; lia).
    by rewrite app_nil_r, take_ge by lia. }
  revert line info m. induction fuel as [|fuel IH]; intros line info m Hb Ho Hlen Hc Hnone Hsome;
    rewrite mount_loop_unfold.
  { destruct line as [l|]; [case_decide as Hlt; [done|]|]; intros [= <- <-].
    - apply Hstop; [done|lia].
    - by apply Hend; auto. }
  destruct line as [l|]; [case_decide as Hlt|]; cycle 1.
  { intros [= <- <-]. apply Hstop; [done|lia]. }
  { intros [= <- <-]. by apply Hend; auto. }
  cbv zeta. destruct (strtok None m) as [line' m1] eqn:Htok.
  pose proof (strtok_spec None m _ _ Hb Ho Htok) as (Hb1 & Ho1 & _ & _).
  pose proof (strtok_tokens None m _ _ Hb Ho Htok) as Hlines. cbn [default id] in Hlines.
  set (tok := cstr_at (buffer m) l) in *.
  assert (Hpeek : Ascii.eqb (peek (buffer m) l) SLASH = is_abs tok).
  { specialize (Hsome l eq_refl). destruct tok as [|c tok'] eqn:Etok; [done|].
    by rewrite (peek_cstr_at _ _ _ _ Etok). }
  rewrite Hpeek. intros Hloop. apply IH in Hloop; try done.
  - rewrite Hloop. f_equal.
    assert (Hrest : match line' with Some l0 => [cstr_at (buffer m1) l0] | None => [] end
                    ++ tokens (cstr_at (buffer m1) (olds m1))
                    = tokens (cstr_at (buffer m) (olds m))).
    { destruct line' as [pos|].
      - destruct Hlines as (_ & _ & -> & _). done.
      - destruct Hlines as (-> & _ & Hz). by rewrite (cstr_at_nul _ _ Hz), tokens_nil. }
    rewrite Hrest. cbn [app List.filter].
    destruct (is_abs tok).
    + rewrite mount_list_add by lia. by rewrite <- app_assoc.
    + done.
  - by destruct (is_abs tok); cbn; rewrite ?length_insert.
  - destruct (is_abs tok); cbn; lia.
  - intros ->. by apply strtok_none_at_nul in Htok.
  - intros pos ->. by destruct Hlines as (? & _).
Qed.

Section Lines.
Context {W : Type} `{Host W}.

(** X6: the mount points [get_drive_info] stores are the lines of the
    mount-point output in the buffer that start with a slash: empty lines
    and other lines are skipped, each line is cut to 255 bytes, and only the
    first eight are kept. *)
Theorem mount_points_are_slash_lines (w : W) drive info m info' m' :
  buffer_ok (buffer m) → length (mountpoints info) = MAX_MOUNTS →
  get_drive_info w drive info m = Ok (info', m') →
  mount_list info' =
    take 8 (take 255 <$> List.filter is_abs (tokens (device_mount_output w drive m))).
Proof.
  intros Hb Hlen. unfold get_drive_info, device_mount_output. case_decide as Hp; [|done].
  cbv zeta.
  set (m1 := exec_cmd w (cmd_detail _) m).
  set (m2 := exec_cmd w (cmd_mount _) m1).
  set (info0 := sscanf_info _ _).
  assert (Hb2 : buffer_ok (buffer m2)) by (by do 2 apply buffer_ok_exec_cmd).
  destruct (sscanf_info_fixed (cstr_at (buffer m1) 0)
              (set_mount_count 0 (set_path (cstr_at (buffer m) drive) info)))
    as (_ & Hc0 & Hm0).
  fold info0 in Hc0, Hm0. cbn in Hc0, Hm0.
  destruct (strtok (Some 0) m2) as [line m3] eqn:Htok.
  pose proof (strtok_spec (Some 0) m2 _ _ Hb2 ltac:(cbn; lia) Htok) as (Hb3 & Ho3 & _ & _).
  pose proof (strtok_tokens (Some 0) m2 _ _ Hb2 ltac:(cbn; lia) Htok) as Hlines.
  cbn [default id] in Hlines.
  intros Hloop. apply mount_loop_lines in Hloop; try done.
  - rewrite Hloop, <- MAX_MOUNTS_eq.
    replace (MAX_PATH - 1) with 255 by (rewrite MAX_PATH_eq; lia).
    unfold mount_list at 1. rewrite Hc0, take_0. cbn [app]. do 3 f_equal.
    destruct line as [pos|].
    + destruct Hlines as (_ & _ & -> & _). done.
    + destruct Hlines as (-> & _ & Hz). by rewrite (cstr_at_nul _ _ Hz), tokens_nil.
  - congruence.
  - lia.
  - intros ->. by apply strtok_none_at_nul in Htok.
  - intros pos ->. by destruct Hlines as (? & _).
Qed.

(** X7: [get_drives] returns an empty catalog exactly when the device
    listing has no line to offer: [popen] failed, or the output is empty or
    holds newlines only.  The array is then left as it was. *)
Theorem empty_listing_empty_catalog (w : W) drives max_drives m count drives' m' :
  buffer_ok (buffer m) → 0 < max_drives →
  get_drives w drives max_drives m = Ok (count, drives', m') →
  let cmd := cmd_list (fst (get_root_drive w 64 m)) in
  (count = 0 → drives' = drives) ∧
  (popen_out w cmd = None → count = 0) ∧
  (∀ out, popen_out w cmd = Some out → forallb not_nul out = true → length out < BUFSZ →
     (count = 0 ↔ forallb is_nl out = true)).
Proof.
  intros Hb Hmax. unfold get_drives.
  pose proof (buffer_ok_strip_newline _ 0 (buffer_ok_exec_cmd w cmd_root m Hb)) as Hb1.
  destruct (get_root_drive w 64 m) as [root_drive m1] eqn:Hroot.
  assert (buffer m1 = strip_newline (buffer (exec_cmd w cmd_root m)) 0) as Hm1.
  { unfold get_root_drive in Hroot. by simplify_eq. }
  rewrite <- Hm1 in Hb1. cbn [fst].
  set (m2 := exec_cmd w (cmd_list root_drive) m1).
  assert (Hb2 : buffer_ok (buffer m2)) by (by apply buffer_ok_exec_cmd).
  destruct (strtok (Some 0) m2) as [line m3] eqn:Htok.
  pose proof (strtok_tokens (Some 0) m2 _ _ Hb2 ltac:(cbn; lia) Htok) as Hlines.
  cbn [default id] in Hlines.
  intros Hloop.
  assert (Hcount : count = 0 ↔ tokens (cstr_at (buffer m2) 0) = []).
  { destruct line as [pos|].
    - destruct Hlines as (_ & _ & -> & _).
      destruct max_drives as [|k]; [lia|].
      split; [|done]. intros ->. exfalso.
      revert Hloop. cbn [drives_loop]. destruct (drives !! 0); [|done].
      destruct (get_drive_info w pos d m3) as [[info m4]| |]; [|done|done].
      destruct (strtok None m4) as [line' m5]. intros Hloop.
      apply drives_loop_bounds in Hloop. lia.
    - destruct Hlines as (-> & _). destruct max_drives; cbn in Hloop; by simplify_eq. }
  split_and!.
  - intros ->. destruct line as [pos|].
    + destruct Hlines as (_ & _ & Hx & _). apply proj1 in Hcount.
      rewrite Hx in Hcount. by specialize (Hcount eq_refl).
    + destruct max_drives; cbn in Hloop; by simplify_eq.
  - intros Hnone. apply Hcount. unfold m2, exec_cmd. rewrite Hnone. cbn [buffer].
    rewrite cstr_at_0, strlen_at_0. by destruct (buffer m1).
  - intros out Hout Hnn Hlen. rewrite Hcount.
    unfold m2. rewrite (exec_cmd_result w _ m1 out) by done. apply tokens_nil_iff.
Qed.

End Lines.

Lemma mount_points_are_slash_lines_witness :
  ∃ info' m',
    get_drive_info host_root 0 blank (snd (at_first_device host_root mem_init))
      = Ok (info', m') ∧
    mount_list info' = cs <$> ["/mnt/p1"; "/mnt/p2"; "/mnt/p3"; "/mnt/p4";
                               "/mnt/p5"; "/mnt/p6"; "/mnt/p7"; "/mnt/p8"]%string.
Proof.
  assert (∃ info' m',
    get_drive_info host_root 0 blank (snd (at_first_device host_root mem_init))
      = Ok (info', m'))
    as (info' & m' & Hget) by (eexists _, _; vm_compute; reflexivity).
  exists info', m'. split; [exact Hget|].
  rewrite (mount_points_are_slash_lines host_root 0 blank
             (snd (at_first_device host_root mem_init)) info' m').
  - vm_compute. reflexivity.
  - split; vm_compute; reflexivity.
  - vm_compute. reflexivity.
  - exact Hget.
Defined.

Lemma empty_listing_empty_catalog_witness :
  ∃ drives' m',
    get_drives host_bare no_drives MAX_DRIVES mem_init = Ok (0, drives', m') ∧
    drives' = no_drives.
Proof.
  assert (∃ drives' m',
    get_drives host_bare no_drives MAX_DRIVES mem_init = Ok (0, drives', m'))
    as (drives' & m' & Hget) by (eexists _, _; vm_compute; reflexivity).
  exists drives', m'. split; [exact Hget|].
  destruct (empty_listing_empty_catalog host_bare no_drives MAX_DRIVES mem_init
              0 drives' m') as [Hkeep _].
  - split; vm_compute; reflexivity.
  - vm_compute. lia.
  - exact Hget.
  - apply Hkeep. reflexivity.
Defined.

(** ** The root device stays out of the catalog *)


Section RootExcluded.
Context {W : Type} `{Host W}.



End RootExcluded.


(** ** [unmount_drive]: what a failed unmount prevents *)

Lemma powered_off_false t :
  powered_off t = false ↔ ∀ d st, EvPowerOff d st ∉ t.
Proof.
  unfold powered_off. induction t as [|e t IH]; simpl.
  - split; [|done]. intros _ d st Hin. inversion Hin.
  - rewrite orb_false_iff, IH. split.
    + intros [He Ht] d st Hin. apply elem_of_cons in Hin as [<-|Hin]; [done|].
      by apply (Ht d st).
    + intros Hall. split.
      * destruct e; try done. exfalso. apply (Hall drive_path status). by left.
      * intros d st Hin. apply (Hall d st). by right.
Qed.

Lemma failed_in_true t :
  failed_in t = true ↔ ∃ part st, EvUnmount part st ∈ t ∧ st ≠ 0%Z.
Proof.
  split.
  - unfold failed_in. induction t as [|e t IH]; simpl; [done|].
    intros [He|Ht]%orb_true_iff.
    + destruct e; try done. exists part_path, status. split; [by left|].
      simpl in He. by apply negb_true_iff, Z.eqb_neq in He.
    + destruct (IH Ht) as (part & st & Hin & Hne). exists part, st. split; [by right|done].
  - intros (part & st & Hin & Hne).
    destruct (failed_in t) eqn:E; [done|].
    pose proof (proj1 (failed_in_false t) E part st Hin). done.
Qed.

Section Guard.
Context {W : Type} `{Host W}.

(** The events of one call of [unmount_drive]: the header and the partition
    query, the events of the loop, and the closing block, which is the
    warning when an unmount failed and the power-off otherwise. *)
Lemma unmount_drive_shape drive_path (p : proc W) :
  buffer_ok (buffer (heap p)) →
  ∃ b p' st0 tl post, unmount_drive drive_path p = Ok (b, p') ∧
    trace p' = trace p ++
      [EvClear st0; EvPrint MsgTitle; EvPrint MsgTagline;
       EvPrint (MsgSelected drive_path); EvPrint MsgUnmountingAll;
       EvQuery (cmd_parts drive_path)] ++ tl ++ post ∧
    powered_off tl = false ∧ b = negb (failed_in tl) ∧
    (if failed_in tl
     then post = [EvPrint MsgSomeFailed; EvPrint MsgMayBeInUse;
                  EvPrint MsgPressEnterContinue; EvGetchar]
     else ∃ st, post =
       [EvPrint MsgPoweringOff; EvPowerOff drive_path st] ++
       (if (st =? 0)%Z then [EvPrint (MsgEjected drive_path); EvPrint MsgSafeRemove]
        else [EvPrint MsgPowerOffFailed]) ++
       [EvPrint MsgPressEnterContinue; EvGetchar]).
Proof.
  intros Hb. unfold unmount_drive.
  destruct (show_header_spec p) as (Hh & Hin & st0 & Ht0).
  set (p0 := show_header p) in *.
  cbn [world heap stdin trace print emit with_heap with_world].
  set (m1 := exec_cmd (world p0) (cmd_parts drive_path) (heap p0)).
  assert (buffer_ok (buffer m1)) as Hb1.
  { apply buffer_ok_exec_cmd. by rewrite Hh. }
  destruct (strtok (Some 0) m1) as [partition m2] eqn:Htok.
  apply strtok_spec in Htok as (Hb2 & Ho2 & _ & _); [|done|simpl; lia].
  match goal with |- context [unmount_loop BUFSZ partition false ?q] =>
    destruct (unmount_loop_spec BUFSZ partition false q)
      as (failed' & p1 & t1 & -> & Ht1 & Hfl & Hpo & Hin1 & Hbf); [done|done|simpl; lia|]
  end.
  simpl in Ht1, Hfl, Hin1. rewrite Ht0 in Ht1. subst failed'.
  destruct (failed_in t1) eqn:Hf.
  - eexists _, _, st0, t1, _. split; [done|]. simpl. rewrite Ht1, Hf.
    split; [by rewrite <- !app_assoc|]. done.
  - destruct (system_run (world p1) (cmd_poweroff drive_path)) as [ret w'].
    destruct (ret =? 0)%Z eqn:Hret.
    + eexists _, _, st0, t1, _. split; [done|]. simpl. rewrite Ht1, Hf.
      split; [by rewrite <- !app_assoc|]. split_and!; [done|done|].
      exists ret. by rewrite Hret.
    + eexists _, _, st0, t1, _. split; [done|]. simpl. rewrite Ht1, Hf.
      split; [by rewrite <- !app_assoc|]. split_and!; [done|done|].
      exists ret. by rewrite Hret.
Qed.

(** X8: [unmount_drive] returns false exactly when an unmount command of
    the attempt returned a status other than 0; it then runs no power-off
    command and prints the warning.  When it returns true it has run the
    power-off command once, for the selected drive, after every unmount
    command of the attempt. *)
Theorem failed_unmount_blocks_poweroff drive_path (p : proc W) :
  buffer_ok (buffer (heap p)) →
  ∃ b p' t, unmount_drive drive_path p = Ok (b, p') ∧ trace p' = trace p ++ t ∧
    (b = false ↔ ∃ part st, EvUnmount part st ∈ t ∧ st ≠ 0%Z) ∧
    (b = false → (∀ d st, EvPowerOff d st ∉ t) ∧ EvPrint MsgSomeFailed ∈ t) ∧
    (b = true → ∃ t0 st t1, t = t0 ++ EvPowerOff drive_path st :: t1 ∧
                  powered_off t0 = false ∧ actions t1 = []).
Proof.
  intros Hb.
  destruct (unmount_drive_shape drive_path p Hb)
    as (b & p' & st0 & tl & post & Hrun & Ht & Hpo & Hres & Hpost).
  eexists b, p', _. split; [done|]. split; [exact Ht|].
  assert (Hfail : ∀ post',
    (post' = [EvPrint MsgSomeFailed; EvPrint MsgMayBeInUse;
              EvPrint MsgPressEnterContinue; EvGetchar] ∨
     ∃ st, post' = [EvPrint MsgPoweringOff; EvPowerOff drive_path st] ++
       (if (st =? 0)%Z then [EvPrint (MsgEjected drive_path); EvPrint MsgSafeRemove]
        else [EvPrint MsgPowerOffFailed]) ++ [EvPrint MsgPressEnterContinue; EvGetchar]) →
    failed_in ([EvClear st0; EvPrint MsgTitle; EvPrint MsgTagline;
                EvPrint (MsgSelected drive_path); EvPrint MsgUnmountingAll;
                EvQuery (cmd_parts drive_path)] ++ tl ++ post') = failed_in tl).
  { intros post' Hp. rewrite !failed_in_app.
    destruct Hp as [->|[st ->]]; [by rewrite orb_false_r|].
    destruct (st =? 0)%Z; by rewrite orb_false_r. }
  destruct (failed_in tl) eqn:Hf; subst b; cbn [negb].
  - subst post. split_and!.
    + split; [|done]. intros _. apply failed_in_true. rewrite Hfail by auto. done.
    + intros _. split; [|in_trace]. apply powered_off_false.
      by rewrite !powered_off_app, Hpo.
    + done.
  - destruct Hpost as [st ->]. split_and!.
    + split; [done|]. intros Hex. apply failed_in_true in Hex.
      rewrite Hfail in Hex by eauto. congruence.
    + done.
    + intros _.
      exists ([EvClear st0; EvPrint MsgTitle; EvPrint MsgTagline;
               EvPrint (MsgSelected drive_path); EvPrint MsgUnmountingAll;
               EvQuery (cmd_parts drive_path)] ++ tl ++ [EvPrint MsgPoweringOff]), st,
             ((if (st =? 0)%Z then [EvPrint (MsgEjected drive_path); EvPrint MsgSafeRemove]
               else [EvPrint MsgPowerOffFailed]) ++ [EvPrint MsgPressEnterContinue; EvGetchar]).
      split_and!.
      * by rewrite <- !app_assoc.
      * by rewrite !powered_off_app, Hpo.
      * by destruct (st =? 0)%Z.
Qed.

End Guard.

Lemma failed_unmount_blocks_poweroff_witness :
  ∃ b p' t,
    unmount_drive (cs "/dev/sdb") (boot host_stick [NL]) = Ok (b, p') ∧
    trace p' = [] ++ t ∧
    (b = true → ∃ t0 st t1, t = t0 ++ EvPowerOff (cs "/dev/sdb") st :: t1 ∧
                  powered_off t0 = false ∧ actions t1 = []).
Proof.
  destruct (failed_unmount_blocks_poweroff (cs "/dev/sdb") (boot host_stick [NL]))
    as (b & p' & t & Hrun & Ht & _ & _ & Hok).
  - split; vm_compute; reflexivity.
  - exists b, p', t. exact (conj Hrun (conj Ht Hok)).
Defined.

(** ** [unmount_drive] when no partition is mounted *)

Lemma BUFSZ_gt : 1 < BUFSZ.
Proof. with_strategy transparent [BUFSZ MAX_LINE] (unfold BUFSZ, MAX_LINE). lia. Qed.

Lemma queries_app t1 t2 : queries (t1 ++ t2) = queries t1 ++ queries t2.
Proof. unfold queries. induction t1 as [|e t1 IH]; cbn; [done|]. by rewrite IH, app_assoc. Qed.

Lemma actions_app t1 t2 : actions (t1 ++ t2) = actions t1 ++ actions t2.
Proof.
  unfold actions. induction t1 as [|e t1 IH]; cbn; [done|].
  destruct (is_action e); cbn; by rewrite IH.
Qed.

Lemma queries_of_queries (cmds : list (list ascii)) : queries (EvQuery <$> cmds) = cmds.
Proof. unfold queries. induction cmds as [|c cmds IH]; cbn; [done|]. by f_equal. Qed.

Lemma actions_of_queries (cmds : list (list ascii)) : actions (EvQuery <$> cmds) = [].
Proof. induction cmds as [|c cmds IH]; cbn; done. Qed.

Section Nothing.
Context {W : Type} `{Host W}.

(** A query that reports nothing leaves an empty string at the start of the
    buffer and touches no byte from the third on; the second byte is as
    before or NUL. *)
Lemma exec_cmd_nothing (w : W) cmd m :
  buffer_ok (buffer m) → reports_nothing (popen_out w cmd) = true →
  let b' := strip_newline (buffer (exec_cmd w cmd m)) 0 in
  strlen_at b' 0 = 0 ∧ (∀ i, 2 ≤ i → b' !! i = buffer m !! i) ∧
  (b' !! 1 = buffer m !! 1 ∨ b' !! 1 = Some NUL).
Proof.
  intros Hb Hq b'. pose proof BUFSZ_gt as Hsz.
  pose proof (buffer_ok_exec_cmd w cmd m Hb) as Hb1.
  set (b1 := buffer (exec_cmd w cmd m)) in *.
  assert (Hout : cstr_at b1 0 = [] ∨ cstr_at b1 0 = [NL]).
  { destruct (popen_out w cmd) as [[|c [|c' out]]|] eqn:Hp; cbn in Hq; try done.
    - left. by apply (exec_cmd_result w cmd m []); [done|done|done|cbn; lia].
    - right. apply is_nl_true in Hq as ->.
      by apply (exec_cmd_result w cmd m [NL]); [done|done|done|cbn; lia].
    - left. unfold b1, exec_cmd. rewrite Hp. cbn [buffer].
      rewrite cstr_at_0, strlen_at_0. by destruct (buffer m). }
  assert (Htail : ∀ i, length (cstr_at b1 0) < i → b1 !! i = buffer m !! i).
  { intros i Hi. apply exec_cmd_tail; [done|]. fold b1. by rewrite <- length_cstr_at_0. }
  destruct Hout as [Hout|Hout]; rewrite Hout in Htail; cbn [length] in Htail;
    pose proof (cstr_at_split b1 _ Hb1 Hout) as Hsplit; cbn [app length] in Hsplit.
  - assert (b' = b1) as ->.
    { unfold b'. rewrite Hsplit. done. }
    split_and!.
    + rewrite strlen_at_0, Hsplit. done.
    + intros i Hi. apply Htail. lia.
    + left. apply Htail. lia.
  - assert (b' = NUL :: NUL :: drop 2 b1) as ->.
    { unfold b'. rewrite Hsplit. done. }
    split_and!.
    + done.
    + intros i Hi. rewrite <- Htail by lia. rewrite Hsplit at 2.
      destruct i as [|[|i]]; [lia|lia|done].
    + by right.
Qed.

(** One turn of the loop for a partition whose mount-point query reports
    nothing: one query, no unmount, and the loop goes on in the lines that
    were left. *)
Lemma unmount_step_nothing part failed (p : proc W) :
  buffer_ok (buffer (heap p)) → olds (heap p) ≤ BUFSZ - 1 →
  (2 ≤ olds (heap p) ∨ 1 ≤ olds (heap p) ∧ peek (buffer (heap p)) (olds (heap p)) = NUL) →
  reports_nothing
    (popen_out (world p) (cmd_mount (part_path_of (cstr_at (buffer (heap p)) part)))) = true →
  ∃ next p', unmount_step part failed p = (next, failed, p') ∧
    world p' = world p ∧ stdin p' = stdin p ∧
    trace p' = trace p ++
      [EvQuery (cmd_mount (part_path_of (cstr_at (buffer (heap p)) part)))] ∧
    buffer_ok (buffer (heap p')) ∧ olds (heap p') ≤ BUFSZ - 1 ∧
    match next with
    | None => tokens (cstr_at (buffer (heap p)) (olds (heap p))) = []
    | Some pos =>
        tokens (cstr_at (buffer (heap p)) (olds (heap p)))
          = cstr_at (buffer (heap p')) pos
            :: tokens (cstr_at (buffer (heap p')) (olds (heap p'))) ∧
        2 ≤ olds (heap p') ∧ olds (heap p) < olds (heap p')
    end.
Proof.
  intros Hb Ho Hlive Hq. unfold unmount_step. fold (part_path_of (cstr_at (buffer (heap p)) part)).
  set (cmd := cmd_mount (part_path_of (cstr_at (buffer (heap p)) part))) in *.
  destruct (exec_cmd_nothing (world p) cmd (heap p) Hb Hq) as (Hlen & Htail & Hone).
  set (m1 := exec_cmd (world p) cmd (heap p)) in *.
  set (b := strip_newline (buffer m1) 0) in *.
  assert (buffer_ok b) as Hb1 by apply buffer_ok_strip_newline, buffer_ok_exec_cmd, Hb.
  assert (olds m1 = olds (heap p)) as Ho1 by apply olds_exec_cmd.
  rewrite Hlen. change (0 <? 0) with false. cbv iota.
  cbn [world heap stdin trace print emit with_heap with_world]. rewrite Ho1.
  set (o := olds (heap p)) in *.
  assert (Hd : drop o b = drop o (buffer (heap p))).
  { apply list_eq. intros j. rewrite !lookup_drop.
    destruct Hlive as [Hge|[Hge Hz]]; [apply Htail; lia|].
    destruct (decide (o + j = 1)) as [Hj|Hj]; [|apply Htail; lia].
    assert (o = 1 ∧ j = 0) as [Eo ->] by lia. rewrite Nat.add_0_r.
    destruct (Hb) as [Hl _]. pose proof BUFSZ_gt.
    destruct (lookup_lt_is_Some_2 (buffer (heap p)) o ltac:(lia)) as [c Hc].
    unfold peek in Hz. rewrite Hc in Hz. cbn in Hz. subst c.
    rewrite Eo in *. destruct Hone as [->| ->]; done. }
  destruct (strtok None (Mem b o)) as [next m2] eqn:Htok.
  pose proof (strtok_spec None (Mem b o) _ _ Hb1 Ho Htok) as (Hb2 & Ho2 & _ & Hpos).
  pose proof (strtok_tokens None (Mem b o) _ _ Hb1 Ho Htok) as Hlines.
  cbn [default id buffer olds] in Hlines, Hpos.
  rewrite (suffix_cstr_at o b (buffer (heap p)) o Hd ltac:(lia)) in Hlines.
  exists next, (Proc (world p) m2 (stdin p) (trace p ++ [EvQuery cmd])).
  cbn [world heap stdin trace]. split_and!; try done.
  destruct next as [pos|].
  - destruct Hlines as (Hne & _ & Hx & Hnext). split; [done|].
    destruct (Hpos pos eq_refl) as [Hp1 Hp2].
    assert (0 < length (cstr_at (buffer m2) pos)).
    { destruct (cstr_at (buffer m2) pos); [done|cbn; lia]. }
    destruct Hlive as [?|[? _]]; destruct Hnext as [[? _]|?]; lia.
  - by destruct Hlines as (? & _).
Qed.

Lemma unmount_loop_nothing fuel part (p : proc W) rest :
  buffer_ok (buffer (heap p)) → olds (heap p) ≤ BUFSZ - 1 →
  (2 ≤ olds (heap p) ∨ 1 ≤ olds (heap p) ∧ peek (buffer (heap p)) (olds (heap p)) = NUL) →
  tokens (cstr_at (buffer (heap p)) (olds (heap p))) = rest →
  (∀ t, t ∈ cstr_at (buffer (heap p)) part :: rest →
     reports_nothing (popen_out (world p) (cmd_mount (part_path_of t))) = true) →
  BUFSZ - olds (heap p) ≤ fuel →
  ∃ p', unmount_loop fuel (Some part) false p = Ok (false, p') ∧
    world p' = world p ∧ stdin p' = stdin p ∧ buffer_ok (buffer (heap p')) ∧
    trace p' = trace p ++
      (EvQuery <$> (cmd_mount ∘ part_path_of <$> cstr_at (buffer (heap p)) part :: rest)).
Proof.
  pose proof BUFSZ_pos as Hsz.
  revert part p rest. induction fuel as [|fuel IH]; intros part p rest Hb Ho Hlive Hrest Hq Hf;
    [lia|].
  destruct (unmount_step_nothing part false p Hb Ho Hlive)
    as (next & p1 & Hstep & Hw & Hin & Ht & Hb1 & Ho1 & Hnext).
  { apply Hq. by left. }
  cbn [unmount_loop]. rewrite Hstep. destruct next as [pos|].
  - destruct Hnext as (Hx & H2 & Hlt). rewrite Hrest in Hx.
    destruct (IH pos p1 (tokens (cstr_at (buffer (heap p1)) (olds (heap p1)))))
      as (p' & Hloop & Hw' & Hin' & Hb' & Ht'); [done|done|by left|done| |lia|].
    { intros t Ht1. rewrite Hw. apply Hq. right. by rewrite Hx. }
    exists p'. split_and!; [done|congruence|congruence|done|].
    rewrite Ht', Ht, Hx, <- app_assoc. done.
  - subst rest. rewrite Hnext.
    exists p1. destruct fuel; cbn [unmount_loop]; split_and!; done.
Qed.

(** X9: when the mount-point query of every partition in the listing
    reports nothing, [unmount_drive] checks every partition of the listing,
    in order and under the path "/dev/<name>", runs no unmount command,
    powers the drive off and returns true. *)
Theorem unmounted_partitions_all_checked drive_path (p : proc W) :
  buffer_ok (buffer (heap p)) →
  let w := world (show_header p) in
  let names := tokens (cstr_at (buffer (exec_cmd w (cmd_parts drive_path) (heap p))) 0) in
  forallb (λ t, reports_nothing (popen_out w (cmd_mount (part_path_of t)))) names = true →
  ∃ p' t st, unmount_drive drive_path p = Ok (true, p') ∧ trace p' = trace p ++ t ∧
    queries t = cmd_parts drive_path :: (cmd_mount ∘ part_path_of <$> names) ∧
    actions t = [EvPowerOff drive_path st].
Proof.
  intros Hb w names Hall.
  assert (Hq : ∀ t, t ∈ names →
            reports_nothing (popen_out w (cmd_mount (part_path_of t))) = true).
  { intros t [i Hi]%list_elem_of_lookup.
    apply (forallb_lookup (λ t, reports_nothing (popen_out w (cmd_mount (part_path_of t))))
             names i t Hall Hi). }
  clear Hall. unfold unmount_drive.
  destruct (show_header_spec p) as (Hh & Hin & st0 & Ht0).
  set (p0 := show_header p) in *.
  cbn [world heap stdin trace print emit with_heap with_world].
  fold w. rewrite Hh. set (m1 := exec_cmd w (cmd_parts drive_path) (heap p)) in *.
  assert (buffer_ok (buffer m1)) as Hb1 by (by apply buffer_ok_exec_cmd).
  destruct (strtok (Some 0) m1) as [partition m2] eqn:Htok.
  pose proof (strtok_spec (Some 0) m1 _ _ Hb1 ltac:(cbn; lia) Htok) as (Hb2 & Ho2 & _ & Hpos).
  pose proof (strtok_tokens (Some 0) m1 _ _ Hb1 ltac:(cbn; lia) Htok) as Hlines.
  cbn [default id] in Hlines, Hpos. fold names in Hlines.
  set (pre := [EvClear st0; EvPrint MsgTitle; EvPrint MsgTagline;
               EvPrint (MsgSelected drive_path); EvPrint MsgUnmountingAll;
               EvQuery (cmd_parts drive_path)]).
  match goal with |- context [unmount_loop BUFSZ partition false ?q0] => set (q := q0) end.
  assert (Hq0 : trace q = trace p ++ pre).
  { unfold q. cbn [trace print emit with_heap with_world]. rewrite Ht0, <- !app_assoc. done. }
  assert (Hqw : world q = w) by done.
  assert (Hqh : heap q = m2) by done.
  assert (Hloop : ∃ p1, unmount_loop BUFSZ partition false q = Ok (false, p1) ∧
            world p1 = w ∧
            trace p1 = trace p ++ pre ++ (EvQuery <$> (cmd_mount ∘ part_path_of <$> names))).
  { destruct partition as [pos|].
    - destruct Hlines as (Hne & _ & Hx & Hnext).
      destruct (Hpos pos eq_refl) as [_ Hp2].
      assert (0 < length (cstr_at (buffer m2) pos)).
      { destruct (cstr_at (buffer m2) pos); [done|cbn; lia]. }
      destruct (unmount_loop_nothing BUFSZ pos q (tokens (cstr_at (buffer m2) (olds m2))))
        as (p1 & Hloop & Hw1 & _ & _ & Ht1).
      + by rewrite Hqh.
      + by rewrite Hqh.
      + rewrite Hqh. destruct Hnext as [[Ho Hz]|Ho]; [right|left]; [split|]; [lia|done|lia].
      + by rewrite Hqh.
      + intros t Ht. rewrite Hqh in Ht. rewrite Hqw. apply (Hq t). by rewrite Hx.
      + rewrite Hqh. lia.
      + exists p1. split_and!; [done|congruence|].
        rewrite Ht1, Hq0, Hqh, Hx, <- app_assoc. done.
    - destruct Hlines as (Hx & _). rewrite Hx. exists q.
      split_and!; [by with_strategy transparent [BUFSZ] (unfold BUFSZ; destruct (MAX_LINE * 10))|done|].
      by rewrite Hq0, app_nil_r. }
  destruct Hloop as (p1 & -> & Hw1 & Ht1).
  destruct (system_run (world p1) (cmd_poweroff drive_path)) as [ret w'].
  eexists _, (pre ++ (EvQuery <$> (cmd_mount ∘ part_path_of <$> names)) ++
               [EvPrint MsgPoweringOff; EvPowerOff drive_path ret] ++
               (if (ret =? 0)%Z then [EvPrint (MsgEjected drive_path); EvPrint MsgSafeRemove]
                else [EvPrint MsgPowerOffFailed]) ++
               [EvPrint MsgPressEnterContinue; EvGetchar]), ret.
  split; [reflexivity|]. split_and!.
  - destruct (ret =? 0)%Z; cbn [trace getchar print emit with_world];
      rewrite Ht1, <- !app_assoc; done.
  - rewrite !queries_app, queries_of_queries.
    destruct (ret =? 0)%Z; unfold pre; cbn [queries flat_map app]; by rewrite app_nil_r.
  - rewrite !actions_app, actions_of_queries. by destruct (ret =? 0)%Z.
Qed.

End Nothing.

Lemma unmounted_partitions_all_checked_witness :
  ∃ p' t st,
    unmount_drive (cs "/dev/sdb") (boot host_unmounted [NL]) = Ok (true, p') ∧
    trace p' = [] ++ t ∧
    queries t = [cmd_parts (cs "/dev/sdb"); cmd_mount (cs "/dev/sdb1");
                 cmd_mount (cs "/dev/sdb2")] ∧
    actions t = [EvPowerOff (cs "/dev/sdb") st].
Proof.
  destruct (unmounted_partitions_all_checked (cs "/dev/sdb") (boot host_unmounted [NL]))
    as (p' & t & st & Hrun & Ht & Hq & Ha).
  - split; vm_compute; reflexivity.
  - vm_compute. reflexivity.
  - exists p', t, st. split; [exact Hrun|]. split; [exact Ht|]. split; [|exact Ha].
    rewrite Hq. vm_compute. reflexivity.
Defined.

(** ** [get_drive_info] completes unless the name overflows [path] *)

Section Completes.
Context {W : Type} `{Host W}.

(** X10: [get_drive_info] completes whenever the device name it is given is
    shorter than 256 bytes: the mount-point loop ends, the name is copied to
    [path] in full, and the buffer is left well formed.  A name of 256 bytes
    or more is where [strcpy] writes past the end of [path]. *)
Theorem get_drive_info_completes (w : W) drive info m :
  buffer_ok (buffer m) →
  (length (cstr_at (buffer m) drive) < 256 →
     ∃ info' m', get_drive_info w drive info m = Ok (info', m') ∧
       path info' = cstr_at (buffer m) drive ∧
       buffer_ok (buffer m') ∧ olds m' ≤ BUFSZ - 1) ∧
  (256 ≤ length (cstr_at (buffer m) drive) → get_drive_info w drive info m = Fault).
Proof.
  intros Hb. rewrite <- MAX_PATH_eq. split.
  - intros Hlen.
    destruct (get_drive_info_total w drive info m Hb) as [Hf|(info' & m' & Hget & Hb' & Ho')].
    + revert Hf. unfold get_drive_info. rewrite decide_True by done. cbv zeta.
      destruct (strtok (Some 0) _) as [line m3] eqn:Htok.
      set (m2 := exec_cmd w (cmd_mount _) _) in *.
      assert (buffer_ok (buffer m2)) as Hb2 by (by do 2 apply buffer_ok_exec_cmd).
      apply strtok_spec in Htok as (Hb3 & Ho3 & _ & _); [|done|simpl; lia].
      match goal with |- mount_loop BUFSZ line ?i m3 = _ → _ =>
        destruct (mount_loop_total BUFSZ line i m3) as (? & ? & -> & _); [done|done|lia|done]
      end.
    + exists info', m'. split_and!; try done.
      by apply get_drive_info_bounds in Hget as (? & _).
  - intros Hlen. unfold get_drive_info. rewrite decide_False by lia. done.
Qed.

End Completes.

Lemma get_drive_info_completes_witness :
  ∃ info' m',
    get_drive_info host_stick 0 blank (snd (at_first_device host_stick mem_init))
      = Ok (info', m') ∧
    path info' = cstr_at (buffer (snd (at_first_device host_stick mem_init))) 0.
Proof.
  destruct (get_drive_info_completes host_stick 0 blank
              (snd (at_first_device host_stick mem_init))) as [Hok _].
  - split; vm_compute; reflexivity.
  - destruct Hok as (info' & m' & Hget & Hpath & _).
    + vm_compute. lia.
    + exists info', m'. exact (conj Hget Hpath).
Defined.

(** ** The friendly name always fits and is never empty *)

(** X11: the friendly name [show_drives] builds is never empty and never
    longer than the 255 bytes its array holds before the terminator, for
    any vendor and model. *)
Theorem friendly_name_fits (vendor model : list ascii) :
  friendly_name vendor model ≠ [] ∧ length (friendly_name vendor model) ≤ 255.
Proof.
  unfold friendly_name, snprintf.
  destruct vendor as [|v vendor]; destruct model as [|c model]; cbn [length Nat.ltb Nat.leb orb app].
  - split; [done|]. vm_compute. lia.
  - split; [done|]. rewrite length_take. lia.
  - split; [done|]. rewrite length_take. lia.
  - split; [done|]. rewrite length_take. lia.
Qed.

(** ** What [show_drives] lists *)

Lemma headings_app t1 t2 : headings (t1 ++ t2) = headings t1 ++ headings t2.
Proof. apply flat_map_app. Qed.
Lemma devices_app t1 t2 : devices (t1 ++ t2) = devices t1 ++ devices t2.
Proof. apply flat_map_app. Qed.
Lemma mount_lines_app t1 t2 : mount_lines (t1 ++ t2) = mount_lines t1 ++ mount_lines t2.
Proof. apply flat_map_app. Qed.

Lemma warned_app t1 t2 : warned (t1 ++ t2) = warned t1 || warned t2.
Proof. apply existsb_app. Qed.

Lemma display_only_actions t : display_only t → actions t = [].
Proof.
  unfold display_only, actions. induction t as [|e t IH]; cbn; [done|].
  intros [He Ht]%andb_true_iff. rewrite IH by done. by destruct e.
Qed.

Section Blocks.
Context {W : Type} `{Host W}.

Lemma show_mounts_trace (mps : list (list ascii)) (p : proc W) :
  trace (foldl (λ p mp, print (MsgMountPoint mp) p) p mps)
    = trace p ++ (EvPrint ∘ MsgMountPoint <$> mps).
Proof.
  revert p. induction mps as [|mp mps IH]; intros p; cbn [foldl fmap list_fmap].
  - by rewrite app_nil_r.
  - rewrite IH. cbn [trace print emit]. by rewrite <- app_assoc.
Qed.

Lemma mount_lines_of_mounts (mps : list (list ascii)) :
  headings (EvPrint ∘ MsgMountPoint <$> mps) = [] ∧
  devices (EvPrint ∘ MsgMountPoint <$> mps) = [] ∧
  mount_lines (EvPrint ∘ MsgMountPoint <$> mps) = mps ∧
  warned (EvPrint ∘ MsgMountPoint <$> mps) = false.
Proof.
  induction mps as [|mp mps (IH1 & IH2 & IH3 & IH4)]; [done|].
  split_and!; [done|done| |done]. unfold mount_lines in *. cbn. by f_equal.
Qed.

(** The block of one record: its heading with the number [i + 1], its
    device path, and its mount points when there are one to three. *)
Lemma show_drive_lines i d (p : proc W) :
  ∃ t, trace (show_drive i d p) = trace p ++ t ∧
    headings t = [S i] ∧ devices t = [path d] ∧ mount_lines t = listed_mounts d ∧
    warned t = false.
Proof.
  unfold show_drive, listed_mounts. cbv zeta.
  destruct ((0 <? mount_count d) && (mount_count d <=? 3)).
  - cbn [trace print emit]. rewrite show_mounts_trace. cbn [trace print emit].
    rewrite <- !app_assoc.
    exists ([EvPrint (MsgDrive (i + 1) (conn_icon (transport d))
                       (friendly_name (vendor d) (model d)));
             EvPrint (MsgDevice (path d)); EvPrint (MsgSize (size d));
             EvPrint (MsgType (conn_type (transport d)));
             EvPrint (MsgStatus (0 <? mount_count d)
                        (if 3 <? mount_count d then Some (mount_count d) else None))]
            ++ (EvPrint ∘ MsgMountPoint <$> mount_list d) ++ [EvPrint MsgBlank]).
    split; [reflexivity|].
    destruct (mount_lines_of_mounts (mount_list d)) as (H1 & H2 & H3 & H4).
    rewrite !headings_app, !devices_app, !mount_lines_app, !warned_app, H1, H2, H3, H4,
      Nat.add_1_r.
    split_and!; [done|done| |done]. cbn. by rewrite app_nil_r.
  - cbn [trace print emit]. rewrite <- !app_assoc. eexists. split; [reflexivity|].
    cbn [app]. rewrite Nat.add_1_r. done.
Qed.

Lemma show_each_lines i ds (p : proc W) :
  ∃ t, trace (show_each i ds p) = trace p ++ t ∧
    headings t = seq (S i) (length ds) ∧ devices t = path <$> ds ∧
    mount_lines t = concat (listed_mounts <$> ds) ∧ warned t = false.
Proof.
  revert i p. induction ds as [|d ds IH]; intros i p; cbn [show_each].
  - exists []. by rewrite app_nil_r.
  - destruct (IH (S i) (show_drive i d p)) as (t2 & -> & H1 & H2 & H3 & H4).
    destruct (show_drive_lines i d p) as (t1 & -> & G1 & G2 & G3 & G4).
    exists (t1 ++ t2). rewrite <- app_assoc. split; [done|].
    rewrite headings_app, devices_app, mount_lines_app, warned_app,
      H1, H2, H3, H4, G1, G2, G3, G4. done.
Qed.

(** The listing [show_drives] prints for a catalog that is not empty. *)
Lemma show_drives_listing drives count (p : proc W) :
  count ≠ 0 →
  ∃ p0 t, show_drives drives count p = Goes p0 ∧
    heap p0 = heap p ∧ stdin p0 = stdin p ∧
    trace p0 = trace p ++ t ∧ display_only t ∧
    headings t = seq 1 (length (take count drives)) ∧
    devices t = path <$> take count drives ∧
    mount_lines t = concat (listed_mounts <$> take count drives) ∧
    warned t = false.
Proof.
  intros Hc.
  destruct (show_drives_some drives count p Hc) as (p0 & t & Hrun & Hh & Hin & Ht & Hd).
  exists p0, t. split_and!; try done.
  all: revert Hrun Ht; unfold show_drives.
  all: destruct (show_header_spec p) as (_ & _ & st & Ht0).
  all: apply Nat.eqb_neq in Hc; rewrite Hc.
  all: destruct (show_each_lines 0 (take count drives)
              (print MsgRule (print MsgAvailable (show_header p))))
         as (t1 & Ht1 & H1 & H2 & H3 & H4).
  all: intros [= <-]; cbn [trace print emit]; rewrite Ht1; cbn [trace print emit].
  all: rewrite Ht0, <- !app_assoc; intros <-%app_inv_head.
  - rewrite !headings_app, H1. cbn [headings flat_map app]. by rewrite app_nil_r.
  - rewrite !devices_app, H2. cbn [devices flat_map app]. by rewrite app_nil_r.
  - rewrite !mount_lines_app, H3. cbn [mount_lines flat_map app]. by rewrite app_nil_r.
  - rewrite !warned_app, H4. done.
Qed.

(** X12: for a catalog of [count] records, [show_drives] prints one block
    per record, in the order of the array: the headings carry the numbers 1
    to [count], the device lines are the paths of the records, and the mount
    points of a record are listed when it has one to three of them and left
    out otherwise.  Nothing but output happens. *)
Theorem drives_numbered_in_order drives count (p : proc W) :
  count ≠ 0 → count ≤ length drives →
  ∃ p' t, show_drives drives count p = Goes p' ∧
    trace p' = trace p ++ t ∧ display_only t ∧
    heap p' = heap p ∧ stdin p' = stdin p ∧
    headings t = seq 1 count ∧
    devices t = path <$> take count drives ∧
    mount_lines t = concat (listed_mounts <$> take count drives).
Proof.
  intros Hc Hlen.
  destruct (show_drives_listing drives count p Hc)
    as (p0 & t & Hrun & Hh & Hin & Ht & Hd & H1 & H2 & H3 & _).
  exists p0, t. split_and!; try done.
  rewrite H1, length_take. f_equal. lia.
Qed.

End Blocks.

Lemma drives_numbered_in_order_witness :
  ∃ p' t,
    show_drives [mkDrive (cs "/dev/sdb") (cs "14.9G") (cs "Ultra") (cs "SanDisk") (cs "usb")
                   1 [cs "/media/usb"];
                 mkDrive (cs "/dev/sdc") (cs "1.8T") [] [] (cs "sata") 0 []]
                2 (boot host_stick []) = Goes p' ∧
    trace p' = [] ++ t ∧
    headings t = [1; 2] ∧ devices t = [cs "/dev/sdb"; cs "/dev/sdc"] ∧
    mount_lines t = [cs "/media/usb"].
Proof.
  destruct (drives_numbered_in_order
              [mkDrive (cs "/dev/sdb") (cs "14.9G") (cs "Ultra") (cs "SanDisk") (cs "usb")
                 1 [cs "/media/usb"];
               mkDrive (cs "/dev/sdc") (cs "1.8T") [] [] (cs "sata") 0 []]
              2 (boot host_stick []))
    as (p' & t & Hrun & Ht & _ & _ & _ & H1 & H2 & H3).
  - lia.
  - vm_compute. lia.
  - exists p', t. exact (conj Hrun (conj Ht (conj H1 (conj H2 H3)))).
Defined.

(** ** The turns of [main] *)

Section Turns.
Context {W : Type} `{Host W}.

(** A turn of [main] with a catalog that is not empty: the listing and the
    menu, and then what the turn makes of the line it reads. *)
Lemma main_step_menu drives (p : proc W) count drives' m :
  get_drives (world p) drives MAX_DRIVES (heap p) = Ok (count, drives', m) →
  count ≠ 0 →
  ∃ pm t, trace pm = trace p ++ t ∧ display_only t ∧
    headings t = seq 1 count ∧ devices t = path <$> take count drives' ∧
    warned t = false ∧ last t = Some (EvPrint MsgPrompt) ∧
    heap pm = m ∧ stdin pm = stdin p ∧
    main_step drives p =
      match fgets 16 (stdin p) with
      | None => Exits 0 pm
      | Some (line, rest) =>
          let p := Proc (world pm) m rest (trace pm) in
          let input := normalize line in
          if decide (input = cs "q") then Exits 0 (print MsgGoodbye p)
          else if decide (input = cs "r") then Goes (drives', p)
          else
            let choice := atoi input in
            if ((1 <=? choice) && (choice <=? Z.of_nat count))%Z then
              match drives' !! Z.to_nat (choice - 1) with
              | Some d =>
                  match unmount_drive (path d) p with
                  | Ok (_, p) => Goes (drives', p)
                  | Fault => Faults
                  | Timeout => Stalls
                  end
              | None => Faults
              end
            else Goes (drives', emit (EvSleep 2) (print MsgInvalid p))
      end.
Proof.
  intros Hget Hc. unfold main_step. rewrite Hget.
  destruct (get_drives_count_le _ _ _ _ _ _ _ Hget) as (Hle & Hlen).
  destruct (show_drives_listing drives' count (with_heap m p) Hc)
    as (p0 & t & -> & Hh & Hin0 & Ht & Hd & H1 & H2 & _ & H4).
  exists (show_menu count p0),
         (t ++ [EvPrint MsgOptions; EvPrint (MsgSelectRange count);
                EvPrint MsgRefreshHint; EvPrint MsgQuitHint; EvPrint MsgPrompt]).
  cbn [world heap stdin trace print emit show_menu]. rewrite Hin0, Hh, Ht.
  cbn [stdin heap trace with_heap].
  split_and!; try done.
  - by rewrite <- !app_assoc.
  - by apply display_only_app.
  - rewrite headings_app, H1, length_take, app_nil_r. f_equal. lia.
  - by rewrite devices_app, H2, app_nil_r.
  - by rewrite warned_app, H4.
  - by rewrite last_app.
Qed.



(** X14: the answer "r" or "R" starts the next turn and nothing else: the
    turn only prints the listing and the menu (no warning, no pause, no
    command on a drive), takes the line off standard input, and the next
    turn builds the catalog again from the array and the buffer this turn
    left. *)
Theorem refresh_rebuilds_catalog n drives (p : proc W) count drives' m c rest :
  get_drives (world p) drives MAX_DRIVES (heap p) = Ok (count, drives', m) →
  count ≠ 0 →
  c = "r"%char ∨ c = "R"%char → stdin p = c :: NL :: rest →
  ∃ p' t, main_step drives p = Goes (drives', p') ∧
    trace p' = trace p ++ t ∧ display_only t ∧ warned t = false ∧
    stdin p' = rest ∧ heap p' = m ∧
    main_loop (S n) drives p = main_loop n drives' p'.
Proof.
  intros Hget Hc Hr Hin.
  destruct (main_step_menu drives p count drives' m Hget Hc)
    as (pm & t & Ht & Hd & _ & _ & Hw & _ & Hh & Hin' & Hstep).
  rewrite Hin, fgets_quit in Hstep by (by destruct Hr as [-> | ->]).
  assert (normalize [c; NL] = cs "r") as Hn by (by destruct Hr as [-> | ->]).
  cbv zeta in Hstep. rewrite Hn in Hstep.
  rewrite decide_False, decide_True in Hstep by done.
  eexists _, t. split; [exact Hstep|]. cbn [trace stdin heap].
  split_and!; try done.
  by rewrite main_loop_unfold, Hstep.
Qed.

(** X15: at the end of standard input, with a catalog that is not empty,
    [main] returns 0 right after the prompt: nothing but the listing and the
    menu is printed, and no farewell. *)
Theorem end_of_input_exits_zero n drives (p : proc W) count drives' m :
  get_drives (world p) drives MAX_DRIVES (heap p) = Ok (count, drives', m) →
  count ≠ 0 → stdin p = [] →
  ∃ p' t, main_loop (S n) drives p = Exits 0 p' ∧
    trace p' = trace p ++ t ∧ display_only t ∧ last t = Some (EvPrint MsgPrompt).
Proof.
  intros Hget Hc Hin.
  destruct (main_step_menu drives p count drives' m Hget Hc)
    as (pm & t & Ht & Hd & _ & _ & _ & Hlast & _ & _ & Hstep).
  rewrite Hin in Hstep. cbn [fgets] in Hstep.
  exists pm, t. by rewrite main_loop_unfold, Hstep.
Qed.

(** X16: a line whose [atoi] value [n] is between 1 and the drive count
    makes the turn call [unmount_drive] with the path of record [n - 1],
    which is the device line of the block the listing of this turn shows
    under the number [n]; whatever [unmount_drive] returns, the loop goes
    on. *)
Theorem selection_ejects_listed_drive drives (p : proc W) count drives' m line rest :
  buffer_ok (buffer (heap p)) →
  get_drives (world p) drives MAX_DRIVES (heap p) = Ok (count, drives', m) →
  fgets 16 (stdin p) = Some (line, rest) →
  (1 ≤ atoi (normalize line) ≤ Z.of_nat count)%Z →
  let n := Z.to_nat (atoi (normalize line)) in
  ∃ d pm t b p',
    drives' !! (n - 1) = Some d ∧
    trace pm = trace p ++ t ∧ display_only t ∧
    headings t !! (n - 1) = Some n ∧ devices t !! (n - 1) = Some (path d) ∧
    stdin pm = rest ∧ heap pm = m ∧
    unmount_drive (path d) pm = Ok (b, p') ∧
    main_step drives p = Goes (drives', p').
Proof.
  intros Hb Hget Hin Hrange n.
  assert (Hc : count ≠ 0) by lia.
  destruct (get_drives_count_le _ _ _ _ _ _ _ Hget) as (Hle & Hlen).
  pose proof (get_drives_buffer_ok _ _ _ _ _ _ _ Hb Hget) as Hbm.
  destruct (main_step_menu drives p count drives' m Hget Hc)
    as (pm & t & Ht & Hd & H1 & H2 & _ & _ & Hh & Hin' & Hstep).
  rewrite Hin in Hstep. cbv zeta in Hstep.
  assert (atoi (cs "q") = 0%Z ∧ atoi (cs "r") = 0%Z) as [Hq Hr] by (split; reflexivity).
  rewrite decide_False in Hstep by (intros Heq; rewrite Heq in Hrange; lia).
  rewrite decide_False in Hstep by (intros Heq; rewrite Heq in Hrange; lia).
  destruct Hrange as [Hr1 Hr2].
  rewrite (proj2 (Z.leb_le _ _) Hr1), (proj2 (Z.leb_le _ _) Hr2) in Hstep.
  cbn [andb] in Hstep.
  replace (Z.to_nat (atoi (normalize line) - 1)) with (n - 1) in Hstep by (unfold n; lia).
  assert (Hn : n - 1 < count ∧ 1 + (n - 1) = n) by (unfold n; lia).
  destruct Hn as [Hn1 Hn2].
  destruct (lookup_lt_is_Some_2 drives' (n - 1) ltac:(lia)) as [d Hdrv].
  rewrite Hdrv in Hstep.
  set (q := Proc (world pm) m rest (trace pm)) in *.
  destruct (unmount_drive_spec (path d) q Hbm) as (b & p' & t' & Hrun & _).
  rewrite Hrun in Hstep.
  exists d, q, t, b, p'. split_and!; try done.
  - rewrite H1. rewrite lookup_seq_lt by done. by rewrite Hn2.
  - rewrite H2, list_lookup_fmap, lookup_take_lt by done. by rewrite Hdrv.
Qed.

(** X17: a turn runs an unmount or power-off command, or a query on a
    partition, only for a selection in range: when the catalog is empty, at
    the end of input, and for every line whose [atoi] value is not between
    1 and the drive count (so for "q" and "r" too), the turn ends or goes on
    without any of them. *)
Theorem no_eject_without_selection drives (p : proc W) count drives' m :
  get_drives (world p) drives MAX_DRIVES (heap p) = Ok (count, drives', m) →
  (∀ line rest, fgets 16 (stdin p) = Some (line, rest) →
     ¬ (1 ≤ atoi (normalize line) ≤ Z.of_nat count)%Z) →
  ∃ p' t,
    (main_step drives p = Goes (drives', p') ∨ ∃ c, main_step drives p = Exits c p') ∧
    trace p' = trace p ++ t ∧ actions t = [] ∧ queries t = [].
Proof.
  intros Hget Hsel.
  assert (Hdq : ∀ t, display_only t → queries t = []).
  { unfold display_only, queries. clear. induction t as [|e t IH]; cbn; [done|].
    intros [He Ht]%andb_true_iff. rewrite IH by done. by destruct e. }
  destruct (decide (count = 0)) as [->|Hc].
  { unfold main_step. rewrite Hget.
    destruct (show_drives_none drives' (with_heap m p)) as (p' & st & -> & Ht).
    exists p'. eexists. split; [right; by exists 1%Z|]. split; [exact Ht|]. done. }
  destruct (main_step_menu drives p count drives' m Hget Hc)
    as (pm & t & Ht & Hd & _ & _ & _ & _ & Hh & Hin' & Hstep).
  pose proof (display_only_actions t Hd) as Ha. pose proof (Hdq t Hd) as Hqs.
  destruct (fgets 16 (stdin p)) as [[line rest]|] eqn:Hin.
  2: { exists pm, t. split; [right; by exists 0%Z|]. done. }
  specialize (Hsel line rest eq_refl). cbv zeta in Hstep.
  destruct (decide (normalize line = cs "q")).
  { eexists _, (t ++ [EvPrint MsgGoodbye]). split; [right; by exists 0%Z|].
    cbn [trace print emit]. rewrite Ht, <- app_assoc, actions_app, queries_app, Ha, Hqs. done. }
  destruct (decide (normalize line = cs "r")).
  { eexists _, t. split; [by left|]. done. }
  destruct ((1 <=? atoi (normalize line)) && (atoi (normalize line) <=? Z.of_nat count))%Z eqn:E.
  { exfalso. apply Hsel. apply andb_true_iff in E as [E1 E2]. apply Z.leb_le in E1, E2. done. }
  eexists _, (t ++ [EvPrint MsgInvalid; EvSleep 2]). split; [by left|].
  cbn [trace print emit]. rewrite Ht, <- !app_assoc, actions_app, queries_app, Ha, Hqs. done.
Qed.

End Turns.


Lemma refresh_rebuilds_catalog_witness :
  ∃ drives' p' t,
    main_step no_drives (boot host_stick (nl "R")) = Goes (drives', p') ∧
    trace p' = [] ++ t ∧ display_only t ∧ warned t = false ∧ stdin p' = [].
Proof.
  assert (∃ drives' m,
    get_drives host_stick no_drives MAX_DRIVES mem_init = Ok (1, drives', m))
    as (drives' & m & Hget) by (eexists _, _; vm_compute; reflexivity).
  destruct (refresh_rebuilds_catalog 0 no_drives (boot host_stick (nl "R"))
              1 drives' m "R"%char [] Hget)
    as (p' & t & Hstep & Ht & Hd & Hw & Hin & _).
  - lia.
  - by right.
  - reflexivity.
  - exists drives', p', t. exact (conj Hstep (conj Ht (conj Hd (conj Hw Hin)))).
Defined.

Lemma end_of_input_exits_zero_witness :
  ∃ p' t,
    main_loop 1 no_drives (boot host_stick []) = Exits 0 p' ∧
    trace p' = [] ++ t ∧ display_only t ∧ last t = Some (EvPrint MsgPrompt).
Proof.
  assert (∃ drives' m,
    get_drives host_stick no_drives MAX_DRIVES mem_init = Ok (1, drives', m))
    as (drives' & m & Hget) by (eexists _, _; vm_compute; reflexivity).
  apply (end_of_input_exits_zero 0 no_drives (boot host_stick []) 1 drives' m Hget).
  - lia.
  - reflexivity.
Defined.

Lemma selection_ejects_listed_drive_witness :
  ∃ drives' d pm t b p',
    drives' !! 0 = Some d ∧ trace pm = [] ++ t ∧
    headings t !! 0 = Some 1 ∧ devices t !! 0 = Some (path d) ∧
    unmount_drive (path d) pm = Ok (b, p') ∧
    main_step no_drives (boot host_stick (nl "1" ++ [NL])) = Goes (drives', p').
Proof.
  assert (∃ drives' m,
    get_drives host_stick no_drives MAX_DRIVES mem_init = Ok (1, drives', m))
    as (drives' & m & Hget) by (eexists _, _; vm_compute; reflexivity).
  destruct (selection_ejects_listed_drive no_drives (boot host_stick (nl "1" ++ [NL]))
              1 drives' m (nl "1") [NL])
    as (d & pm & t & b & p' & Hd & Ht & _ & Hh & Hdev & _ & _ & Hrun & Hstep).
  - split; vm_compute; reflexivity.
  - exact Hget.
  - vm_compute. reflexivity.
  - vm_compute. split; discriminate.
  - exists drives', d, pm, t, b, p'.
    exact (conj Hd (conj Ht (conj Hh (conj Hdev (conj Hrun Hstep))))).
Defined.

Lemma no_eject_without_selection_witness :
  ∃ drives' p' t,
    (main_step no_drives (boot host_stick (nl "x")) = Goes (drives', p') ∨
     ∃ c, main_step no_drives (boot host_stick (nl "x")) = Exits c p') ∧
    trace p' = [] ++ t ∧ actions t = [] ∧ queries t = [].
Proof.
  assert (∃ drives' m,
    get_drives host_stick no_drives MAX_DRIVES mem_init = Ok (1, drives', m))
    as (drives' & m & Hget) by (eexists _, _; vm_compute; reflexivity).
  exists drives'.
  apply (no_eject_without_selection no_drives (boot host_stick (nl "x")) 1 drives' m Hget).
  intros line rest Hin. vm_compute in Hin. injection Hin as <- <-.
  vm_compute. intros [Hle _]. apply Hle. reflexivity.
Defined.

(** ** The detail line is split at white space *)

Lemma scan_s_skip_all width ws s :
  forallb isspace ws = true → scan_s width (ws ++ s) = scan_s width s.
Proof.
  induction ws as [|c ws IH]; cbn [forallb app]; [done|].
  intros [Hc Hws]%andb_true_iff. rewrite scan_s_skip by done. by apply IH.
Qed.

(** A word is read up to the white space or the end of the string that
    follows it. *)
Lemma scan_s_word width t tail :
  is_token width t → (∀ c, head tail = Some c → isspace c = true) →
  scan_s width (t ++ tail) = Some (t, tail).
Proof.
  intros Ht Htail. destruct tail as [|c rest].
  - destruct Ht as (Hne & Hns & Hlen). rewrite app_nil_r. unfold scan_s.
    destruct t as [|x t]; [done|].
    assert (isspace x = false) as Hx.
    { cbn in Hns. apply andb_true_iff in Hns as [Hx _].
      unfold not_space in Hx. by apply negb_true_iff in Hx. }
    rewrite span_not_first, drop_0 by done.
    rewrite (span_all not_space) by done.
    rewrite Nat.min_r by done.
    by rewrite take_ge, drop_ge by lia.
  - apply scan_s_token; [done|]. by apply Htail.
Qed.

Lemma head_gap ws s c : is_gap ws → head (ws ++ s) = Some c → isspace c = true.
Proof.
  intros [Hne Hws]. destruct ws as [|x ws]; [done|]. cbn.
  intros [= <-]. cbn in Hws. by apply andb_true_iff in Hws as [? _].
Qed.

(** X18: [sscanf] takes the first four words of the detail line, whatever
    white space leads the line and separates the words (the columns of
    [lsblk] are padded), and whatever follows the fourth word: when each
    word fits its field they become size, model, vendor and transport in
    this order, and a fifth word is dropped, so the second word of a model
    name is stored as the vendor. *)
Theorem detail_line_first_four_words ws0 t1 ws1 t2 ws2 t3 ws3 t4 tail info :
  forallb isspace ws0 = true →
  is_token 63 t1 → is_gap ws1 → is_token 127 t2 → is_gap ws2 →
  is_token 127 t3 → is_gap ws3 → is_token 31 t4 →
  (∀ c, head tail = Some c → isspace c = true) →
  sscanf_info (ws0 ++ t1 ++ ws1 ++ t2 ++ ws2 ++ t3 ++ ws3 ++ t4 ++ tail) info
    = set_transport t4 (set_vendor t3 (set_model t2 (set_size t1 info))).
Proof.
  intros H0 H1 G1 H2 G2 H3 G3 H4 Htail. unfold sscanf_info.
  rewrite scan_s_skip_all by done.
  rewrite (scan_s_word 63 t1) by (done || (intros c; by apply (head_gap ws1))).
  rewrite scan_s_skip_all by apply G1.
  rewrite (scan_s_word 127 t2) by (done || (intros c; by apply (head_gap ws2))).
  rewrite scan_s_skip_all by apply G2.
  rewrite (scan_s_word 127 t3) by (done || (intros c; by apply (head_gap ws3))).
  rewrite scan_s_skip_all by apply G3.
  rewrite (scan_s_word 31 t4) by done.
  done.
Qed.

Lemma detail_line_first_four_words_witness :
  sscanf_info (cs " " ++ cs "14.9G" ++ cs "  " ++ cs "Ultra" ++ cs " " ++ cs "Fit" ++
               cs "   " ++ cs "SanDisk" ++ nl " usb") blank
    = set_transport (cs "SanDisk")
        (set_vendor (cs "Fit") (set_model (cs "Ultra") (set_size (cs "14.9G") blank))).
Proof.
  apply (detail_line_first_four_words (cs " ") (cs "14.9G") (cs "  ") (cs "Ultra") (cs " ")
           (cs "Fit") (cs "   ") (cs "SanDisk") (nl " usb") blank).
  - reflexivity.
  - split; [discriminate|]. split; [reflexivity|vm_compute; lia].
  - split; [discriminate|reflexivity].
  - split; [discriminate|]. split; [reflexivity|vm_compute; lia].
  - split; [discriminate|reflexivity].
  - split; [discriminate|]. split; [reflexivity|vm_compute; lia].
  - split; [discriminate|reflexivity].
  - split; [discriminate|]. split; [reflexivity|vm_compute; lia].
  - intros c Hc. vm_compute in Hc. injection Hc as <-. reflexivity.
Defined.

(** The fields [sscanf] stores do not depend on the fields it leaves. *)
Lemma sscanf_info_fields s i i' :
  size i = size i' → model i = model i' → vendor i = vendor i' →
  transport i = transport i' →
  size (sscanf_info s i) = size (sscanf_info s i') ∧
  model (sscanf_info s i) = model (sscanf_info s i') ∧
  vendor (sscanf_info s i) = vendor (sscanf_info s i') ∧
  transport (sscanf_info s i) = transport (sscanf_info s i').
Proof.
  intros Hs Hm Hv Ht. unfold sscanf_info.
  repeat (destruct (scan_s _ _) as [[??]|]; [|done]). done.
Qed.

(** ** The first device and the first partition *)

Section First.
Context {W : Type} `{Host W}.

(** X19: the first record of the catalog is made from the first line of the
    listing that is not empty: its path is that line, and its size, model,
    vendor and transport are what [sscanf] makes of the output of the
    detail query for that path, starting from the fields the slot held. *)
Theorem first_record_from_first_line (w : W) drives max_drives m count drives' m'
    out name rest old detail :
  buffer_ok (buffer m) → 0 < max_drives →
  get_drives w drives max_drives m = Ok (count, drives', m') →
  popen_out w (cmd_list (fst (get_root_drive w 64 m))) = Some out →
  forallb not_nul out = true → length out < BUFSZ →
  tokens out = name :: rest →
  drives !! 0 = Some old →
  popen_out w (cmd_detail name) = Some detail →
  forallb not_nul detail = true → length detail < BUFSZ →
  ∃ d, drives' !! 0 = Some d ∧ 0 < count ∧ path d = name ∧
    size d = size (sscanf_info detail old) ∧
    model d = model (sscanf_info detail old) ∧
    vendor d = vendor (sscanf_info detail old) ∧
    transport d = transport (sscanf_info detail old).
Proof.
  intros Hb Hmax Hget Hout Hnn Hlen Htoks Hold Hdet Hnnd Hlend. revert Hget.
  unfold get_drives.
  destruct (get_root_drive w 64 m) as [root_drive m1] eqn:Hroot. cbn [fst] in Hout.
  assert (buffer_ok (buffer m1)) as Hb1.
  { unfold get_root_drive in Hroot. injection Hroot as _ <-. cbn [buffer].
    by apply buffer_ok_strip_newline, buffer_ok_exec_cmd. }
  set (m2 := exec_cmd w (cmd_list root_drive) m1).
  assert (buffer_ok (buffer m2)) as Hb2 by (by apply buffer_ok_exec_cmd).
  assert (cstr_at (buffer m2) 0 = out) as HM by (by apply exec_cmd_result).
  destruct (strtok (Some 0) m2) as [line m3] eqn:Htok.
  pose proof (strtok_spec (Some 0) m2 _ _ Hb2 ltac:(cbn; lia) Htok) as (Hb3 & Ho3 & _ & _).
  pose proof (strtok_tokens (Some 0) m2 _ _ Hb2 ltac:(cbn; lia) Htok) as Hlines.
  cbn [default id] in Hlines. rewrite HM, Htoks in Hlines.
  destruct line as [pos|]; [|by destruct Hlines].
  destruct Hlines as (_ & _ & [= Hname _] & _).
  destruct max_drives as [|k]; [lia|]. cbn [drives_loop]. rewrite Hold.
  destruct (get_drive_info w pos old m3) as [[info m4]| |] eqn:Hinfo; [|done|done].
  destruct (strtok None m4) as [line' m5].
  intros Hloop. apply drives_loop_bounds in Hloop as (Hc & _ & _ & Hkeep & _).
  exists info. rewrite Hkeep by lia.
  rewrite list_lookup_insert_eq by (by eapply lookup_lt_Some).
  split; [done|]. split; [lia|].
  revert Hinfo. unfold get_drive_info. rewrite <- Hname. case_decide; [|done]. cbv zeta.
  rewrite (exec_cmd_result w (cmd_detail name) m3 detail) by done.
  destruct (strtok (Some 0) (exec_cmd w (cmd_mount _) _)) as [l0 m6].
  intros Hloop. apply mount_loop_fixed in Hloop as (-> & -> & -> & -> & -> & _).
  destruct (sscanf_info_fixed detail (set_mount_count 0 (set_path name old))) as (-> & _).
  destruct (sscanf_info_fields detail (set_mount_count 0 (set_path name old)) old)
    as (-> & -> & -> & ->); done.
Qed.

Lemma unmount_loop_unfold fuel part failed (p : proc W) :
  0 < fuel →
  unmount_loop fuel (Some part) failed p =
    let '(next, failed', p') := unmount_step part failed p in
    unmount_loop (fuel - 1) next failed' p'.
Proof.
  intros Hf. destruct fuel; [lia|]. cbn [unmount_loop].
  by replace (S fuel - 1) with fuel by lia.
Qed.

(** One turn of the loop for a partition whose query reports a mount
    point: the unmount command is run on the partition. *)
Lemma unmount_step_mounted part failed (p : proc W) out next failed' p' :
  buffer_ok (buffer (heap p)) →
  popen_out (world p) (cmd_mount (part_path_of (cstr_at (buffer (heap p)) part))) = Some out →
  forallb not_nul out = true → length out < BUFSZ → first_line out ≠ [] →
  unmount_step part failed p = (next, failed', p') →
  let pp := part_path_of (cstr_at (buffer (heap p)) part) in
  let st := fst (system_run (world p) (cmd_unmount pp)) in
  failed' = failed || negb (st =? 0)%Z ∧
  trace p' = trace p ++
    [EvQuery (cmd_mount pp); EvPrint (MsgUnmounting pp (first_line out));
     EvUnmount pp st; EvPrint (if (st =? 0)%Z then MsgSuccess else MsgFailed)].
Proof.
  intros Hb Hout Hnn Hlen Hne. unfold unmount_step.
  fold (part_path_of (cstr_at (buffer (heap p)) part)).
  set (pp := part_path_of (cstr_at (buffer (heap p)) part)) in *.
  set (m1 := exec_cmd (world p) (cmd_mount pp) (heap p)).
  set (b := strip_newline (buffer m1) 0).
  assert (Hstr : cstr_at b 0 = first_line out).
  { unfold b. rewrite strip_newline_first_line by (by apply buffer_ok_exec_cmd).
    unfold m1. by rewrite (exec_cmd_result (world p) (cmd_mount pp) (heap p) out). }
  assert (Hpos : (0 <? strlen_at b 0) = true).
  { apply Nat.ltb_lt. rewrite <- length_cstr_at_0, Hstr.
    destruct (first_line out); [done|cbn; lia]. }
  rewrite Hpos, Hstr. cbn [world heap stdin trace print emit with_heap with_world].
  destruct (system_run (world p) (cmd_unmount pp)) as [ret w'] eqn:Hsys. cbn [fst].
  destruct (ret =? 0)%Z eqn:Hret; cbn [world heap stdin trace print emit with_heap with_world].
  - destruct (strtok None _) as [nx m2]. intros [= <- <- <-].
    cbn [trace print emit with_heap with_world]. rewrite <- ?app_assoc. by rewrite orb_false_r.
  - destruct (strtok None _) as [nx m2]. intros [= <- <- <-].
    cbn [trace print emit with_heap with_world]. rewrite <- ?app_assoc. by rewrite orb_true_r.
Qed.

(** X20: when the mount-point query of the first partition in the listing
    reports a mount point, [unmount_drive] runs the unmount command on that
    partition as its first command on the drive, announced with the mount
    point, and a status other than 0 makes the result false. *)
Theorem first_partition_unmounted drive_path (p : proc W) name rest out :
  buffer_ok (buffer (heap p)) →
  let w := world (show_header p) in
  let pp := part_path_of name in
  let st := fst (system_run w (cmd_unmount pp)) in
  tokens (cstr_at (buffer (exec_cmd w (cmd_parts drive_path) (heap p))) 0) = name :: rest →
  popen_out w (cmd_mount pp) = Some out →
  forallb not_nul out = true → length out < BUFSZ → first_line out ≠ [] →
  ∃ b p' t1 t2, unmount_drive drive_path p = Ok (b, p') ∧
    trace p' = trace p ++ t1 ++
      [EvPrint (MsgUnmounting pp (first_line out)); EvUnmount pp st] ++ t2 ∧
    actions t1 = [] ∧
    queries t1 = [cmd_parts drive_path; cmd_mount pp] ∧
    (st ≠ 0%Z → b = false).
Proof.
  intros Hb w pp st Hnames Hout Hnn Hlen Hne. unfold unmount_drive.
  destruct (show_header_spec p) as (Hh & Hin & st0 & Ht0).
  set (p0 := show_header p) in *.
  cbn [world heap stdin trace print emit with_heap with_world].
  fold w. rewrite Hh. set (m1 := exec_cmd w (cmd_parts drive_path) (heap p)) in *.
  assert (buffer_ok (buffer m1)) as Hb1 by (by apply buffer_ok_exec_cmd).
  destruct (strtok (Some 0) m1) as [partition m2] eqn:Htok.
  pose proof (strtok_spec (Some 0) m1 _ _ Hb1 ltac:(cbn; lia) Htok) as (Hb2 & Ho2 & _ & _).
  pose proof (strtok_tokens (Some 0) m1 _ _ Hb1 ltac:(cbn; lia) Htok) as Hlines.
  cbn [default id] in Hlines. rewrite Hnames in Hlines.
  destruct partition as [pos|]; [|by destruct Hlines].
  destruct Hlines as (_ & _ & [= Hname _] & _).
  set (pre := [EvClear st0; EvPrint MsgTitle; EvPrint MsgTagline;
               EvPrint (MsgSelected drive_path); EvPrint MsgUnmountingAll;
               EvQuery (cmd_parts drive_path)]).
  match goal with |- context [unmount_loop BUFSZ (Some pos) false ?q0] => set (q := q0) end.
  assert (Hq0 : trace q = trace p ++ pre).
  { unfold q. cbn [trace print emit with_heap with_world]. rewrite Ht0, <- !app_assoc. done. }
  assert (Hqw : world q = w) by done.
  assert (Hqh : heap q = m2) by done.
  rewrite unmount_loop_unfold by apply BUFSZ_pos.
  destruct (unmount_step pos false q) as [[next fl] p1] eqn:Hstep.
  pose proof (unmount_step_spec pos false q next fl p1) as Hspec.
  destruct Hspec as (Hbp1 & Hop1 & Hprog & _ & _); [by rewrite Hqh|by rewrite Hqh|done|].
  pose proof (unmount_step_mounted pos false q out next fl p1) as Hm.
  rewrite Hqh, Hqw, <- Hname in Hm. fold pp in Hm. cbv zeta in Hm. fold st in Hm.
  destruct Hm as (Hfl & Ht1); try done. cbn [orb] in Hfl.
  destruct (unmount_loop_spec (BUFSZ - 1) next fl p1)
    as (failed' & p2 & t2 & -> & Ht2 & Hf2 & _ & _ & _); [done|done| |].
  { intros Hn. specialize (Hprog Hn). lia. }
  assert (Hst : st ≠ 0%Z → failed' = true).
  { intros Hne0. rewrite Hf2, Hfl. apply Z.eqb_neq in Hne0. by rewrite Hne0. }
  assert (Htr : trace p2 = trace p ++ (pre ++ [EvQuery (cmd_mount pp)]) ++
            [EvPrint (MsgUnmounting pp (first_line out)); EvUnmount pp st] ++
            ([EvPrint (if (st =? 0)%Z then MsgSuccess else MsgFailed)] ++ t2)).
  { rewrite Ht2, Ht1, Hq0, <- !app_assoc. done. }
  assert (Hpre : actions (pre ++ [EvQuery (cmd_mount pp)]) = [] ∧
                 queries (pre ++ [EvQuery (cmd_mount pp)])
                   = [cmd_parts drive_path; cmd_mount pp]) by done.
  destruct Hpre as [Hpa Hpq].
  destruct failed'.
  - eexists false, _, (pre ++ [EvQuery (cmd_mount pp)]), _.
    split; [reflexivity|]. cbn [trace getchar print emit].
    rewrite Htr, <- !app_assoc. split; [reflexivity|]. done.
  - destruct (system_run (world p2) (cmd_poweroff drive_path)) as [ret w'].
    destruct (ret =? 0)%Z.
    + eexists true, _, (pre ++ [EvQuery (cmd_mount pp)]), _.
      split; [reflexivity|]. cbn [trace getchar print emit with_world].
      rewrite Htr, <- !app_assoc. split; [reflexivity|].
      split_and!; [done|done|]. intros Hne0. by specialize (Hst Hne0).
    + eexists true, _, (pre ++ [EvQuery (cmd_mount pp)]), _.
      split; [reflexivity|]. cbn [trace getchar print emit with_world].
      rewrite Htr, <- !app_assoc. split; [reflexivity|].
      split_and!; [done|done|]. intros Hne0. by specialize (Hst Hne0).
Qed.

End First.

Lemma first_record_from_first_line_witness :
  ∃ count drives' m' d,
    get_drives host_stick no_drives MAX_DRIVES mem_init = Ok (count, drives', m') ∧
    drives' !! 0 = Some d ∧ path d = cs "/dev/sdb" ∧
    size d = size (sscanf_info (nl "14.9G Ultra SanDisk usb") blank).
Proof.
  assert (∃ count drives' m',
    get_drives host_stick no_drives MAX_DRIVES mem_init = Ok (count, drives', m'))
    as (count & drives' & m' & Hget) by (eexists _, _, _; vm_compute; reflexivity).
  destruct (first_record_from_first_line host_stick no_drives MAX_DRIVES mem_init
              count drives' m' (nl "/dev/sdb") (cs "/dev/sdb") [] blank
              (nl "14.9G Ultra SanDisk usb"))
    as (d & Hd & _ & Hp & Hs & _).
  - split; vm_compute; reflexivity.
  - vm_compute. lia.
  - exact Hget.
  - vm_compute. reflexivity.
  - vm_compute. reflexivity.
  - vm_compute. lia.
  - vm_compute. reflexivity.
  - vm_compute. reflexivity.
  - vm_compute. reflexivity.
  - vm_compute. reflexivity.
  - vm_compute. lia.
  - exists count, drives', m', d. exact (conj Hget (conj Hd (conj Hp Hs))).
Defined.

Lemma first_partition_unmounted_witness :
  ∃ b p' t1 t2,
    unmount_drive (cs "/dev/sdb") (boot host_stick [NL]) = Ok (b, p') ∧
    trace p' = [] ++ t1 ++
      [EvPrint (MsgUnmounting (part_path_of (cs "sdb1")) (first_line (nl "/media/usb")));
       EvUnmount (part_path_of (cs "sdb1"))
         (fst (system_run (world (show_header (boot host_stick [NL])))
                 (cmd_unmount (part_path_of (cs "sdb1")))))] ++ t2 ∧
    actions t1 = [].
Proof.
  destruct (first_partition_unmounted (cs "/dev/sdb") (boot host_stick [NL])
              (cs "sdb1") [cs "sdb2"] (nl "/media/usb"))
    as (b & p' & t1 & t2 & Hrun & Ht & Ha & _).
  - split; vm_compute; reflexivity.
  - vm_compute. reflexivity.
  - vm_compute. reflexivity.
  - vm_compute. reflexivity.
  - vm_compute. lia.
  - vm_compute. discriminate.
  - exists b, p', t1, t2. exact (conj Hrun (conj Ht Ha)).
Defined.
